(** * MTCL generic collectives: a shallow embedding of
      [include/collectives/collectiveImpl.hpp]

    The file models the Framing Helper ([probeHandle], [receiveFromHandle]),
    the partition arithmetic ([getTeamPartitionSize]) and the generic
    Broadcast, Scatter, FanIn, FanOut, Gather, AllGather and Alltoall
    strategies, and proves the properties of the specification against
    that model.

    Conventions.
    - [size_t] is a 64-bit unsigned integer, [ssize_t] a 64-bit signed one
      and [int] a 32-bit signed one; all three are carried by [Z] and every
      conversion or arithmetic step that can leave the range is written
      with [wrap64], [to_ssize] or [to_int].
    - A [Handle*] is an address ([nat]) into a heap of Handle objects, so
      that the same Handle may be reached from several places.
    - [errno] is a field of the world; every call of a virtual method of a
      Handle is logged in the world's trace together with what it returned.
    - [MTCL_PRINT], [MTCL_ERROR] and [MTCL_TCP_PRINT] only log; they are not
      modelled. *)

From Stdlib Require Import ZArith Lia.
From Stdlib Require Import Init.Byte.
From stdpp Require Import base list gmap.

Open Scope Z_scope.

(** ** Machine integers *)

Definition wrap64 (x : Z) : Z := x mod 2 ^ 64.

(** conversion of a [size_t] (or of any integer) to [ssize_t] *)
Definition to_ssize (x : Z) : Z :=
  let y := x mod 2 ^ 64 in if y <? 2 ^ 63 then y else y - 2 ^ 64.

(** conversion to [int] *)
Definition to_int (x : Z) : Z :=
  let y := x mod 2 ^ 32 in if y <? 2 ^ 31 then y else y - 2 ^ 32.

Definition INT_MAX : Z := 2 ^ 31 - 1.
Definition SSIZE_MAX : Z := 2 ^ 63 - 1.
Definition SIZE_MAX : Z := 2 ^ 64 - 1.

(** [sizeof(size_t)] on an LP64 target *)
Definition sizeof_size_t : Z := 8.

(** ** errno *)

(** Modelled from the spec: the error tags come from [<errno.h>], which is
    not part of the repository; the Linux values are used
    ([EWOULDBLOCK] and [EAGAIN] are the same number there). *)
Definition EBADF : Z := 9.
Definition EAGAIN : Z := 11.
Definition EWOULDBLOCK : Z := 11.
Definition ENOMEM : Z := 12.
Definition EFAULT : Z := 14.
Definition EINVAL : Z := 22.
Definition ECONNRESET : Z := 104.

(** ** Buffers *)

(** The memory found from a [void*]/[char*] on.  A pointer argument of
    [sendrecv] is an [option buffer]: [None] for [nullptr]. *)
Definition buffer : Type := list byte.

(** [p + k] *)
Definition advance (p : buffer) (k : Z) : buffer := drop (Z.to_nat k) p.

(** [memcpy(dst + off, src, k)] as a function on the memory behind [dst] *)
Definition memcpy_at (dst : buffer) (off : Z) (src : buffer) (k : Z) : buffer :=
  take (Z.to_nat off) dst ++ take (Z.to_nat k) src
       ++ drop (Z.to_nat off + Z.to_nat k) dst.

Definition memcpy (dst src : buffer) (k : Z) : buffer := memcpy_at dst 0 src k.

(** ** Handles *)

(** What one call of [Handle::probe] produced: the returned [ssize_t], the
    value stored through the [size] reference (if the transport stored
    one), and the [errno] it set (if it set one). *)
Record probe_result := ProbeResult {
  pr_ret : Z;
  pr_size : option Z;
  pr_errno : option Z;
}.

(** [Handle::receive]: returned value, bytes put in the buffer, errno *)
Record receive_result := ReceiveResult {
  rr_ret : Z;
  rr_data : list byte;
  rr_errno : option Z;
}.

(** [Handle::send]: returned value, errno *)
Record send_result := SendResult {
  sr_ret : Z;
  sr_errno : option Z;
}.

(** [handle.hpp] is not part of the sources: the virtual methods of
    [Handle] (the transport behind it) are an interface.  [T] is the state
    of the transport behind one Handle. *)
Class Transport (T : Type) := {
  t_probe : bool → T → probe_result * T;
  t_receive : Z → T → receive_result * T;
  t_send : list byte → T → send_result * T;
  t_close : bool → bool → T → T;
}.

(** The fields of [Handle] that the collectives read and write. *)
Record Handle (T : Type) := mkHandle {
  probed : bool * Z;
  closed_rd : bool;
  closed_wr : bool;
  chan : T;
}.
Arguments mkHandle {T}.
Arguments probed {T}.
Arguments closed_rd {T}.
Arguments closed_wr {T}.
Arguments chan {T}.

(** One call of a virtual method of the Handle at address [h], with what
    it returned. *)
Inductive event :=
| EvProbe (h : nat) (blocking : bool) (ret : Z) (size : Z)
| EvReceive (h : nat) (cap : Z) (ret : Z)
| EvSend (h : nat) (data : list byte) (ret : Z)
| EvClose (h : nat) (wr rd : bool).

Record World (T : Type) := mkWorld {
  heap : gmap nat (Handle T);
  errno : Z;
  trace : list event;
}.
Arguments mkWorld {T}.
Arguments heap {T}.
Arguments errno {T}.
Arguments trace {T}.

(** ** The monad of the embedding

    State is the world; [None] stands for an execution that leaves the
    model: [std::out_of_range] thrown by [vector::at], or a Handle pointer
    that does not point to a Handle. *)
Definition M (T A : Type) : Type := World T → option (A * World T).

Definition ret {T A} (a : A) : M T A := λ w, Some (a, w).

Definition bind {T A B} (m : M T A) (k : A → M T B) : M T B :=
  λ w, match m w with
       | Some (a, w') => k a w'
       | None => None
       end.

Notation "'let*' x ':=' m 'in' k" := (bind m (λ x, k))
  (at level 10, x name, m at level 100, k at level 200, only parsing).
Notation "'let*' ' pat ':=' m 'in' k" := (bind m (λ x, match x with pat => k end))
  (at level 10, pat pattern, m at level 100, k at level 200, only parsing).
Notation "m1 ';;' m2" := (bind m1 (λ _, m2))
  (at level 100, m2 at level 200, right associativity, only parsing).

Section HandleOps.
Context {T : Type} `{Transport T}.

Definition set_errno (e : Z) : M T unit :=
  λ w, Some (tt, mkWorld (heap w) e (trace w)).

Definition get_errno : M T Z := λ w, Some (errno w, w).

(** [*h] *)
Definition deref (h : nat) : M T (Handle T) :=
  λ w, match heap w !! h with Some hd => Some (hd, w) | None => None end.

Definition store (h : nat) (hd : Handle T) : M T unit :=
  λ w, Some (tt, mkWorld (<[h := hd]> (heap w)) (errno w) (trace w)).

Definition log (e : event) : M T unit :=
  λ w, Some (tt, mkWorld (heap w) (errno w) (trace w ++ [e])).

Definition set_errno_opt (e : option Z) : M T unit :=
  match e with Some e => set_errno e | None => ret tt end.

(** [h->probed = p] *)
Definition set_probed (h : nat) (p : bool * Z) : M T unit :=
  let* hd := deref h in
  store h (mkHandle p (closed_rd hd) (closed_wr hd) (chan hd)).

(** [h->probe(size, blocking)]; gives the returned value and the content of
    [size] after the call. *)
Definition Handle_probe (h : nat) (size : Z) (blocking : bool) : M T (Z * Z) :=
  let* hd := deref h in
  let '(r, t') := t_probe blocking (chan hd) in
  let size' := default size (pr_size r) in
  store h (mkHandle (probed hd) (closed_rd hd) (closed_wr hd) t');;
  set_errno_opt (pr_errno r);;
  log (EvProbe h blocking (pr_ret r) size');;
  ret (pr_ret r, size').

(** [h->receive(buff, cap)]; gives the returned value and the bytes stored
    in [buff] (never more than [cap]). *)
Definition Handle_receive (h : nat) (cap : Z) : M T (Z * list byte) :=
  let* hd := deref h in
  let '(r, t') := t_receive cap (chan hd) in
  store h (mkHandle (probed hd) (closed_rd hd) (closed_wr hd) t');;
  set_errno_opt (rr_errno r);;
  log (EvReceive h cap (rr_ret r));;
  ret (rr_ret r, take (Z.to_nat cap) (rr_data r)).

(** [h->send(buff, size)] where [data] is the [size] bytes at [buff] *)
Definition Handle_send (h : nat) (data : list byte) : M T Z :=
  let* hd := deref h in
  let '(r, t') := t_send data (chan hd) in
  store h (mkHandle (probed hd) (closed_rd hd) (closed_wr hd) t');;
  set_errno_opt (sr_errno r);;
  log (EvSend h data (sr_ret r));;
  ret (sr_ret r).

(** Modelled from the spec: [Handle::close(close_wr, close_rd)] is declared
    in [handle.hpp]; it half-closes either direction idempotently, the two
    flags being set independently. *)
Definition Handle_close (h : nat) (wr rd : bool) : M T unit :=
  let* hd := deref h in
  store h (mkHandle (probed hd) (closed_rd hd || rd) (closed_wr hd || wr)
                    (t_close wr rd (chan hd)));;
  log (EvClose h wr rd).

(** [v.at(i)] for a [size_t] index: throws past the end *)
Definition at_ {A} (v : list A) (i : Z) : M T A :=
  λ w, match v !! Z.to_nat i with Some x => Some (x, w) | None => None end.

(** undefined behaviour (a division by zero) leaves the model *)
Definition undefined {A} : M T A := λ _, None.

End HandleOps.

(** ** CollectiveImpl: the Framing Helper and the partition size *)

Module CollectiveImpl.

Record t := mk {
  participants : list nat;
  nparticipants : Z;
  uniqtag : Z;
  rank : Z;
}.

Definition with_participants (c : t) (ps : list nat) : t :=
  mk ps (nparticipants c) (uniqtag c) (rank c).

Definition getTeamRank (c : t) : Z := rank c.

(** [getTeamPartitionSize(buffcount)]: [partition] and [r] are [int]s
    initialised from [size_t] values. *)
Definition getTeamPartitionSize (c : t) (buffcount : Z) : option Z :=
  if nparticipants c =? 0 then None
  else
    let partition := to_int (buffcount / nparticipants c) in
    let r := to_int (buffcount mod nparticipants c) in
    let partition :=
      if negb (r =? 0) && (rank c <? r) then to_int (partition + 1)
      else partition in
    Some partition.

Section Framing.
Context {T : Type} `{Transport T}.

(** [probeHandle(realHandle, size, blocking)]; gives the returned value and
    the content of [size] after the call.  The test [!realHandle] of the
    source comes after [realHandle->probed] has been read, so a null
    pointer never reaches it: a pointer that is not a Handle leaves the
    model at the first dereference. *)
Definition probeHandle (h : nat) (size : Z) (blocking : bool) : M T (Z * Z) :=
  let* hd := deref h in
  if fst (probed hd) then
    let size := snd (probed hd) in
    ret (if size =? 0 then 0 else sizeof_size_t, size)
  else if closed_rd hd then ret (0, size)
  else
    let* '(r, size) := Handle_probe h size blocking in
    if r <=? 0 then
      if r =? 0 then
        Handle_close h true true;; ret (0, size)
      else if r =? -1 then
        let* e := get_errno in
        if e =? ECONNRESET then
          Handle_close h true true;; ret (0, size)
        else if (e =? EWOULDBLOCK) || (e =? EAGAIN) then
          set_errno EWOULDBLOCK;; ret (-1, size)
        else ret (r, size)
      else ret (r, size)
    else
      set_probed h (true, size);;
      if size =? 0 then
        Handle_close h false true;; ret (0, size)
      else ret (r, size).

(** [receiveFromHandle(realHandle, buff, size)]; gives the returned value
    and the bytes stored in [buff].  The local [sz] is not initialised in
    the source; it is 0 here until a probe stores into it. *)
Definition receiveFromHandle (h : nat) (size : Z) : M T (Z * list byte) :=
  let* hd := deref h in
  let receive_probed : M T (Z * list byte) :=
    let* hd := deref h in
    let sz := snd (probed hd) in
    if sz >? size then
      set_errno ENOMEM;; ret (-1, [])
    else
      set_probed h (false, 0);;
      Handle_receive h (Z.min sz size) in
  if negb (fst (probed hd)) then
    let* '(r, _) := probeHandle h 0 true in
    if r <=? 0 then ret (r, [])
    else receive_probed
  else
    if closed_rd hd then ret (0, [])
    else receive_probed.

End Framing.

End CollectiveImpl.

Import CollectiveImpl.

(** what a call stored in the caller's buffer [dst] at offset [off] *)
Definition store_bytes (dst : buffer) (off : Z) (data : list byte) : buffer :=
  memcpy_at dst off data (Z.of_nat (length data)).

(** [for(auto& h : participants) h->close(true, false);], the loop of the
    [close] methods *)
Fixpoint close_loop {T} `{Transport T} (hs : list nat) : M T unit :=
  match hs with
  | [] => ret tt
  | h :: hs' => Handle_close h true false;; close_loop hs'
  end.

(** ** BroadcastGeneric *)

Module BroadcastGeneric.

Record t := mk {
  base : CollectiveImpl.t;
  root : bool;
}.

Section Broadcast.
Context {T : Type} `{Transport T}.

(** The [for] loop of the root over [participants]; [false] when a send
    failed.  The source does not test [sendbuff]: a null one is handed to
    [Handle::send], which reads through it, and the execution leaves the
    model there. *)
Fixpoint send_loop (hs : list nat) (sendbuff : option buffer) (sendsize : Z)
    : M T bool :=
  match hs with
  | [] => ret true
  | h :: hs' =>
    match sendbuff with
    | None => undefined
    | Some sb =>
      let* r := Handle_send h (take (Z.to_nat sendsize) sb) in
      if r <? 0 then set_errno ECONNRESET;; ret false
      else send_loop hs' sendbuff sendsize
    end
  end.

(** [sendrecv(sendbuff, sendsize, recvbuff, recvsize, datasize)]; gives the
    returned value and the memory behind [recvbuff] after the call.  On a
    non-root a null [recvbuff] is handed to [receiveFromHandle] as it is:
    bytes stored through it leave the model. *)
Definition sendrecv (c : t) (sendbuff : option buffer) (sendsize : Z)
    (recvbuff : option buffer) (recvsize datasize : Z) : M T (Z * option buffer) :=
  if root c then
    let* completed := send_loop (participants (base c)) sendbuff sendsize in
    if completed then
      match recvbuff with
      | Some rb =>
        match sendbuff with
        | Some sb => ret (to_ssize sendsize, Some (memcpy rb sb sendsize))
        | None => undefined
        end
      | None => ret (to_ssize sendsize, None)
      end
    else ret (-1, recvbuff)
  else
    let* h := at_ (participants (base c)) 0 in
    let* '(res, data) := receiveFromHandle h recvsize in
    (if res =? 0 then Handle_close h true false else ret tt);;
    match recvbuff with
    | Some rb => ret (res, Some (store_bytes rb 0 data))
    | None => match data with [] => ret (res, None) | _ => undefined end
    end.

(** [close(close_wr, close_rd)]: the two flags are not looked at *)
Definition close (c : t) (close_wr close_rd : bool) : M T unit :=
  if root c then close_loop (participants (base c)) else ret tt.

End Broadcast.

End BroadcastGeneric.

(** ** ScatterGeneric *)

Module ScatterGeneric.

Record t := mk {
  base : CollectiveImpl.t;
  root : bool;
}.

Section Scatter.
Context {T : Type} `{Transport T}.

(** The [for] loop of the root over the peers, with [k] iterations left;
    [true] when the loop ran to its end, [false] when a send failed and
    the function returned -1. *)
Fixpoint sendrecv_loop (k : nat) (c : t) (i rcount sendcount datasize : Z)
    (sendbuff : buffer) : M T bool :=
  match k with
  | O => ret true
  | S k' =>
    let chunksize := sendcount in
    let '(chunksize, rcount) :=
      if rcount >? 0 then (wrap64 (chunksize + datasize), wrap64 (rcount - 1))
      else (chunksize, rcount) in
    let* h := at_ (participants (base c)) i in
    let* r := Handle_send h (take (Z.to_nat chunksize) sendbuff) in
    if r <? 0 then
      set_errno ECONNRESET;; ret false
    else
      sendrecv_loop k' c (wrap64 (i + 1)) rcount sendcount datasize
                    (advance sendbuff chunksize)
  end.

(** [sendrecv(sendbuff, sendsize, recvbuff, recvsize, datasize)]; gives the
    returned value and the memory behind [recvbuff] after the call. *)
Definition sendrecv (c : t) (sendbuff : option buffer) (sendsize : Z)
    (recvbuff : option buffer) (recvsize datasize : Z) : M T (Z * option buffer) :=
  match recvbuff with
  | None => set_errno EFAULT;; ret (-1, None)
  | Some rb =>
    if root c then
      match sendbuff with
      | None => set_errno EFAULT;; ret (-1, Some rb)
      | Some sb =>
        if datasize =? 0 then undefined
        else if negb (sendsize mod datasize =? 0) then
          set_errno EINVAL;; ret (-1, Some rb)
        else if nparticipants (base c) =? 0 then undefined
        else
          let datacount := sendsize / datasize in
          let sendcount := wrap64 ((datacount / nparticipants (base c)) * datasize) in
          let rcount := datacount mod nparticipants (base c) in
          let selfsendcount := sendcount in
          let '(selfsendcount, rcount) :=
            if rcount >? 0 then (wrap64 (selfsendcount + datasize), wrap64 (rcount - 1))
            else (selfsendcount, rcount) in
          if recvsize <? selfsendcount then
            set_errno EINVAL;; ret (-1, Some rb)
          else
            let rb := memcpy rb sb selfsendcount in
            let sb := advance sb selfsendcount in
            let* completed :=
              sendrecv_loop (Z.to_nat (wrap64 (nparticipants (base c) - 1))) c
                            0 rcount sendcount datasize sb in
            if completed then ret (to_ssize selfsendcount, Some rb)
            else ret (-1, Some rb)
      end
    else
      let* h := at_ (participants (base c)) 0 in
      let* '(res, data) := receiveFromHandle h recvsize in
      (if res =? 0 then Handle_close h true false else ret tt);;
      ret (res, Some (store_bytes rb 0 data))
  end.

(** [close(close_wr, close_rd)]: the two flags are not looked at *)
Definition close (c : t) (close_wr close_rd : bool) : M T unit :=
  if root c then close_loop (participants (base c)) else ret tt.

End Scatter.

End ScatterGeneric.

(** ** FanInGeneric *)

Module FanInGeneric.

Record t := mk {
  base : CollectiveImpl.t;
  probed_idx : Z;
  root : bool;
}.

Definition with_participants (c : t) (ps : list nat) : t :=
  mk (CollectiveImpl.with_participants (base c) ps) (probed_idx c) (root c).

Definition with_probed_idx (c : t) (i : Z) : t := mk (base c) i (root c).

Section FanIn.
Context {T : Type} `{Transport T}.

(** The end of one iteration of the [while] loop of [probe]:
    [iter++; if (iter == participants.end()) { if (blocking) iter =
    participants.begin(); else break; }], where [continue] is the rest of
    the loop.  An iterator is its distance from [participants.begin()]. *)
Definition probe_next (continue : t → Z → nat → Z → M T (option (t * Z * Z)))
    (blocking : bool) (c : t) (res : Z) (iter : nat) (size : Z)
    : M T (option (t * Z * Z)) :=
  let iter := S iter in
  if bool_decide (iter = length (participants (base c))) then
    if blocking then continue c res 0%nat size
    else ret (Some (c, res, size))
  else continue c res iter size.

(** The [while] loop of [probe].  [participants.erase(iter)] leaves the
    distance of [iter] from [participants.begin()] unchanged.  The result
    is the state [(this, res, size)] in which the loop was left, or [None]
    when the loop is still running after [fuel] iterations. *)
Fixpoint probe_loop (fuel : nat) (blocking : bool) (c : t) (res : Z)
    (iter : nat) (size : Z) : M T (option (t * Z * Z)) :=
  if (res =? -1) && negb (bool_decide (participants (base c) = [])) then
    match fuel with
    | O => ret None
    | S fuel' =>
      let* h := at_ (participants (base c)) (Z.of_nat iter) in
      let* '(res, size) := Handle_probe h size false in
      if (res >? 0) && (size =? 0) then
        let c := with_participants c (delete iter (participants (base c))) in
        let res := -1 in
        Handle_close h true true;;
        if bool_decide (iter = length (participants (base c))) then
          if blocking then probe_loop fuel' blocking c res 0%nat size
          else ret (Some (c, res, size))
        else probe_next (probe_loop fuel' blocking) blocking c res iter size
      else if res >? 0 then
        let c := with_probed_idx c (Z.of_nat iter) in
        set_probed h (true, size);;
        probe_next (probe_loop fuel' blocking) blocking c res iter size
      else probe_next (probe_loop fuel' blocking) blocking c res iter size
    end
  else ret (Some (c, res, size)).

(** [probe(size, blocking)] run for at most [fuel] iterations of its loop;
    gives [this], the returned value and the content of [size]. *)
Definition probe (fuel : nat) (c : t) (size : Z) (blocking : bool)
    : M T (option (t * Z * Z)) :=
  let* r := probe_loop fuel blocking c (-1) 0%nat size in
  match r with
  | None => ret None
  | Some (c, res, size) =>
    if bool_decide (participants (base c) = []) then
      ret (Some (c, sizeof_size_t, 0))
    else ret (Some (c, res, size))
  end.

(** [send(buff, size)] where [data] is the [size] bytes at [buff] *)
Fixpoint send_loop (hs : list nat) (data : list byte) : M T (option Z) :=
  match hs with
  | [] => ret None
  | h :: hs' =>
    let* r := Handle_send h data in
    if r <? 0 then ret (Some r) else send_loop hs' data
  end.

Definition send (c : t) (data : list byte) (size : Z) : M T Z :=
  let* r := send_loop (participants (base c)) data in
  match r with
  | Some r => ret r
  | None => ret (to_ssize size)
  end.

(** [receive(buff, size)]; [participants.at(probed_idx)] converts the
    [ssize_t] index to [size_t]. *)
Definition receive (c : t) (size : Z) : M T (t * Z * list byte) :=
  let* h := at_ (participants (base c)) (wrap64 (probed_idx c)) in
  let* '(r, data) := Handle_receive h size in
  if r <=? 0 then ret (c, -1, data)
  else
    set_probed h (false, 0);;
    ret (with_probed_idx c (-1), r, data).

(** [close(close_wr, close_rd)]: a non-root half-closes its Handle to the
    root; the two flags are not looked at *)
Definition close (c : t) (close_wr close_rd : bool) : M T unit :=
  if negb (root c) then
    let* h := at_ (participants (base c)) 0 in
    Handle_close h true false
  else ret tt.

End FanIn.

End FanInGeneric.

(** ** FanOutGeneric *)

Module FanOutGeneric.

Record t := mk {
  base : CollectiveImpl.t;
  current : Z;
  root : bool;
}.

Definition with_participants (c : t) (ps : list nat) : t :=
  mk (CollectiveImpl.with_participants (base c) ps) (current c) (root c).

(** [v.pop_back()] *)
Definition pop_back {A} (v : list A) : list A := take (length v - 1)%nat v.

Section FanOut.
Context {T : Type} `{Transport T}.

(** [probe(size, blocking)]; gives [this], the returned value and the
    content of [size]. *)
Definition probe (c : t) (size : Z) (blocking : bool) : M T (t * Z * Z) :=
  if bool_decide (participants (base c) = []) then
    set_errno ECONNRESET;; ret (c, -1, size)
  else
    let* h := at_ (participants (base c)) 0 in
    let* '(res, size) := Handle_probe h size blocking in
    let* c :=
      if (res >? 0) && (size =? 0) then
        let c := with_participants c (pop_back (participants (base c))) in
        Handle_close h true true;;
        ret c
      else ret c in
    (if res >? 0 then set_probed h (true, size) else ret tt);;
    ret (c, res, size).

Definition with_current (c : t) (i : Z) : t := mk (base c) i (root c).

(** [send(buff, size)] where [data] is the [size] bytes at [buff]; gives
    [this] and the returned value.  The result of [Handle::send] goes
    through an [int]; [++current %= count] is reached only when
    [participants.at(current)] has not thrown, so [count] is not 0. *)
Definition send (c : t) (data : list byte) : M T (t * Z) :=
  let count := Z.of_nat (length (participants (base c))) in
  let* h := at_ (participants (base c)) (current c) in
  let* r := Handle_send h data in
  let res := to_int r in
  let c := with_current c (wrap64 (current c + 1) mod count) in
  ret (c, res).

(** [receive(buff, size)]; gives the returned value and the bytes stored
    in [buff] *)
Definition receive (c : t) (size : Z) : M T (Z * list byte) :=
  let* h := at_ (participants (base c)) 0 in
  let* '(res, data) := Handle_receive h size in
  set_probed h (false, 0);;
  ret (res, data).

(** [close(close_wr, close_rd)]: the two flags are not looked at *)
Definition close (c : t) (close_wr close_rd : bool) : M T unit :=
  if root c then close_loop (participants (base c)) else ret tt.

End FanOut.

End FanOutGeneric.

(** ** GatherGeneric *)

Module GatherGeneric.

Record t := mk {
  base : CollectiveImpl.t;
  root : bool;
}.

Section Gather.
Context {T : Type} `{Transport T}.

(** The receiving [for] loop of the root, with [k] iterations left; gives
    [Some r] when the function returned [r] from inside the loop, and the
    memory behind [recvbuff]. *)
Fixpoint gather_loop (k : nat) (c : t) (i rcount recvcount datasize displ : Z)
    (recvbuff : buffer) : M T (option Z * buffer) :=
  match k with
  | O => ret (None, recvbuff)
  | S k' =>
    let chunksize :=
      if negb (rcount =? 0) && (wrap64 (i + 1) <? rcount)
      then wrap64 (recvcount + datasize) else recvcount in
    let* h := at_ (participants (base c)) i in
    let* '(return_value, data) := receiveFromHandle h chunksize in
    let recvbuff := store_bytes recvbuff displ data in
    if return_value <=? 0 then ret (Some return_value, recvbuff)
    else
      gather_loop k' c (wrap64 (i + 1)) rcount recvcount datasize
                  (wrap64 (displ + chunksize)) recvbuff
  end.

(** [sendrecv(sendbuff, sendsize, recvbuff, recvsize, datasize)]; the root
    tests [recvbuff] after the sizes, a non-root never looks at it. *)
Definition sendrecv (c : t) (sendbuff : option buffer) (sendsize : Z)
    (recvbuff : option buffer) (recvsize datasize : Z) : M T (Z * option buffer) :=
  match sendbuff with
  | None => set_errno EFAULT;; ret (-1, recvbuff)
  | Some sb =>
    if datasize =? 0 then undefined
    else if negb (recvsize mod datasize =? 0) then
      set_errno EINVAL;; ret (-1, recvbuff)
    else if nparticipants (base c) =? 0 then undefined
    else
      let datacount := recvsize / datasize in
      let recvcount := wrap64 ((datacount / nparticipants (base c)) * datasize) in
      let rcount := datacount mod nparticipants (base c) in
      if root c then
        let selfrecvcount :=
          if rcount >? 0 then wrap64 (recvcount + datasize) else recvcount in
        if sendsize <? selfrecvcount then
          set_errno EINVAL;; ret (-1, recvbuff)
        else
          match recvbuff with
          | None => set_errno EFAULT;; ret (-1, None)
          | Some rb =>
            let rb := memcpy rb sb selfrecvcount in
            let* '(returned, rb) :=
              gather_loop (Z.to_nat (wrap64 (nparticipants (base c) - 1))) c
                          0 rcount recvcount datasize selfrecvcount rb in
            match returned with
            | Some return_value => ret (return_value, Some rb)
            | None => ret (to_ssize selfrecvcount, Some rb)
            end
          end
      else
        let chunksize :=
          if negb (rcount =? 0) && (rank (base c) <? to_int rcount)
          then wrap64 (recvcount + datasize) else recvcount in
        if chunksize >? sendsize then
          set_errno EINVAL;; ret (-1, recvbuff)
        else
          let* h := at_ (participants (base c)) 0 in
          let* r := Handle_send h (take (Z.to_nat chunksize) sb) in
          if r <? 0 then
            set_errno ECONNRESET;; ret (-1, recvbuff)
          else ret (to_ssize chunksize, recvbuff)
  end.

(** [close(close_wr, close_rd)]: every rank half-closes all its Handles;
    the two flags are not looked at *)
Definition close (c : t) (close_wr close_rd : bool) : M T unit :=
  close_loop (participants (base c)).

End Gather.

End GatherGeneric.

(** ** AllGatherGeneric *)

Module AllGatherGeneric.

Record t := mk {
  base : CollectiveImpl.t;
  root : bool;
}.

Section AllGather.
Context {T : Type} `{Transport T}.

(** The receiving [for] loop of the root, with [k] iterations left; gives
    [Some r] when the function returned [r] from inside the loop, and the
    memory behind [recvbuff]. *)
Fixpoint gather_loop (k : nat) (c : t) (i rcount recvcount datasize displ : Z)
    (recvbuff : buffer) : M T (option Z * buffer) :=
  match k with
  | O => ret (None, recvbuff)
  | S k' =>
    let chunksize :=
      if negb (rcount =? 0) && (wrap64 (i + 1) <? rcount)
      then wrap64 (recvcount + datasize) else recvcount in
    let* h := at_ (participants (base c)) i in
    let* '(return_value, data) := receiveFromHandle h chunksize in
    let recvbuff := store_bytes recvbuff displ data in
    if return_value <=? 0 then ret (Some return_value, recvbuff)
    else
      gather_loop k' c (wrap64 (i + 1)) rcount recvcount datasize
                  (wrap64 (displ + chunksize)) recvbuff
  end.

(** [for(auto h : participants) if(h->send(recvbuff, recvsize) < 0) ...];
    [false] when a send failed. *)
Fixpoint reflect_loop (hs : list nat) (data : list byte) : M T bool :=
  match hs with
  | [] => ret true
  | h :: hs' =>
    let* r := Handle_send h data in
    if r <? 0 then set_errno ECONNRESET;; ret false
    else reflect_loop hs' data
  end.

Definition sendrecv (c : t) (sendbuff : option buffer) (sendsize : Z)
    (recvbuff : option buffer) (recvsize datasize : Z) : M T (Z * option buffer) :=
  match sendbuff with
  | None => set_errno EFAULT;; ret (-1, recvbuff)
  | Some sb =>
    match recvbuff with
    | None => set_errno EFAULT;; ret (-1, None)
    | Some rb =>
      if datasize =? 0 then undefined
      else if negb (recvsize mod datasize =? 0) then
        set_errno EINVAL;; ret (-1, Some rb)
      else if nparticipants (base c) =? 0 then undefined
      else
        let datacount := recvsize / datasize in
        let recvcount := wrap64 ((datacount / nparticipants (base c)) * datasize) in
        let rcount := datacount mod nparticipants (base c) in
        if root c then
          let selfrecvcount :=
            if rcount >? 0 then wrap64 (recvcount + datasize) else recvcount in
          if sendsize <? selfrecvcount then
            set_errno EINVAL;; ret (-1, Some rb)
          else
            let rb := memcpy rb sb selfrecvcount in
            let* '(returned, rb) :=
              gather_loop (Z.to_nat (wrap64 (nparticipants (base c) - 1))) c
                          0 rcount recvcount datasize selfrecvcount rb in
            match returned with
            | Some return_value => ret (return_value, Some rb)
            | None =>
              let* completed :=
                reflect_loop (participants (base c)) (take (Z.to_nat recvsize) rb) in
              if completed then ret (to_ssize selfrecvcount, Some rb)
              else ret (-1, Some rb)
            end
        else
          let chunksize :=
            if negb (rcount =? 0) && (rank (base c) <? to_int rcount)
            then wrap64 (recvcount + datasize) else recvcount in
          if chunksize >? sendsize then
            set_errno EINVAL;; ret (-1, Some rb)
          else
            let* h := at_ (participants (base c)) 0 in
            let* r := Handle_send h (take (Z.to_nat chunksize) sb) in
            if r <? 0 then
              set_errno ECONNRESET;; ret (-1, Some rb)
            else
              let* '(res, data) := receiveFromHandle h recvsize in
              (if res =? 0 then Handle_close h true false else ret tt);;
              ret (to_ssize chunksize, Some (store_bytes rb 0 data))
    end
  end.

(** [close(close_wr, close_rd)]: the two flags are not looked at *)
Definition close (c : t) (close_wr close_rd : bool) : M T unit :=
  close_loop (participants (base c)).

End AllGather.

End AllGatherGeneric.

(** ** AlltoallGeneric *)

Module AlltoallGeneric.

Record t := mk {
  base : CollectiveImpl.t;
  root : bool;
}.

Section Alltoall.
Context {T : Type} `{Transport T}.

(** First [for] loop of the root: one frame of [sendsize] bytes from every
    peer into [allsendbuff]; [return_value] is an [int]. *)
Fixpoint collect_loop (k : nat) (c : t) (i sendsize : Z) (allsendbuff : buffer)
    : M T (option Z * buffer) :=
  match k with
  | O => ret (None, allsendbuff)
  | S k' =>
    let* h := at_ (participants (base c)) i in
    let* '(r, data) := receiveFromHandle h sendsize in
    let return_value := to_int r in
    let allsendbuff := store_bytes allsendbuff (wrap64 (i * sendsize)) data in
    if return_value <=? 0 then ret (Some return_value, allsendbuff)
    else collect_loop k' c (wrap64 (i + 1)) sendsize allsendbuff
  end.

(** The inner [for] loop over [j]: the slice of every peer at [displ] *)
Fixpoint assemble_loop (k : nat) (j offset displ chunksize sendsize : Z)
    (allsendbuff chunkbuff : buffer) : buffer :=
  match k with
  | O => chunkbuff
  | S k' =>
    let chunkbuff :=
      memcpy_at chunkbuff offset
                (advance allsendbuff (wrap64 (wrap64 (j * sendsize) + displ)))
                chunksize in
    assemble_loop k' (wrap64 (j + 1)) (wrap64 (offset + chunksize)) displ
                  chunksize sendsize allsendbuff chunkbuff
  end.

(** Memory returned by [new char[n]]; its content is indeterminate in the
    source and zero here. *)
Definition new_char (n : Z) : buffer := replicate (Z.to_nat n) x00.

(** Second [for] loop of the root, over the destination ranks; [false]
    when a send failed. *)
Fixpoint route_loop (k : nat) (c : t) (i rcount sendcount datasize displ sendsize : Z)
    (sendbuff allsendbuff recvbuff : buffer) : M T (bool * buffer) :=
  match k with
  | O => ret (true, recvbuff)
  | S k' =>
    let n := nparticipants (base c) in
    let chunksize := sendcount in
    let '(chunksize, rcount) :=
      if rcount >? 0 then (wrap64 (chunksize + datasize), wrap64 (rcount - 1))
      else (chunksize, rcount) in
    let chunkbuff :=
      if i =? 0 then recvbuff else new_char (wrap64 (chunksize * n)) in
    let chunkbuff := memcpy chunkbuff (advance sendbuff displ) chunksize in
    let chunkbuff :=
      assemble_loop (Z.to_nat (wrap64 (n - 1))) 0 chunksize displ chunksize
                    sendsize allsendbuff chunkbuff in
    let recvbuff := if i =? 0 then chunkbuff else recvbuff in
    let displ := wrap64 (displ + chunksize) in
    if negb (i =? 0) then
      let* h := at_ (participants (base c)) (wrap64 (i - 1)) in
      let* r := Handle_send h (take (Z.to_nat (wrap64 (chunksize * n))) chunkbuff) in
      if r <? 0 then set_errno ECONNRESET;; ret (false, recvbuff)
      else route_loop k' c (wrap64 (i + 1)) rcount sendcount datasize displ
                      sendsize sendbuff allsendbuff recvbuff
    else route_loop k' c (wrap64 (i + 1)) rcount sendcount datasize displ
                    sendsize sendbuff allsendbuff recvbuff
  end.

Definition sendrecv (c : t) (sendbuff : option buffer) (sendsize : Z)
    (recvbuff : option buffer) (recvsize datasize : Z) : M T (Z * option buffer) :=
  match sendbuff with
  | None => set_errno EFAULT;; ret (-1, recvbuff)
  | Some sb =>
    match recvbuff with
    | None => set_errno EFAULT;; ret (-1, None)
    | Some rb =>
      if datasize =? 0 then undefined
      else if negb (sendsize mod datasize =? 0) then
        set_errno EINVAL;; ret (-1, Some rb)
      else if nparticipants (base c) =? 0 then undefined
      else
        let n := nparticipants (base c) in
        let datacount := sendsize / datasize in
        let sendcount := wrap64 ((datacount / n) * datasize) in
        let rcount := datacount mod n in
        let selfrecvcount :=
          wrap64 (wrap64 (sendcount +
                          (if negb (rcount =? 0) && (rank (base c) <? to_int rcount)
                           then datasize else 0)) * n) in
        if recvsize <? selfrecvcount then
          set_errno EINVAL;; ret (-1, Some rb)
        else if root c then
          let allsendbuff := new_char (wrap64 (sendsize * wrap64 (n - 1))) in
          let* '(returned, allsendbuff) :=
            collect_loop (Z.to_nat (wrap64 (n - 1))) c 0 sendsize allsendbuff in
          match returned with
          | Some return_value => ret (return_value, Some rb)
          | None =>
            let* '(completed, rb) :=
              route_loop (Z.to_nat n) c 0 rcount sendcount datasize 0 sendsize
                         sb allsendbuff rb in
            if completed then ret (to_ssize selfrecvcount, Some rb)
            else ret (-1, Some rb)
          end
        else
          let* h := at_ (participants (base c)) 0 in
          let* r := Handle_send h (take (Z.to_nat sendsize) sb) in
          if r <? 0 then
            set_errno ECONNRESET;; ret (-1, Some rb)
          else
            let* '(res, data) := receiveFromHandle h recvsize in
            (if res =? 0 then Handle_close h true false else ret tt);;
            ret (to_ssize selfrecvcount, Some (store_bytes rb 0 data))
    end
  end.

(** [close(close_wr, close_rd)]: the two flags are not looked at *)
Definition close (c : t) (close_wr close_rd : bool) : M T unit :=
  close_loop (participants (base c)).

End Alltoall.

End AlltoallGeneric.

(** ** A scripted transport

    A transport whose answers are read from three scripts, one per method;
    it is the instance at which the theorems are run on concrete inputs. *)

Record Script := mkScript {
  probes : list probe_result;
  receives : list receive_result;
  sends : list send_result;
}.

#[export] Instance Script_transport : Transport Script := {|
  t_probe _ s :=
    match probes s with
    | [] => (ProbeResult (-1) None (Some EWOULDBLOCK), s)
    | r :: rs => (r, mkScript rs (receives s) (sends s))
    end;
  t_receive _ s :=
    match receives s with
    | [] => (ReceiveResult (-1) [] (Some ECONNRESET), s)
    | r :: rs => (r, mkScript (probes s) rs (sends s))
    end;
  t_send data s :=
    match sends s with
    | [] => (SendResult (Z.of_nat (length data)) None, s)
    | r :: rs => (r, mkScript (probes s) (receives s) rs)
    end;
  t_close _ _ s := s;
|}.

(** a Handle as its constructor leaves it, over a script *)
Definition fresh (s : Script) : Handle Script := mkHandle (false, 0) false false s.

Definition world_of (hs : list (Handle Script)) : World Script :=
  mkWorld (list_to_map (zip (seq 0 (length hs)) hs)) 0 [].

(** ** Vocabulary of the properties *)

(** the calls of Handle methods made between world [w] and world [w'] *)
Definition events_since {T} (w w' : World T) : list event :=
  drop (length (trace w)) (trace w').

(** a caller that calls [probeHandle] [n] times in a row on the same
    Handle, with the same [size] variable *)
Fixpoint probeHandle_times {T} `{Transport T} (n : nat) (h : nat) (size : Z)
    (blocking : bool) : M T (list (Z * Z)) :=
  match n with
  | O => ret []
  | S n' =>
    let* r := probeHandle h size blocking in
    let* rs := probeHandle_times n' h (snd r) blocking in
    ret (r :: rs)
  end.

(** Invariant of the Framing Helper on a Handle: a pending frame of
    positive size is found only on a Handle that is not read-closed (the
    helper read-closes a Handle only when it meets an end of stream, that
    is with nothing pending or with a pending size of 0). *)
Definition pending_open {T} (hd : Handle T) : Prop :=
  fst (probed hd) = true → snd (probed hd) ≠ 0 → closed_rd hd = false.

(** Partition arithmetic as the specification words it (section 4.2):
    [chunk(r) = base + (datasize if r < remainder else 0)] over
    [count = total / datasize]. *)
Definition chunk (total datasize n : Z) (r : Z) : Z :=
  let count := total / datasize in
  let base := (count / n) * datasize in
  let remainder := count mod n in
  base + (if r <? remainder then datasize else 0).

(** displacement of rank [r]: the sum of [chunk(i)] for [i < r] *)
Fixpoint displacement (total datasize n : Z) (r : nat) : Z :=
  match r with
  | O => 0
  | S r' => displacement total datasize n r' + chunk total datasize n (Z.of_nat r')
  end.

(** the partition formula at element granularity *)
Definition partition_formula (buffcount n rank : Z) : Z :=
  buffcount / n + (if rank <? buffcount mod n then 1 else 0).

(** sum of [f 0 .. f (n-1)] *)
Fixpoint sum_below (f : nat → Z) (n : nat) : Z :=
  match n with
  | O => 0
  | S n' => sum_below f n' + f n'
  end.

(** the [len] bytes found at offset [off] of a buffer *)
Definition slice (b : buffer) (off len : Z) : list byte :=
  take (Z.to_nat len) (drop (Z.to_nat off) b).


(** a [probe] that reported end of stream: positive return, size 0 *)
Definition is_eos (e : event) : bool :=
  match e with
  | EvProbe _ _ r s => (r >? 0) && (s =? 0)
  | _ => false
  end.

Definition handle_of (e : event) : nat :=
  match e with
  | EvProbe h _ _ _ | EvReceive h _ _ | EvSend h _ _ | EvClose h _ _ => h
  end.

(** the Handles that reported end of stream, in the order of the reports *)
Definition eos_handles (evs : list event) : list nat :=
  handle_of <$> filter (λ e, is_eos e = true) evs.

(** every end-of-stream report is directly followed by the full close of
    the Handle that made it *)
Fixpoint eos_closed (evs : list event) : Prop :=
  match evs with
  | [] => True
  | e :: rest =>
    (is_eos e = true → ∃ rest', rest = EvClose (handle_of e) true true :: rest')
    ∧ eos_closed rest
  end.

(** every [probe] in the list was a non-blocking one *)
Definition probes_nonblocking (evs : list event) : Prop :=
  Forall (λ e, match e with EvProbe _ b _ _ => b = false | _ => True end) evs.

(** no [send] in the list reported a failure *)
Definition sends_ok (evs : list event) : Prop :=
  Forall (λ e, match e with EvSend _ _ r => 0 ≤ r | _ => True end) evs.

(** *** The loop of [FanInGeneric::probe] *)


(** what is known of a loop of [probe] entered with [(c, res, size)] that
    made the calls [evs]: when it was left in [(c', res', size')], and when
    it is still running (then some participant has not reported end of
    stream yet) *)
Definition loop_post (c : FanInGeneric.t) (evs : list event)
    (out : option (FanInGeneric.t * Z * Z)) : Prop :=
  eos_closed evs ∧ probes_nonblocking evs ∧
  match out with
  | None => (length (eos_handles evs) < length (participants (FanInGeneric.base c)))%nat
  | Some (c', res', size') =>
      participants (FanInGeneric.base c') ++ eos_handles evs
        ≡ₚ participants (FanInGeneric.base c)
      ∧ (0 < res' → size' ≠ 0)
  end.

(** the calls [evs] are probes that go round [participants] from
    position [iter], one Handle after the other *)
Definition round_robin_from (c : FanInGeneric.t) (iter : nat) (evs : list event) : Prop :=
  ∀ j ev, evs !! j = Some ev →
    ∃ h r s,
      participants (FanInGeneric.base c)
        !! ((iter + j) mod length (participants (FanInGeneric.base c)))%nat = Some h
      ∧ ev = EvProbe h false r s.

Definition loop_spec {T} `{Transport T} (fuel : nat) (blocking : bool)
    (c : FanInGeneric.t) (res : Z) (iter : nat) (size : Z) (w : World T) : Prop :=
  ∃ out w' evs,
    FanInGeneric.probe_loop fuel blocking c res iter size w = Some (out, w')
    ∧ trace w' = trace w ++ evs
    ∧ loop_post c evs out
    ∧ (blocking = false →
       (length (participants (FanInGeneric.base c)) - iter ≤ fuel)%nat →
       is_Some out)
    ∧ (res = -1 → participants (FanInGeneric.base c) ≠ [] → fuel ≠ 0%nat →
       ∃ h r s rest,
         participants (FanInGeneric.base c) !! iter = Some h
         ∧ evs = EvProbe h false r s :: rest)
    ∧ (eos_handles evs = [] → round_robin_from c iter evs).

(** what is needed to enter the loop: the participants point to Handles,
    the iterator points into [participants], and [(res, size)] is not an
    end of stream *)
Definition loop_pre {T} (c : FanInGeneric.t) (res : Z) (iter : nat) (size : Z)
    (w : World T) : Prop :=
  (∀ h, h ∈ participants (FanInGeneric.base c) → is_Some (heap w !! h))
  ∧ (participants (FanInGeneric.base c) ≠ [] →
     (iter < length (participants (FanInGeneric.base c)))%nat)
  ∧ (0 < res → size ≠ 0).


(** ** Vocabulary of the properties of the whole interface *)

(** Between the worlds [w] and [w'] only the Handles at the addresses [S]
    were used: every other Handle is as it was, no Handle has left the
    heap, and every call made in between was made on a Handle of [S]. *)
Definition stays {T} (S : list nat) (w w' : World T) : Prop :=
  (∀ h, h ∉ S → heap w' !! h = heap w !! h)
  ∧ (∀ h, is_Some (heap w !! h) → is_Some (heap w' !! h))
  ∧ ∃ evs, trace w' = trace w ++ evs ∧ Forall (λ e, handle_of e ∈ S) evs.

(** a computation that, whenever it returns, has used the Handles of [S]
    only *)
Definition confined {T A} (S : list nat) (m : M T A) : Prop :=
  ∀ w a w', m w = Some (a, w') → stays S w w'.

(** the flags of a Handle, without the state of its transport *)
Definition flags {T} (hd : Handle T) : (bool * Z) * bool * bool :=
  (probed hd, closed_rd hd, closed_wr hd).

(** the calls made by the loop of the [close] methods *)
Definition closes_of (hs : list nat) : list event :=
  (λ h, EvClose h true false) <$> hs.

(** Second invariant of the Framing Helper on a Handle: a pending size of
    0 (an end of stream that was probed) is found only on a Handle that
    is read-closed. *)
Definition eos_marked {T} (hd : Handle T) : Prop :=
  fst (probed hd) = true → snd (probed hd) = 0 → closed_rd hd = true.

(** no call of the list is a [close] *)
Definition no_close (evs : list event) : Prop :=
  Forall (λ e, match e with EvClose _ _ _ => False | _ => True end) evs.

(** a caller that sends the messages [msgs] one after the other through
    a FanOut; gives the object and the values returned *)
Fixpoint FanOut_sends {T} `{Transport T} (c : FanOutGeneric.t) (msgs : list (list byte))
    : M T (FanOutGeneric.t * list Z) :=
  match msgs with
  | [] => ret (c, [])
  | m :: ms =>
    let* '(c, r) := FanOutGeneric.send c m in
    let* '(c, rs) := FanOut_sends c ms in
    ret (c, r :: rs)
  end.

(** What a loop of [FanInGeneric::probe] that ends on a positive result
    has done last: the last call before world [w'] was the probe that
    gave the result, made on the Handle at position [probed_idx], which
    is marked as probed with the size reported. *)
Definition probed_last {T} (c' : FanInGeneric.t) (res' size' : Z) (w w' : World T)
    : Prop :=
  ∃ h hd evs,
    0 ≤ FanInGeneric.probed_idx c'
    ∧ participants (FanInGeneric.base c') !! Z.to_nat (FanInGeneric.probed_idx c') = Some h
    ∧ heap w' !! h = Some hd ∧ probed hd = (true, size')
    ∧ trace w' = trace w ++ evs ++ [EvProbe h false res' size'].

(** The Handle [hd], idle and open, has a frame made of the bytes [d] on
    the way: a blocking probe announces [length d] bytes, not 0, and the
    receive of that many bytes that follows delivers [d]. *)
Definition delivers {T} `{Transport T} (hd : Handle T) (d : list byte) : Prop :=
  fst (probed hd) = false ∧ closed_rd hd = false ∧ d ≠ [] ∧
  let pr := (t_probe true (chan hd)).1 in
  let rr := (t_receive (Z.of_nat (length d)) (t_probe true (chan hd)).2).1 in
  0 < pr_ret pr ∧ pr_size pr = Some (Z.of_nat (length d))
  ∧ 0 < rr_ret rr ∧ rr_data rr = d.

(** the calls made to receive, one after the other, the frames [ds] from
    the Handles [hs] *)
Definition receives_of (hs : list nat) (evs : list event) : Prop :=
  ∃ groups, evs = concat groups ∧ length groups = length hs
    ∧ ∀ j g, groups !! j = Some g →
        ∃ h pret size rret, hs !! j = Some h
          ∧ g = [EvProbe h true pret size; EvReceive h size rret].

(** the number of [probe] calls in a list of calls *)
Definition is_probe (e : event) : bool :=
  match e with EvProbe _ _ _ _ => true | _ => false end.

Definition probes_in (evs : list event) : nat :=
  length (filter (λ e, is_probe e = true) evs).

(** what is left of a non-blocking loop of [FanInGeneric::probe] makes at
    most one probe for each participant from the iterator on *)
Definition bounded_from {T} (c : FanInGeneric.t) (iter : nat) (w w' : World T) : Prop :=
  ∃ evs, trace w' = trace w ++ evs
         ∧ (probes_in evs ≤ length (participants (FanInGeneric.base c)) - iter)%nat.

(** the frame [d] is on the way on [hd], and the receive that delivers it
    returns a value that fits an [int] *)
Definition delivers_int {T} `{Transport T} (hd : Handle T) (d : list byte) : Prop :=
  delivers hd d
  ∧ rr_ret (t_receive (Z.of_nat (length d)) (t_probe true (chan hd)).2).1 ≤ INT_MAX.

(** what rank [i] is due of the blocks [blocks], one block of [sendsize]
    bytes per rank in the order of the ranks: the share of rank [i] of
    every block *)
Definition routed (sendsize datasize n : Z) (blocks : list buffer) (i : nat)
    : list byte :=
  flat_map (λ B, slice B (displacement sendsize datasize n i)
                         (chunk sendsize datasize n (Z.of_nat i))) blocks.

(** [receiveFromHandle] called on the Handles [hs] one after the other,
    from the world [w] to the world [w'], the [j]-th call with the
    capacity [size_of (i + j)], until a call returns 0 or less: [runs]
    holds, for every call made, the value it returned and the calls of
    Handle methods it made.  An empty [runs] means that there was no
    Handle to receive from. *)
Fixpoint receive_runs {T} `{Transport T} (size_of : nat → Z) (i : nat)
    (hs : list nat) (w : World T) (runs : list (Z * list event)) (w' : World T)
    : Prop :=
  match hs, runs with
  | [], [] => w' = w
  | h :: hs', (r, g) :: runs' =>
    ∃ data w1,
      receiveFromHandle h (size_of i) w = Some ((r, data), w1)
      ∧ events_since w w1 = g
      ∧ (if r <=? 0 then runs' = [] ∧ w' = w1
         else receive_runs size_of (S i) hs' w1 runs' w')
  | _, _ => False
  end.
(** ** Concrete scenarios *)

(** a probe that read a header announcing [s] bytes *)
Definition header (s : Z) : probe_result := ProbeResult sizeof_size_t (Some s) None.

(** a probe that failed with an input/output error *)
Definition EIO : Z := 5.
Definition broken : probe_result := ProbeResult (-1) None (Some EIO).

Definition zeros (n : nat) : buffer := replicate n x00.

(** "hello" and "abcdefg" *)
Definition hello : list byte := [x68; x65; x6c; x6c; x6f].
Definition abcdefg : list byte := [x61; x62; x63; x64; x65; x66; x67].

(** Framing Helper: one Handle with a probed frame of 5 bytes, and one
    unprobed Handle on which a frame of 5 bytes is arriving *)
Definition pending5 : Handle Script :=
  mkHandle (true, 5) false false (mkScript [] [ReceiveResult 5 hello None] []).

Definition arriving5 : Handle Script :=
  fresh (mkScript [header 5] [ReceiveResult 5 hello None] []).

Definition framing_world : World Script := world_of [pending5; arriving5].

(** Scatter of "abcdefg" by the root of a group of three (scenario S2);
    in [scatter_world_reset] the send to the first peer fails *)
Definition scatter3 : ScatterGeneric.t :=
  ScatterGeneric.mk (CollectiveImpl.mk [0%nat; 1%nat] 3 (-1) 0) true.

Definition scatter_world : World Script :=
  world_of [fresh (mkScript [] [] []); fresh (mkScript [] [] [])].

Definition scatter_world_reset : World Script :=
  world_of [fresh (mkScript [] [] [SendResult (-1) (Some EBADF)]);
            fresh (mkScript [] [] [])].

(** FanIn at the root of a group of three: both peers have two frames on
    the way *)
Definition fanin3 : FanInGeneric.t :=
  FanInGeneric.mk (CollectiveImpl.mk [0%nat; 1%nat] 3 (-1) 0) (-1) true.

Definition fanin_world : World Script :=
  world_of [fresh (mkScript [header 5; header 6] [ReceiveResult 5 hello None] []);
            fresh (mkScript [header 7; header 9] [] [])].

(** FanIn whose two peers have closed: each probe reports end of stream *)
Definition fanin_world_eos : World Script :=
  world_of [fresh (mkScript [header 0] [] []); fresh (mkScript [header 0] [] [])].

(** FanOut over two Handles, the first of which reports end of stream *)
Definition fanout2 : FanOutGeneric.t :=
  FanOutGeneric.mk (CollectiveImpl.mk [0%nat; 1%nat] 3 (-1) 0) 0 true.

Definition fanout_world : World Script :=
  world_of [fresh (mkScript [header 0] [] []); fresh (mkScript [] [] [])].

Definition fanout_exhausted : FanOutGeneric.t :=
  FanOutGeneric.mk (CollectiveImpl.mk [] 3 (-1) 1) 0 false.

Definition fanin_exhausted : FanInGeneric.t :=
  FanInGeneric.mk (CollectiveImpl.mk [] 3 (-1) 0) (-1) true.

(** AllGather and Alltoall on rank 1 of a group of two, whose Handle to
    the root accepts the send and then fails the probe with [EIO] *)
Definition allgather_rank1 : AllGatherGeneric.t :=
  AllGatherGeneric.mk (CollectiveImpl.mk [0%nat] 2 (-1) 1) false.

Definition alltoall_rank1 : AlltoallGeneric.t :=
  AlltoallGeneric.mk (CollectiveImpl.mk [0%nat] 2 (-1) 1) false.

Definition broken_world : World Script :=
  world_of [fresh (mkScript [broken] [] [])].

(** a group of two whose buffer holds [2^33] elements *)
Definition pair_rank0 : CollectiveImpl.t := CollectiveImpl.mk [0%nat] 2 (-1) 0.

(** a group of three, rank 0 *)
Definition triple_rank0 : CollectiveImpl.t := CollectiveImpl.mk [0%nat; 1%nat] 3 (-1) 0.


(** Broadcast of "hello" by the root of a group of three (scenario S1) *)
Definition broadcast3 : BroadcastGeneric.t := BroadcastGeneric.mk triple_rank0 true.

(** rank 1 of a group of two, whose only Handle (at address 1 of
    [framing_world]) leads to the root *)
Definition pair_rank1 : CollectiveImpl.t := CollectiveImpl.mk [1%nat] 2 (-1) 1.

(** the same rank with its Handle at address 0 *)
Definition pair_rank1_first : CollectiveImpl.t := CollectiveImpl.mk [0%nat] 2 (-1) 1.

Definition fanin_rank1 : FanInGeneric.t := FanInGeneric.mk pair_rank1_first (-1) false.

Definition fanout_rank1 : FanOutGeneric.t := FanOutGeneric.mk pair_rank1 0 false.

Definition gather_rank1 : GatherGeneric.t := GatherGeneric.mk pair_rank1_first false.

(** Gather and AllGather of 7 bytes at the root of a group of three
    (shares of 3, 2 and 2 bytes): the two peers have "de" and "fg" on the
    way *)
Definition gather3 : GatherGeneric.t := GatherGeneric.mk triple_rank0 true.

Definition allgather3 : AllGatherGeneric.t := AllGatherGeneric.mk triple_rank0 true.

Definition de : list byte := [x64; x65].
Definition fg : list byte := [x66; x67].

Definition sending (d : list byte) : Handle Script :=
  fresh (mkScript [header (Z.of_nat (length d))]
                  [ReceiveResult (Z.of_nat (length d)) d None] []).

Definition gather_world : World Script := world_of [sending de; sending fg].

(** a Handle whose transport reports [2^31] bytes sent *)
Definition huge_world : World Script :=
  world_of [fresh (mkScript [] [] [SendResult (2 ^ 31) None]);
            fresh (mkScript [] [] [])].

(** Alltoall of 3 bytes at the root of a group of three (shares of one
    byte): the two peers have "def" and "ghi" on the way *)
Definition alltoall3 : AlltoallGeneric.t := AlltoallGeneric.mk triple_rank0 true.

Definition def : list byte := [x64; x65; x66].
Definition ghi : list byte := [x67; x68; x69].

Definition alltoall_world : World Script := world_of [sending def; sending ghi].

(** the same, with a first peer whose [receive] reports [2^31] bytes *)
Definition alltoall_world_huge : World Script :=
  world_of [fresh (mkScript [header 3] [ReceiveResult (2 ^ 31) def None] []);
            sending ghi].
(** * Properties *)

(** ** Running the Handle methods *)

Section HandleFacts.
Context {T : Type} `{Transport T}.
Implicit Types (w : World T) (hd : Handle T).

Lemma events_since_refl w : events_since w w = [].
Proof. unfold events_since. apply drop_all. Qed.

Lemma events_since_app w evs h e :
  events_since w (mkWorld h e (trace w ++ evs)) = evs.
Proof. unfold events_since; simpl. by rewrite drop_app_length. Qed.

Lemma events_since_same_trace w h e :
  events_since w (mkWorld h e (trace w)) = [].
Proof. unfold events_since; simpl. apply drop_all. Qed.

Lemma run_deref w h hd :
  heap w !! h = Some hd → deref h w = Some (hd, w).
Proof. intros E. unfold deref. by rewrite E. Qed.

Lemma run_Handle_probe w h hd size blocking :
  heap w !! h = Some hd →
  Handle_probe h size blocking w =
    let r := (t_probe blocking (chan hd)).1 in
    let size' := default size (pr_size r) in
    Some ((pr_ret r, size'),
          mkWorld (<[h := mkHandle (probed hd) (closed_rd hd) (closed_wr hd)
                                   (t_probe blocking (chan hd)).2]> (heap w))
                  (default (errno w) (pr_errno r))
                  (trace w ++ [EvProbe h blocking (pr_ret r) size'])).
Proof.
  intros E. unfold Handle_probe, bind. rewrite (run_deref _ _ _ E).
  destruct (t_probe blocking (chan hd)) as [r t'] eqn:Ep. simpl.
  destruct (pr_errno r); reflexivity.
Qed.

Lemma run_Handle_receive w h hd cap :
  heap w !! h = Some hd →
  Handle_receive h cap w =
    let r := (t_receive cap (chan hd)).1 in
    Some ((rr_ret r, take (Z.to_nat cap) (rr_data r)),
          mkWorld (<[h := mkHandle (probed hd) (closed_rd hd) (closed_wr hd)
                                   (t_receive cap (chan hd)).2]> (heap w))
                  (default (errno w) (rr_errno r))
                  (trace w ++ [EvReceive h cap (rr_ret r)])).
Proof.
  intros E. unfold Handle_receive, bind. rewrite (run_deref _ _ _ E).
  destruct (t_receive cap (chan hd)) as [r t'] eqn:Ep. simpl.
  destruct (rr_errno r); reflexivity.
Qed.

Lemma run_Handle_send w h hd data :
  heap w !! h = Some hd →
  Handle_send h data w =
    let r := (t_send data (chan hd)).1 in
    Some (sr_ret r,
          mkWorld (<[h := mkHandle (probed hd) (closed_rd hd) (closed_wr hd)
                                   (t_send data (chan hd)).2]> (heap w))
                  (default (errno w) (sr_errno r))
                  (trace w ++ [EvSend h data (sr_ret r)])).
Proof.
  intros E. unfold Handle_send, bind. rewrite (run_deref _ _ _ E).
  destruct (t_send data (chan hd)) as [r t'] eqn:Ep. simpl.
  destruct (sr_errno r); reflexivity.
Qed.

Lemma run_Handle_close w h hd wr rd :
  heap w !! h = Some hd →
  Handle_close h wr rd w =
    Some (tt, mkWorld (<[h := mkHandle (probed hd) (closed_rd hd || rd)
                                       (closed_wr hd || wr)
                                       (t_close wr rd (chan hd))]> (heap w))
                      (errno w) (trace w ++ [EvClose h wr rd])).
Proof.
  intros E. unfold Handle_close, bind. by rewrite (run_deref _ _ _ E).
Qed.

Lemma run_set_probed w h hd p :
  heap w !! h = Some hd →
  set_probed h p w =
    Some (tt, mkWorld (<[h := mkHandle p (closed_rd hd) (closed_wr hd) (chan hd)]> (heap w))
                      (errno w) (trace w)).
Proof.
  intros E. unfold set_probed, bind. by rewrite (run_deref _ _ _ E).
Qed.

End HandleFacts.

(** ** The Framing Helper *)

Section FramingFacts.
Context {T : Type} `{Transport T}.
Implicit Types (w : World T) (hd : Handle T).

Ltac lookup_heap :=
  simpl; first [ eassumption | apply lookup_insert_eq ].

(** one step of symbolic execution of a monadic program *)
Ltac run1 :=
  try unfold bind at 1;
  first
    [ erewrite run_deref by lookup_heap
    | erewrite run_Handle_probe by lookup_heap
    | erewrite run_Handle_receive by lookup_heap
    | erewrite run_Handle_send by lookup_heap
    | erewrite run_Handle_close by lookup_heap
    | erewrite run_set_probed by lookup_heap ];
  cbn [ret set_errno get_errno fst snd heap errno trace probed closed_rd closed_wr chan].

Lemma run_probeHandle_probed w h hd s size blocking :
  heap w !! h = Some hd → probed hd = (true, s) →
  probeHandle h size blocking w =
    Some ((if s =? 0 then 0 else sizeof_size_t, s), w).
Proof.
  intros E P. unfold probeHandle. run1. by rewrite P.
Qed.

Lemma run_probeHandle_closed w h hd size blocking :
  heap w !! h = Some hd → fst (probed hd) = false → closed_rd hd = true →
  probeHandle h size blocking w = Some ((0, size), w).
Proof.
  intros E P C. unfold probeHandle. run1. by rewrite P, C.
Qed.

Lemma run_probeHandle_times w h hd s n size blocking :
  heap w !! h = Some hd → probed hd = (true, s) →
  probeHandle_times n h size blocking w =
    Some (replicate n (if s =? 0 then 0 else sizeof_size_t, s), w).
Proof.
  intros E P. revert size. induction n as [|n IH]; intros size; [done|].
  cbn [probeHandle_times]. unfold bind at 1.
  rewrite (run_probeHandle_probed _ _ _ _ _ _ E P).
  unfold bind at 1. cbn [snd]. by rewrite IH.
Qed.

(** What [probeHandle] does on a Handle that is neither probed nor
    read-closed: it calls [probe] once; a positive answer with a positive
    size is cached, everything else ends in a value [<= 0] after at most
    one [close]. *)
Lemma probeHandle_unprobed w h hd size blocking :
  heap w !! h = Some hd → fst (probed hd) = false → closed_rd hd = false →
  let pr := (t_probe blocking (chan hd)).1 in
  let t' := (t_probe blocking (chan hd)).2 in
  let s := default size (pr_size pr) in
  let ev := EvProbe h blocking (pr_ret pr) s in
  ∃ r w', probeHandle h size blocking w = Some ((r, s), w') ∧
    ((0 < pr_ret pr ∧ s ≠ 0 ∧ r = pr_ret pr ∧
      w' = mkWorld (<[h := mkHandle (true, s) false (closed_wr hd) t']> (heap w))
                   (default (errno w) (pr_errno pr)) (trace w ++ [ev]))
     ∨ ((pr_ret pr ≤ 0 ∨ s = 0) ∧ r ≤ 0 ∧ ∃ hp e' evs,
          w' = mkWorld hp e' (trace w ++ ev :: evs) ∧
          (∃ hd', hp !! h = Some hd' ∧
                  (fst (probed hd') = false ∨ snd (probed hd') = 0)) ∧
          (evs = [] ∨ ∃ wr, evs = [EvClose h wr true]))).
Proof.
  intros E P C pr t' s ev. unfold probeHandle. run1. rewrite P, C.
  run1. fold pr t' s ev.
  destruct (pr_ret pr <=? 0) eqn:Hle.
  - apply Z.leb_le in Hle.
    destruct (pr_ret pr =? 0) eqn:H0.
    + run1. eexists _, _. split; [reflexivity|]. right. split; [lia|]. split; [lia|].
      eexists _, _, _. split; [rewrite <- app_assoc; reflexivity|]. split; [eexists; split; [apply lookup_insert_eq|cbn [probed fst snd]; first [by left | right; lia]]|]. right. by eexists.
    + destruct (pr_ret pr =? -1) eqn:H1.
      * unfold bind at 1. cbn [get_errno errno].
        destruct (_ =? ECONNRESET) eqn:He.
        -- run1. eexists _, _. split; [reflexivity|]. right. split; [lia|]. split; [lia|].
           eexists _, _, _. split; [rewrite <- app_assoc; reflexivity|]. split; [eexists; split; [apply lookup_insert_eq|cbn [probed fst snd]; first [by left | right; lia]]|]. right. by eexists.
        -- destruct (_ || _).
           ++ unfold bind at 1. cbn [set_errno ret heap trace].
              eexists _, _. split; [reflexivity|]. right. split; [lia|]. split; [lia|].
              eexists _, _, _. split; [reflexivity|]. split; [eexists; split; [apply lookup_insert_eq|cbn [probed fst snd]; first [by left | right; lia]]|]. by left.
           ++ cbn [ret]. eexists _, _. split; [reflexivity|]. right. split; [lia|]. split; [lia|].
              eexists _, _, _. split; [reflexivity|]. split; [eexists; split; [apply lookup_insert_eq|cbn [probed fst snd]; first [by left | right; lia]]|]. by left.
      * cbn [ret]. eexists _, _. split; [reflexivity|]. right. split; [lia|]. split; [lia|].
        eexists _, _, _. split; [reflexivity|]. split; [eexists; split; [apply lookup_insert_eq|cbn [probed fst snd]; first [by left | right; lia]]|]. by left.
  - apply Z.leb_gt in Hle. run1.
    destruct (s =? 0) eqn:Hs.
    + run1. eexists _, _. split; [reflexivity|]. right. split; [lia|]. split; [lia|].
      eexists _, _, _. split; [rewrite <- app_assoc; reflexivity|]. split; [eexists; split; [apply lookup_insert_eq|cbn [probed fst snd]; first [by left | right; lia]]|]. right. by eexists.
    + apply Z.eqb_neq in Hs. eexists _, _. split; [reflexivity|]. left.
      split_and!; try done. by rewrite insert_insert_eq, C.
Qed.

(** The part of [receiveFromHandle] after the probing: the size check and
    the receive. *)
Lemma run_receiveFromHandle_probed w h hd s cap :
  heap w !! h = Some hd → probed hd = (true, s) → closed_rd hd = false →
  receiveFromHandle h cap w =
    if s >? cap then Some ((-1, []), mkWorld (heap w) ENOMEM (trace w))
    else
      let rr := (t_receive (Z.min s cap) (chan hd)).1 in
      Some ((rr_ret rr, take (Z.to_nat (Z.min s cap)) (rr_data rr)),
            mkWorld (<[h := mkHandle (false, 0) false (closed_wr hd)
                                     (t_receive (Z.min s cap) (chan hd)).2]> (heap w))
                    (default (errno w) (rr_errno rr))
                    (trace w ++ [EvReceive h (Z.min s cap) (rr_ret rr)])).
Proof.
  intros E P C. unfold receiveFromHandle. run1. rewrite P, C. cbn [negb fst].
  run1. rewrite P. cbn [snd].
  destruct (s >? cap); [done|].
  run1. run1. by rewrite insert_insert_eq, C.
Qed.

Lemma run_receiveFromHandle_unprobed w h hd cap :
  heap w !! h = Some hd → fst (probed hd) = false →
  receiveFromHandle h cap w =
    match probeHandle h 0 true w with
    | Some ((r, _), w1) =>
        if r <=? 0 then Some ((r, []), w1) else receiveFromHandle h cap w1
    | None => None
    end.
Proof.
  intros E P. unfold receiveFromHandle at 1. run1. rewrite P. cbn [negb].
  unfold bind at 1.
  destruct (decide (closed_rd hd = true)) as [C|C].
  - rewrite (run_probeHandle_closed _ _ _ _ _ E P C). reflexivity.
  - apply not_true_is_false in C.
    destruct (probeHandle_unprobed w h hd 0 true E P C) as (r & w1 & -> & Hcase).
    destruct Hcase as [(Hpos & Hs & -> & ->)|(_ & Hle & _)].
    + destruct (_ <=? 0) eqn:Hle; [apply Z.leb_le in Hle; lia|].
      erewrite (run_receiveFromHandle_probed _ h) by (first [apply lookup_insert_eq | reflexivity]).
      run1. cbn [heap errno trace closed_wr chan].
      destruct (_ >? cap); [reflexivity|].
      run1. run1. by rewrite insert_insert_eq.
    + by destruct (r <=? 0) eqn:Hle'; [|apply Z.leb_gt in Hle'; lia].
Qed.

Lemma run_receiveFromHandle_probed_closed w h hd s cap :
  heap w !! h = Some hd → probed hd = (true, s) → closed_rd hd = true →
  receiveFromHandle h cap w = Some ((0, []), w).
Proof.
  intros E P C. unfold receiveFromHandle. run1. by rewrite P, C.
Qed.

Ltac no_receive H :=
  repeat (apply elem_of_cons in H as [H|H]; [discriminate H|]);
  by apply elem_of_nil in H.

(** A call that reaches [receive] leaves the Handle unprobed. *)
Lemma receiveFromHandle_clears w h hd cap r data w' :
  heap w !! h = Some hd →
  receiveFromHandle h cap w = Some ((r, data), w') →
  (∃ c ret, EvReceive h c ret ∈ events_since w w') →
  ∃ hd', heap w' !! h = Some hd' ∧ probed hd' = (false, 0).
Proof.
  intros E Hrun (c & ret & Hin).
  destruct (probed hd) as [[|] s] eqn:P.
  - destruct (closed_rd hd) eqn:C.
    + rewrite (run_receiveFromHandle_probed_closed _ _ _ _ _ E P C) in Hrun.
      injection Hrun as <- <- <-. rewrite events_since_refl in Hin. no_receive Hin.
    + rewrite (run_receiveFromHandle_probed _ _ _ _ _ E P C) in Hrun.
      destruct (s >? cap); injection Hrun as <- <- <-.
      * rewrite events_since_same_trace in Hin. no_receive Hin.
      * eexists. split; [apply lookup_insert_eq|done].
  - assert (fst (probed hd) = false) as P' by (by rewrite P).
    rewrite (run_receiveFromHandle_unprobed _ _ _ _ E P') in Hrun.
    destruct (closed_rd hd) eqn:C.
    + rewrite (run_probeHandle_closed _ _ _ _ _ E P' C) in Hrun.
      injection Hrun as <- <- <-. rewrite events_since_refl in Hin. no_receive Hin.
    + destruct (probeHandle_unprobed w h hd 0 true E P' C) as (r1 & w1 & Hp & Hcase).
      rewrite Hp in Hrun.
      destruct Hcase as [(Hpos & Hs & -> & ->)|(_ & Hle & hp & e' & evs & -> & Hhp & Hevs)].
      * destruct (_ <=? 0) eqn:Hle; [apply Z.leb_le in Hle; lia|].
        erewrite (run_receiveFromHandle_probed _ h) in Hrun
          by (first [apply lookup_insert_eq | reflexivity]).
        cbn [heap errno trace closed_wr chan] in Hrun.
        destruct (_ >? cap); injection Hrun as <- <- <-.
        -- rewrite events_since_app in Hin. no_receive Hin.
        -- eexists. split; [apply lookup_insert_eq|done].
      * destruct (r1 <=? 0) eqn:Hle'; [|apply Z.leb_gt in Hle'; lia].
        injection Hrun as <- <- <-. rewrite events_since_app in Hin.
        destruct Hevs as [->|[wr ->]]; no_receive Hin.
Qed.

(** On an unprobed Handle a receive starts with a blocking [probe], unless
    the Handle is read-closed, in which case it reports end of stream and
    does nothing. *)
Lemma receiveFromHandle_probes_first w h hd cap :
  heap w !! h = Some hd → fst (probed hd) = false →
  ∃ r data w', receiveFromHandle h cap w = Some ((r, data), w') ∧
    ((r = 0 ∧ w' = w) ∨
     ∃ ret sz rest, events_since w w' = EvProbe h true ret sz :: rest).
Proof.
  intros E P. rewrite (run_receiveFromHandle_unprobed _ _ _ _ E P).
  destruct (closed_rd hd) eqn:C.
  - rewrite (run_probeHandle_closed _ _ _ _ _ E P C). cbn.
    eexists _, _, _. split; [reflexivity|]. by left.
  - destruct (probeHandle_unprobed w h hd 0 true E P C) as (r1 & w1 & -> & Hcase).
    destruct Hcase as [(Hpos & Hs & -> & ->)|(_ & Hle & hp & e' & evs & -> & Hhp & Hevs)].
    + destruct (_ <=? 0) eqn:Hle; [apply Z.leb_le in Hle; lia|].
      erewrite (run_receiveFromHandle_probed _ h)
        by (first [apply lookup_insert_eq | reflexivity]).
      cbn [heap errno trace closed_wr chan].
      destruct (_ >? cap); eexists _, _, _; (split; [reflexivity|]); right.
      * rewrite events_since_app. by eexists _, _, _.
      * rewrite <- app_assoc, events_since_app. by eexists _, _, _.
    + destruct (r1 <=? 0) eqn:Hle'; [|apply Z.leb_gt in Hle'; lia].
      eexists _, _, _; (split; [reflexivity|]); right.
      rewrite events_since_app. by eexists _, _, _.
Qed.

(** C5. Probed-state discipline of the Framing Helper.  On a Handle whose
    probed state is (pending, [s]), any number of successive [probeHandle]
    calls report the size [s] (with the header-read indicator as returned
    value, 0 when [s] is 0) and give back the world as it was: no method of
    the Handle is called and the probed state is unchanged.  And whenever a
    [receiveFromHandle] gets as far as calling [receive], it leaves the
    probed state at [(false, 0)], so that the next [receiveFromHandle]
    either starts with a new blocking [probe] or, the Handle being
    read-closed, does nothing and reports end of stream. *)
Theorem probed_state_discipline w h hd :
  heap w !! h = Some hd →
  (∀ s, probed hd = (true, s) → ∀ n size blocking,
     probeHandle_times n h size blocking w =
       Some (replicate n (if s =? 0 then 0 else sizeof_size_t, s), w))
  ∧ (∀ cap r data w',
       receiveFromHandle h cap w = Some ((r, data), w') →
       (∃ c ret, EvReceive h c ret ∈ events_since w w') →
       (∃ hd', heap w' !! h = Some hd' ∧ probed hd' = (false, 0)) ∧
       ∀ cap2, ∃ r2 d2 w'',
         receiveFromHandle h cap2 w' = Some ((r2, d2), w'') ∧
         ((r2 = 0 ∧ w'' = w') ∨
          ∃ ret sz rest, events_since w' w'' = EvProbe h true ret sz :: rest)).
Proof.
  intros E. split.
  - intros s P n size blocking. by apply (run_probeHandle_times w h hd).
  - intros cap r data w' Hrun Hrecv.
    destruct (receiveFromHandle_clears _ _ _ _ _ _ _ E Hrun Hrecv) as (hd' & E' & P').
    split; [by exists hd'|].
    intros cap2. apply (receiveFromHandle_probes_first w' h hd'); [done|by rewrite P'].
Qed.

(** The Framing Helper keeps [pending_open]: a Handle as constructed
    satisfies it, and [probeHandle] and [receiveFromHandle] preserve it. *)
Lemma pending_open_fresh (t : T) : pending_open (mkHandle (false, 0) false false t).
Proof. by intros ? ?. Qed.

Lemma probeHandle_pending_open w h hd size blocking r w' :
  heap w !! h = Some hd → pending_open hd →
  probeHandle h size blocking w = Some (r, w') →
  ∃ hd', heap w' !! h = Some hd' ∧ pending_open hd'.
Proof.
  intros E Hinv Hrun. destruct (probed hd) as [[|] s] eqn:P.
  - rewrite (run_probeHandle_probed _ _ _ _ _ _ E P) in Hrun.
    injection Hrun as <- <-. by exists hd.
  - assert (fst (probed hd) = false) as P' by (by rewrite P).
    destruct (closed_rd hd) eqn:C.
    + rewrite (run_probeHandle_closed _ _ _ _ _ E P' C) in Hrun.
      injection Hrun as <- <-. by exists hd.
    + destruct (probeHandle_unprobed w h hd size blocking E P' C) as (r1 & w1 & Hp & Hcase).
      rewrite Hp in Hrun. injection Hrun as <- <-.
      destruct Hcase as [(_ & _ & _ & ->)|(_ & _ & hp & e' & evs & -> & (hd' & Hhd' & Hfree) & _)].
      * eexists. split; [apply lookup_insert_eq|]. by intros ? ?.
      * exists hd'. split; [done|]. intros Hp1 Hp2. destruct Hfree; congruence.
Qed.

Lemma receiveFromHandle_pending_open_probed w h hd s cap r w' :
  heap w !! h = Some hd → probed hd = (true, s) →
  receiveFromHandle h cap w = Some (r, w') →
  pending_open hd →
  ∃ hd', heap w' !! h = Some hd' ∧ pending_open hd'.
Proof.
  intros E P Hrun Hinv. destruct (closed_rd hd) eqn:C.
  - rewrite (run_receiveFromHandle_probed_closed _ _ _ _ _ E P C) in Hrun.
    injection Hrun as <- <-. by exists hd.
  - rewrite (run_receiveFromHandle_probed _ _ _ _ _ E P C) in Hrun.
    destruct (s >? cap); injection Hrun as <- <-.
    + by exists hd.
    + eexists. split; [apply lookup_insert_eq|]. by intros ? ?.
Qed.

Lemma receiveFromHandle_pending_open w h hd cap r w' :
  heap w !! h = Some hd → pending_open hd →
  receiveFromHandle h cap w = Some (r, w') →
  ∃ hd', heap w' !! h = Some hd' ∧ pending_open hd'.
Proof.
  intros E Hinv Hrun. destruct (probed hd) as [[|] s] eqn:P.
  - by eapply receiveFromHandle_pending_open_probed.
  - assert (fst (probed hd) = false) as P' by (by rewrite P).
    rewrite (run_receiveFromHandle_unprobed _ _ _ _ E P') in Hrun.
    destruct (closed_rd hd) eqn:C.
    + rewrite (run_probeHandle_closed _ _ _ _ _ E P' C) in Hrun.
      injection Hrun as <- <-. by exists hd.
    + destruct (probeHandle_unprobed w h hd 0 true E P' C) as (r1 & w1 & Hp & Hcase).
      rewrite Hp in Hrun.
      destruct Hcase as [(Hpos & _ & -> & ->)
                        |(_ & Hle & hp & e' & evs & -> & (hd' & Hhd' & Hfree) & _)].
      * destruct (_ <=? 0) eqn:Hle; [apply Z.leb_le in Hle; lia|].
        lazymatch type of Hrun with
        | receiveFromHandle _ _ ?w1 = _ =>
            apply (receiveFromHandle_pending_open_probed w1 h _ _ cap r w'
                     (lookup_insert_eq _ _ _) eq_refl Hrun)
        end.
        by intros ? ?.
      * destruct (r1 <=? 0) eqn:Hle'; [|apply Z.leb_gt in Hle'; lia].
        injection Hrun as <- <-. exists hd'. split; [done|].
        intros Hp1 Hp2. destruct Hfree; congruence.
Qed.

(** C6. Buffer too small.  On a Handle whose probed size [s] exceeds the
    capacity [cap] (the Handle being in a state that the Framing Helper
    produces: not read-closed while a frame is pending),
    [receiveFromHandle] returns -1 with [ENOMEM] and changes nothing else:
    no method of the Handle is called and the probed state stays
    (pending, [s]); a retry with a capacity [cap' >= s] then calls
    [receive] for the [s] bytes of the frame.  The same holds when the
    size [s] is learnt by the probe that [receiveFromHandle] makes itself
    on an unprobed Handle: only that probe is called, and [s] stays
    pending for the retry. *)
Theorem receive_buffer_too_small w h hd s cap :
  heap w !! h = Some hd → 0 ≤ cap < s →
  (probed hd = (true, s) → pending_open hd →
     let w1 := mkWorld (heap w) ENOMEM (trace w) in
     receiveFromHandle h cap w = Some ((-1, []), w1)
     ∧ ∀ cap', s ≤ cap' →
         let rr := (t_receive s (chan hd)).1 in
         receiveFromHandle h cap' w1 =
           Some ((rr_ret rr, take (Z.to_nat s) (rr_data rr)),
                 mkWorld (<[h := mkHandle (false, 0) false (closed_wr hd)
                                          (t_receive s (chan hd)).2]> (heap w))
                         (default ENOMEM (rr_errno rr))
                         (trace w ++ [EvReceive h s (rr_ret rr)])))
  ∧ (fst (probed hd) = false → closed_rd hd = false →
     let pr := (t_probe true (chan hd)).1 in
     0 < pr_ret pr → pr_size pr = Some s →
     let hd1 := mkHandle (true, s) false (closed_wr hd) (t_probe true (chan hd)).2 in
     let w1 := mkWorld (<[h := hd1]> (heap w)) ENOMEM
                       (trace w ++ [EvProbe h true (pr_ret pr) s]) in
     receiveFromHandle h cap w = Some ((-1, []), w1)
     ∧ ∀ cap', s ≤ cap' →
         let rr := (t_receive s (chan hd1)).1 in
         receiveFromHandle h cap' w1 =
           Some ((rr_ret rr, take (Z.to_nat s) (rr_data rr)),
                 mkWorld (<[h := mkHandle (false, 0) false (closed_wr hd)
                                          (t_receive s (chan hd1)).2]> (heap w))
                         (default ENOMEM (rr_errno rr))
                         (trace w1 ++ [EvReceive h s (rr_ret rr)]))).
Proof.
  intros E Hlt. split.
  - intros P Hinv w1.
    assert (closed_rd hd = false) as C by (apply Hinv; rewrite P; cbn; [done|lia]).
    split.
    + rewrite (run_receiveFromHandle_probed _ _ _ _ _ E P C).
      by destruct (Z.gtb_spec s cap); [|lia].
    + intros cap' Hle rr.
      rewrite (run_receiveFromHandle_probed w1 h hd s cap' E P C).
      destruct (Z.gtb_spec s cap'); [lia|].
      by rewrite Z.min_l by done.
  - intros P C pr Hpos Hsz hd1 w1.
    destruct (probeHandle_unprobed w h hd 0 true E P C) as (r1 & w2 & Hp & Hcase).
    fold pr in Hcase, Hp. rewrite Hsz in Hcase, Hp. cbn [default from_option id] in Hcase, Hp. unfold id in Hcase, Hp.
    destruct Hcase as [(_ & Hs & -> & ->)|(Hno & _)]; [|lia].
    split.
    + rewrite (run_receiveFromHandle_unprobed _ _ _ _ E P), Hp.
      destruct (_ <=? 0) eqn:Hle; [apply Z.leb_le in Hle; lia|].
      erewrite (run_receiveFromHandle_probed _ h)
        by (first [apply lookup_insert_eq | reflexivity]).
      cbn [heap errno trace closed_wr chan].
      by destruct (Z.gtb_spec s cap); [|lia].
    + intros cap' Hle rr.
      erewrite (run_receiveFromHandle_probed _ h)
        by (first [apply lookup_insert_eq | reflexivity]).
      cbn [heap errno trace closed_wr chan].
      destruct (Z.gtb_spec s cap'); [lia|].
      rewrite Z.min_l by done. subst w1 hd1 rr. cbn [heap errno closed_wr].
      by rewrite insert_insert_eq.
Qed.

End FramingFacts.

(** ** FanOut *)

Section FanOutFacts.
Context {T : Type} `{Transport T}.
Implicit Types (w : World T) (hd : Handle T).

Lemma run_at_ {A} (v : list A) (i : Z) (x : A) w :
  v !! Z.to_nat i = Some x → at_ v i w = Some (x, w).
Proof. intros E. unfold at_. by rewrite E. Qed.

(** What [FanOutGeneric::probe] does when the probe of [participants[0]]
    reports end of stream: the probed Handle is closed, and the Handle
    taken out of [participants] is the last one. *)
Lemma FanOut_probe_eos (c : FanOutGeneric.t) size blocking w h0 rest hd :
  participants (FanOutGeneric.base c) = h0 :: rest →
  heap w !! h0 = Some hd →
  let pr := (t_probe blocking (chan hd)).1 in
  0 < pr_ret pr → default size (pr_size pr) = 0 →
  ∃ w', FanOutGeneric.probe c size blocking w =
      Some ((FanOutGeneric.with_participants c (FanOutGeneric.pop_back (h0 :: rest)),
             pr_ret pr, 0), w')
    ∧ heap w' = <[h0 := mkHandle (true, 0) true true
                           (t_close true true (t_probe blocking (chan hd)).2)]> (heap w)
    ∧ events_since w w' = [EvProbe h0 blocking (pr_ret pr) 0; EvClose h0 true true].
Proof.
  intros Hp E pr Hpos Hsz. unfold FanOutGeneric.probe. rewrite Hp.
  rewrite bool_decide_eq_false_2 by done.
  unfold bind at 1. rewrite (run_at_ _ 0 h0) by done.
  unfold bind at 1. rewrite (run_Handle_probe _ _ _ _ _ E).
  cbn zeta. fold pr. rewrite Hsz.
  destruct (pr_ret pr >? 0) eqn:Hgt; [|lia]. cbn [andb Z.eqb].
  unfold bind at 1. unfold bind at 1.
  erewrite run_Handle_close by (simpl; apply lookup_insert_eq).
  cbn [ret heap errno trace probed closed_rd closed_wr chan orb].
  unfold bind at 1.
  erewrite run_set_probed by (simpl; apply lookup_insert_eq).
  cbn [ret heap errno trace probed closed_rd closed_wr chan orb].
  eexists. split; [reflexivity|]. cbn [heap]. split.
  - rewrite !insert_insert_eq. by rewrite !orb_true_r.
  - rewrite <- app_assoc. apply events_since_app.
Qed.

(** C10. A FanOut [probe] on an empty [participants] returns -1 with
    [ECONNRESET] and calls no method of any Handle (the world is otherwise
    unchanged), whereas a FanIn [probe] on an empty [participants] returns
    the synthetic group end of stream: [size = 0] with the positive
    header-read indicator. *)
Theorem FanOut_probe_exhausted (c : FanOutGeneric.t) size blocking w :
  participants (FanOutGeneric.base c) = [] →
  FanOutGeneric.probe c size blocking w =
    Some ((c, -1, size), mkWorld (heap w) ECONNRESET (trace w))
  ∧ ∀ (ci : FanInGeneric.t) fuel,
      participants (FanInGeneric.base ci) = [] →
      FanInGeneric.probe fuel ci size blocking w =
        Some (Some (ci, sizeof_size_t, 0), w).
Proof.
  intros Hp. split.
  - unfold FanOutGeneric.probe. rewrite Hp. reflexivity.
  - intros ci fuel Hi. unfold FanInGeneric.probe. unfold bind at 1.
    destruct fuel; cbn [FanInGeneric.probe_loop]; rewrite Hi; cbn; rewrite Hi; reflexivity.
Qed.

End FanOutFacts.

(** ** Partition arithmetic *)

Section PartitionFacts.

Lemma to_int_small x : - 2 ^ 31 ≤ x ≤ INT_MAX → to_int x = x.
Proof.
  unfold INT_MAX, to_int. intros Hx.
  destruct (Z.ltb_spec (x mod 2 ^ 32) (2 ^ 31)) as [Hlt|Hge].
  - destruct (Z.le_gt_cases 0 x) as [Hp|Hn].
    + apply Z.mod_small. lia.
    + exfalso. rewrite <- (Z.mod_add x 1) in Hlt by lia.
      rewrite Z.mod_small in Hlt; lia.
  - destruct (Z.le_gt_cases 0 x) as [Hp|Hn].
    + rewrite Z.mod_small in Hge; lia.
    + rewrite <- (Z.mod_add x 1) by lia. rewrite Z.mod_small; lia.
Qed.

Lemma wrap64_small x : 0 ≤ x ≤ SIZE_MAX → wrap64 x = x.
Proof. unfold wrap64, SIZE_MAX. intros Hx. apply Z.mod_small. lia. Qed.

Lemma to_ssize_small x : 0 ≤ x ≤ SSIZE_MAX → to_ssize x = x.
Proof.
  unfold to_ssize, SSIZE_MAX. intros Hx. rewrite Z.mod_small by lia.
  destruct (Z.ltb_spec x (2 ^ 63)); lia.
Qed.

(** the first [m] shares of the partition formula *)
Lemma sum_partition_formula buffcount n (m : nat) :
  0 ≤ buffcount mod n →
  sum_below (λ r, partition_formula buffcount n (Z.of_nat r)) m =
    Z.of_nat m * (buffcount / n) + Z.min (Z.of_nat m) (buffcount mod n).
Proof.
  intros Hr. induction m as [|m IH]; [cbn; lia|].
  cbn [sum_below]. rewrite IH. unfold partition_formula.
  destruct (Z.ltb_spec (Z.of_nat m) (buffcount mod n)); lia.
Qed.

(** C7 as amended.  Whenever [buffcount / nparticipants + 1] and
    [buffcount mod nparticipants] are representable as [int], the result of
    [getTeamPartitionSize(buffcount)] for a rank in [0, nparticipants) is
    [buffcount / nparticipants], plus 1 exactly when
    [rank < buffcount mod nparticipants]; and these shares, taken over all
    the ranks, sum to [buffcount]. *)
Theorem getTeamPartitionSize_formula (c : CollectiveImpl.t) buffcount :
  1 ≤ nparticipants c → 0 ≤ buffcount → 0 ≤ rank c < nparticipants c →
  buffcount / nparticipants c + 1 ≤ INT_MAX →
  buffcount mod nparticipants c ≤ INT_MAX →
  getTeamPartitionSize c buffcount =
    Some (partition_formula buffcount (nparticipants c) (rank c))
  ∧ sum_below (λ r, partition_formula buffcount (nparticipants c) (Z.of_nat r))
              (Z.to_nat (nparticipants c)) = buffcount.
Proof.
  intros Hn Hb Hr Hq Hm.
  assert (0 ≤ buffcount / nparticipants c) by (apply Z.div_pos; lia).
  assert (0 ≤ buffcount mod nparticipants c < nparticipants c)
    by (apply Z.mod_pos_bound; lia).
  split.
  - unfold getTeamPartitionSize, partition_formula.
    destruct (Z.eqb_spec (nparticipants c) 0); [lia|].
    rewrite !to_int_small by (unfold INT_MAX in *; lia).
    set (r := buffcount mod nparticipants c) in *.
    destruct (Z.eqb_spec r 0) as [Hz|Hne];
      destruct (Z.ltb_spec (rank c) r); cbn [negb andb];
      rewrite ?(to_int_small (buffcount / nparticipants c)) by (unfold INT_MAX in *; lia);
      rewrite ?to_int_small by (unfold INT_MAX in *; lia);
      f_equal; lia.
  - rewrite sum_partition_formula by lia. rewrite Z2Nat.id by lia.
    rewrite Z.min_r by lia. rewrite (Z.div_mod buffcount (nparticipants c)) at 3 by lia.
    lia.
Qed.

End PartitionFacts.

(** ** Chunks and displacements *)

Section ChunkFacts.
Variables total datasize n : Z.
Hypothesis Hds : 0 < datasize.
Hypothesis Hn : 1 ≤ n.
Hypothesis Htotal : 0 ≤ total.

Let count := total / datasize.
Let base := (count / n) * datasize.
Let remainder := count mod n.

Lemma count_nonneg : 0 ≤ count.
Proof. apply Z.div_pos; lia. Qed.

Lemma remainder_bound : 0 ≤ remainder < n.
Proof. apply Z.mod_pos_bound. lia. Qed.

Lemma base_bound : 0 ≤ base ∧ base ≤ total ∧ (0 < remainder → base + datasize ≤ total).
Proof.
  pose proof count_nonneg as Hc. pose proof remainder_bound as Hr.
  assert (0 ≤ count / n) as Hq by (apply Z.div_pos; lia).
  assert (count * datasize ≤ total) as Hle
    by (unfold count; rewrite Z.mul_comm; apply Z.mul_div_le; lia).
  assert (count = n * (count / n) + remainder) as Hdm by (apply Z.div_mod; lia).
  assert (count / n ≤ count) as Hqc by nia.
  unfold base. split; [nia|]. split; [nia|]. intros Hpos.
  assert (count / n + 1 ≤ count) as Hq1 by nia.
  assert ((count / n + 1) * datasize ≤ count * datasize) by nia. lia.
Qed.

Lemma chunk_bound r : 0 ≤ r → 0 ≤ chunk total datasize n r ≤ total.
Proof.
  intros Hr. pose proof base_bound as (H0 & H1 & H2). pose proof remainder_bound.
  unfold chunk, base, remainder, count in *. cbv zeta.
  destruct (Z.ltb_spec r (total / datasize mod n)); lia.
Qed.

Lemma displacement_formula (m : nat) :
  displacement total datasize n m =
    Z.of_nat m * base + Z.min (Z.of_nat m) remainder * datasize.
Proof.
  pose proof remainder_bound.
  induction m as [|m IH]; [cbn; lia|].
  cbn [displacement]. rewrite IH. unfold chunk, base, remainder, count in *. cbv zeta.
  destruct (Z.ltb_spec (Z.of_nat m) (total / datasize mod n)); nia.
Qed.

Lemma displacement_nonneg (m : nat) : 0 ≤ displacement total datasize n m.
Proof.
  induction m as [|m IH]; [done|]. cbn [displacement].
  pose proof (chunk_bound (Z.of_nat m)). lia.
Qed.

Lemma displacement_mono (m m' : nat) :
  (m ≤ m')%nat → displacement total datasize n m ≤ displacement total datasize n m'.
Proof.
  induction 1 as [|m' _ IH]; [done|]. cbn [displacement].
  pose proof (chunk_bound (Z.of_nat m')). lia.
Qed.

(** the chunks of all the ranks sum to the whole buffer *)
Lemma displacement_total :
  total mod datasize = 0 → displacement total datasize n (Z.to_nat n) = total.
Proof.
  intros Hdiv. rewrite displacement_formula. rewrite Z2Nat.id by lia.
  pose proof remainder_bound. rewrite Z.min_r by lia.
  assert (count = n * (count / n) + remainder) as Hdm by (apply Z.div_mod; lia).
  assert (total = datasize * count) as Ht.
  { unfold count. pose proof (Z.div_mod total datasize). lia. }
  unfold base. nia.
Qed.

End ChunkFacts.

(** ** Scatter *)

Section ScatterFacts.
Context {T : Type} `{Transport T}.
Implicit Types (w : World T) (hd : Handle T).

Variable c : ScatterGeneric.t.
Variables sendsize datasize : Z.
Let n := nparticipants (ScatterGeneric.base c).
Let ps := participants (ScatterGeneric.base c).
Let ch := chunk sendsize datasize n.
Let dp := displacement sendsize datasize n.

Hypothesis Hds : 0 < datasize.
Hypothesis Hn : 1 ≤ n ≤ SIZE_MAX.
Hypothesis Hsz : 0 ≤ sendsize ≤ SIZE_MAX.

(** the root's own share, as [sendrecv] computes it *)
Lemma selfsendcount_chunk :
  let datacount := sendsize / datasize in
  let sendcount := wrap64 ((datacount / n) * datasize) in
  let rcount := datacount mod n in
  sendcount = (datacount / n) * datasize
  ∧ (if rcount >? 0 then (wrap64 (sendcount + datasize), wrap64 (rcount - 1))
     else (sendcount, rcount)) = (ch 0, Z.max 0 (rcount - 1)).
Proof.
  intros datacount sendcount rcount.
  pose proof (base_bound sendsize datasize n) as (H0 & H1 & H2); [lia..|].
  pose proof (remainder_bound sendsize datasize n) as Hr; [lia..|].
  fold datacount rcount in H0, H1, H2, Hr.
  assert (sendcount = (datacount / n) * datasize) as Hsc
    by (unfold sendcount; apply wrap64_small; lia).
  split; [done|]. rewrite Hsc. unfold ch, chunk. cbv zeta. fold datacount rcount.
  destruct (Z.gtb_spec rcount 0); destruct (Z.ltb_spec 0 rcount); try lia.
  - rewrite !wrap64_small by (unfold SIZE_MAX in *; lia). f_equal; lia.
  - f_equal; lia.
Qed.

(** the share of peer rank [i + 1], as the loop computes it from the
    remainder counter *)
Lemma loop_chunk (i : nat) :
  let datacount := sendsize / datasize in
  let sendcount := wrap64 ((datacount / n) * datasize) in
  let rcount := Z.max 0 (datacount mod n - 1 - Z.of_nat i) in
  (if rcount >? 0 then (wrap64 (sendcount + datasize), wrap64 (rcount - 1))
   else (sendcount, rcount))
  = (ch (Z.of_nat (S i)), Z.max 0 (datacount mod n - 1 - Z.of_nat (S i))).
Proof.
  intros datacount sendcount rcount.
  pose proof (base_bound sendsize datasize n) as (H0 & H1 & H2); [lia..|].
  pose proof (remainder_bound sendsize datasize n) as Hr; [lia..|].
  fold datacount in H0, H1, H2, Hr.
  assert (sendcount = (datacount / n) * datasize) as Hsc
    by (unfold sendcount; apply wrap64_small; lia).
  rewrite Hsc. unfold ch, chunk. cbv zeta. fold datacount.
  destruct (Z.gtb_spec rcount 0);
    destruct (Z.ltb_spec (Z.of_nat (S i)) (datacount mod n)); try lia.
  - rewrite !wrap64_small by (unfold SIZE_MAX in *; lia). f_equal; lia.
  - f_equal; lia.
Qed.

Hypothesis Hps : Z.of_nat (length ps) = n - 1.

(** The loop of the root over its peers, started at peer index [i] with
    the send pointer at the displacement of rank [i + 1]. *)
Lemma sendrecv_loop_spec (sb : buffer) (k : nat) : ∀ (i : nat) w,
  (i + k = length ps)%nat →
  (∀ h, h ∈ ps → is_Some (heap w !! h)) →
  let datacount := sendsize / datasize in
  ∃ completed w' evs,
    ScatterGeneric.sendrecv_loop k c (Z.of_nat i)
        (Z.max 0 (datacount mod n - 1 - Z.of_nat i))
        (wrap64 ((datacount / n) * datasize)) datasize
        (drop (Z.to_nat (dp (S i))) sb) w = Some (completed, w')
    ∧ trace w' = trace w ++ evs
    ∧ (∀ j ev, evs !! j = Some ev →
         ∃ h ret, ps !! (i + j)%nat = Some h ∧
           ev = EvSend h (slice sb (dp (S (i + j))) (ch (Z.of_nat (S (i + j))))) ret)
    ∧ (if completed then sends_ok evs ∧ length evs = k
       else ¬ sends_ok evs ∧ errno w' = ECONNRESET
            ∧ ∃ evs0 h data ret, evs = evs0 ++ [EvSend h data ret]
                                 ∧ sends_ok evs0 ∧ ret < 0).
Proof.
  induction k as [|k IH]; intros i w Hik Hvalid datacount.
  - cbn [ScatterGeneric.sendrecv_loop]. exists true, w, []. split_and!; try done.
    + by rewrite app_nil_r.
    + by apply Forall_nil.
  - cbn [ScatterGeneric.sendrecv_loop]. cbv zeta.
    pose proof (loop_chunk i) as Hchunk. cbv zeta in Hchunk. fold datacount in Hchunk.
    rewrite Hchunk. clear Hchunk.
    destruct (lookup_lt_is_Some_2 ps i) as [h Hh]; [lia|].
    unfold bind at 1. rewrite (run_at_ ps (Z.of_nat i) h) by (by rewrite Nat2Z.id).
    assert (h ∈ ps) as Hin by (by eapply list_elem_of_lookup_2).
    destruct (Hvalid h Hin) as [hd Hhd].
    unfold bind at 1. rewrite (run_Handle_send _ _ _ _ Hhd). cbv zeta.
    fold (slice sb (dp (S i)) (ch (Z.of_nat (S i)))).
    remember (slice sb (dp (S i)) (ch (Z.of_nat (S i)))) as data eqn:Hdata.
    destruct (t_send data (chan hd)) as [sr t'] eqn:Hsend. cbn [fst snd].
    match goal with |- context [?f ?w = Some _] =>
      match w with mkWorld _ _ _ => remember w as w1 eqn:Hw1 end end.
    destruct (sr_ret sr <? 0) eqn:Hneg; [apply Z.ltb_lt in Hneg|apply Z.ltb_ge in Hneg].
    + exists false, (mkWorld (heap w1) ECONNRESET (trace w1)), [EvSend h data (sr_ret sr)].
      split_and!; try done.
      * by rewrite Hw1.
      * intros [|j] ev Hj; [|done]. injection Hj as <-.
        exists h, (sr_ret sr). rewrite Nat.add_0_r. by rewrite <- Hdata.
      * intros Hok. apply Forall_cons in Hok as [Hok _]. lia.
      * exists [], h, data, (sr_ret sr). split_and!; [done|by apply Forall_nil|done].
    + assert (∀ h', h' ∈ ps → is_Some (heap w1 !! h')) as Hvalid1.
      { intros h' Hh'. rewrite Hw1; cbn [heap]. apply lookup_insert_is_Some'.
        right. by apply Hvalid. }
      destruct (IH (S i) w1 ltac:(lia) Hvalid1) as (completed & w' & evs & Hrun & Htr & Hev & Hfin).
      fold datacount in Hrun.
      assert (wrap64 (Z.of_nat i + 1) = Z.of_nat (S i)) as ->
        by (rewrite wrap64_small; lia).
      assert (advance (drop (Z.to_nat (dp (S i))) sb) (ch (Z.of_nat (S i)))
              = drop (Z.to_nat (dp (S (S i)))) sb) as ->.
      { unfold advance. rewrite drop_drop. f_equal.
        pose proof (displacement_nonneg sendsize datasize n ltac:(lia) ltac:(lia) ltac:(lia) (S i)).
        pose proof (chunk_bound sendsize datasize n ltac:(lia) ltac:(lia) ltac:(lia) (Z.of_nat (S i)) ltac:(lia)).
        fold dp in H0. fold ch in H1.
        change (dp (S (S i))) with (dp (S i) + ch (Z.of_nat (S i))).
        by rewrite Z2Nat.inj_add by lia. }
      rewrite Hrun. exists completed, w', (EvSend h data (sr_ret sr) :: evs).
      split_and!; try done.
      * rewrite Htr, Hw1; cbn [trace]. by rewrite <- app_assoc.
      * intros [|j] ev Hj.
        -- injection Hj as <-. exists h, (sr_ret sr). rewrite Nat.add_0_r. by rewrite <- Hdata.
        -- cbn in Hj. destruct (Hev j ev Hj) as (h' & ret' & Hl & ->).
           exists h', ret'. by replace (i + S j)%nat with (S i + j)%nat by lia.
      * destruct completed.
        -- destruct Hfin as [Hok Hlen]. split; [|cbn; lia].
           apply Forall_cons. split; [lia|done].
        -- destruct Hfin as (Hok & He & evs0 & h0 & d0 & r0 & -> & Hok0 & Hr0).
           split_and!; [|done|].
           ++ intros Hok'. apply Hok. by apply Forall_cons in Hok' as [_ ?].
           ++ exists (EvSend h data (sr_ret sr) :: evs0), h0, d0, r0.
              split_and!; [done| |done]. apply Forall_cons. split; [lia|done].
Qed.

Lemma events_since_trace w w' evs :
  trace w' = trace w ++ evs → events_since w w' = evs.
Proof. intros E. unfold events_since. rewrite E. apply drop_app_length. Qed.

(** C1 as amended.  Scatter at the root.  With both buffers non-null,
    [sendsize] divisible by [datasize] and [recvsize >= chunk(0)],
    [sendrecv] copies the first [chunk(0)] bytes of [sendbuff] to the front
    of [recvbuff] and then calls nothing but [send]: the [i]-th call is made
    on the Handle of peer rank [i + 1], in the order of [participants],
    with exactly [chunk(i + 1)] bytes taken at the running offset, the sum
    of the chunks of the lower ranks.  The chunks of all the ranks sum to
    [sendsize].  Provided no send reports a failure, there is one send per
    peer and the call returns [chunk(0)]; a send that reports a failure
    is the last call made, every send before it having succeeded: the
    peers after it are sent nothing, and the result is -1 with
    [ECONNRESET]. *)
Theorem Scatter_root_sendrecv (sb rb : buffer) recvsize w :
  ScatterGeneric.root c = true →
  sendsize mod datasize = 0 →
  sendsize ≤ SSIZE_MAX →
  sendsize ≤ Z.of_nat (length sb) →
  (∀ h, h ∈ ps → is_Some (heap w !! h)) →
  ch 0 ≤ recvsize →
  ∃ r rb' w',
    ScatterGeneric.sendrecv c (Some sb) sendsize (Some rb) recvsize datasize w
      = Some ((r, Some rb'), w')
    ∧ rb' = take (Z.to_nat (ch 0)) sb ++ drop (Z.to_nat (ch 0)) rb
    ∧ dp (Z.to_nat n) = sendsize
    ∧ (∀ i ev, events_since w w' !! i = Some ev →
         ∃ h ret, ps !! i = Some h
           ∧ ev = EvSend h (slice sb (dp (S i)) (ch (Z.of_nat (S i)))) ret
           ∧ Z.of_nat (length (slice sb (dp (S i)) (ch (Z.of_nat (S i)))))
               = ch (Z.of_nat (S i)))
    ∧ (sends_ok (events_since w w') →
         r = ch 0 ∧ length (events_since w w') = length ps)
    ∧ (¬ sends_ok (events_since w w') →
         r = -1 ∧ errno w' = ECONNRESET
         ∧ ∃ evs0 h data ret,
             events_since w w' = evs0 ++ [EvSend h data ret]
             ∧ sends_ok evs0 ∧ ret < 0).
Proof.
  intros Hroot Hdiv Hss Hlen Hvalid Hrecv.
  pose proof selfsendcount_chunk as [Hsc Hself]. cbv zeta in Hself.
  pose proof (chunk_bound sendsize datasize n ltac:(lia) ltac:(lia) ltac:(lia) 0 ltac:(lia)) as Hc0.
  fold ch in Hc0.
  assert (dp (Z.to_nat n) = sendsize) as Htot
    by (apply displacement_total; [lia..|done]).
  unfold ScatterGeneric.sendrecv. rewrite Hroot.
  destruct (Z.eqb_spec datasize 0); [lia|].
  rewrite Hdiv. cbn [Z.eqb negb].
  fold n. destruct (Z.eqb_spec n 0); [lia|].
  cbv zeta. rewrite Hself.
  destruct (Z.ltb_spec recvsize (ch 0)); [lia|].
  destruct (sendrecv_loop_spec sb (length ps) 0 w ltac:(lia) Hvalid)
    as (completed & w' & evs & Hrun & Htr & Hev & Hfin).
  unfold bind at 1. fold ps.
  replace (Z.to_nat (wrap64 (n - 1))) with (length ps)
    by (rewrite wrap64_small by lia; lia).
  change (Z.of_nat 0) with 0 in Hrun. rewrite Z.sub_0_r in Hrun.
  change (drop (Z.to_nat (dp 1)) sb) with (advance sb (ch 0)) in Hrun.
  rewrite Hrun.
  exists (if completed then ch 0 else -1), (memcpy rb sb (ch 0)), w'.
  rewrite (events_since_trace _ _ _ Htr).
  split_and!.
  - destruct completed; [|done]. cbn [ret]. by rewrite to_ssize_small by lia.
  - done.
  - done.
  - intros i ev Hi. destruct (Hev i ev Hi) as (h & ret & Hh & ->).
    cbn [Nat.add] in Hh. exists h, ret. split_and!; try done.
    apply lookup_lt_Some in Hh.
    pose proof (displacement_nonneg sendsize datasize n ltac:(lia) ltac:(lia) ltac:(lia) (S i)) as Hd0.
    pose proof (chunk_bound sendsize datasize n ltac:(lia) ltac:(lia) ltac:(lia) (Z.of_nat (S i)) ltac:(lia)) as Hci.
    pose proof (displacement_mono sendsize datasize n ltac:(lia) ltac:(lia) ltac:(lia) (S (S i)) (Z.to_nat n) ltac:(lia)) as Hmono.
    fold dp in Hd0, Hmono. fold ch in Hci.
    change (dp (S (S i))) with (dp (S i) + ch (Z.of_nat (S i))) in Hmono.
    unfold slice. rewrite length_take, length_drop. lia.
  - intros Hok. destruct completed; [|by destruct Hfin]. by destruct Hfin.
  - intros Hok. destruct completed; [by destruct Hfin|].
    destruct Hfin as (_ & He & Hlast). done.
Qed.

(** C8 as amended.  Scatter at the root, receive buffer too small.  When
    [recvsize < chunk(0)], [sendrecv] returns -1, calls no method of any
    Handle and leaves every Handle as it was: only [errno] changes.  With
    both buffers non-null the error is [EINVAL]; with a null buffer it is
    [EFAULT] (a null buffer is rejected before the sizes are looked at). *)
Theorem Scatter_root_buffer_too_small (sendbuff recvbuff : option buffer) recvsize w :
  ScatterGeneric.root c = true →
  recvsize < ch 0 →
  ∃ e,
    ScatterGeneric.sendrecv c sendbuff sendsize recvbuff recvsize datasize w
      = Some ((-1, recvbuff), mkWorld (heap w) e (trace w))
    ∧ (is_Some sendbuff → is_Some recvbuff → e = EINVAL)
    ∧ (sendbuff = None ∨ recvbuff = None → e = EFAULT).
Proof.
  intros Hroot Hrecv.
  pose proof selfsendcount_chunk as [Hsc Hself]. cbv zeta in Hself.
  unfold ScatterGeneric.sendrecv.
  destruct recvbuff as [rb|].
  2:{ exists EFAULT. split; [done|]. split; [by intros _ [? ?]|done]. }
  rewrite Hroot. destruct sendbuff as [sb|].
  2:{ exists EFAULT. split; [done|]. split; [by intros [? ?]|done]. }
  exists EINVAL. split; [|split; [done|by intros [?|?]]].
  destruct (Z.eqb_spec datasize 0); [lia|].
  destruct (negb (sendsize mod datasize =? 0)); [done|].
  fold n. destruct (Z.eqb_spec n 0); [lia|].
  cbv zeta. rewrite Hself.
  by destruct (Z.ltb_spec recvsize (ch 0)); [|lia].
Qed.

End ScatterFacts.

(** ** FanIn *)

Section FanInFacts.
Context {T : Type} `{Transport T}.
Implicit Types (w : World T) (hd : Handle T) (c : FanInGeneric.t).

Local Abbreviation ps c := (participants (FanInGeneric.base c)).

Lemma eos_closed_app_close evs h wr rd :
  eos_closed evs → eos_closed (EvClose h wr rd :: evs).
Proof. intros Hc. split; [done|done]. Qed.

(** the calls of one iteration come before those of the rest of the loop *)
Lemma loop_post_step c c2 (e : event) (closes evs : list event) out h :
  (closes = [] ∧ is_eos e = false ∧ ps c2 = ps c
   ∨ closes = [EvClose h true true] ∧ is_eos e = true ∧ handle_of e = h
     ∧ ps c ≡ₚ h :: ps c2) →
  match e with EvProbe _ b _ _ => b = false | _ => True end →
  loop_post c2 evs out →
  loop_post c (e :: closes ++ evs) out.
Proof.
  intros Hcase Hnb (Hclosed & Hprobes & Hout).
  destruct Hcase as [(-> & Heos & Hps)|(-> & Heos & Hh & Hperm)]; cbn [app].
  - split_and!.
    + split; [by rewrite Heos|done].
    + by apply Forall_cons.
    + unfold eos_handles in *. rewrite filter_cons_False by (by rewrite Heos).
      destruct out as [[[c' res'] size']|]; by rewrite <- Hps.
  - split_and!.
    + split; [intros _; rewrite Hh; by eexists|]. by apply eos_closed_app_close.
    + apply Forall_cons. split; [done|]. by apply Forall_cons.
    + unfold eos_handles in *. rewrite filter_cons_True by done.
      rewrite filter_cons_False by done. cbn [fmap list_fmap]. rewrite Hh.
      destruct out as [[[c' res'] size']|].
      * destruct Hout as [Hperm' Hres]. split; [|done].
        rewrite Hperm. rewrite <- Hperm'. by rewrite Permutation_middle.
      * rewrite Hperm. cbn [length]. lia.
Qed.

Lemma round_robin_nil c iter : round_robin_from c iter [].
Proof. by intros j ev Hj. Qed.

Lemma round_robin_wrap c iter evs :
  S iter = length (ps c) → round_robin_from c 0 evs →
  round_robin_from c (S iter) evs.
Proof.
  intros Hend Hrr j ev Hj. destruct (Hrr j ev Hj) as (h & r & s & Hh & ->).
  exists h, r, s. split; [|done]. rewrite <- Hh. f_equal.
  rewrite Hend. replace (length (ps c) + j)%nat with (j + 1 * length (ps c))%nat by lia.
  by rewrite Nat.Div0.mod_add.
Qed.

Lemma round_robin_cons c c2 iter h r s evs :
  ps c2 = ps c → ps c !! iter = Some h →
  round_robin_from c2 (S iter) evs →
  round_robin_from c iter (EvProbe h false r s :: evs).
Proof.
  intros Hps Hh Hrr [|j] ev Hj.
  - injection Hj as <-. exists h, r, s. split; [|done].
    rewrite Nat.add_0_r, Nat.mod_small; [done|]. by eapply lookup_lt_Some.
  - destruct (Hrr j ev Hj) as (h' & r' & s' & Hh' & ->).
    exists h', r', s'. split; [|done]. rewrite <- Hps, <- Hh'. f_equal.
    f_equal. lia.
Qed.

Lemma eos_handles_cons_eos e evs :
  is_eos e = true → eos_handles (e :: evs) ≠ [].
Proof. intros He. unfold eos_handles. by rewrite filter_cons_True. Qed.

Lemma eos_handles_cons_other e evs :
  is_eos e = false → eos_handles (e :: evs) = eos_handles evs.
Proof. intros He. unfold eos_handles. rewrite filter_cons_False; [done|by rewrite He]. Qed.

Lemma loop_pre_begin c res size w :
  (∀ h, h ∈ ps c → is_Some (heap w !! h)) → (0 < res → size ≠ 0) →
  loop_pre c res 0 size w.
Proof.
  intros Hvalid Hres. split_and!; [done| |done].
  destruct (ps c); [done|cbn; lia].
Qed.

Lemma loop_post_exit c res size :
  (0 < res → size ≠ 0) → loop_post c [] (Some (c, res, size)).
Proof.
  intros Hres. split_and!; [done|by apply Forall_nil|by rewrite app_nil_r|done].
Qed.

Lemma probe_loop_exit fuel blocking c res iter size :
  (res =? -1) && negb (bool_decide (ps c = [])) = false →
  FanInGeneric.probe_loop fuel blocking c res iter size = ret (Some (c, res, size)).
Proof. intros E. destruct fuel; cbn [FanInGeneric.probe_loop]; by rewrite E. Qed.

Lemma probe_loop_S fuel blocking c res iter size :
  (res =? -1) && negb (bool_decide (ps c = [])) = true →
  FanInGeneric.probe_loop (S fuel) blocking c res iter size =
    (let* h := at_ (ps c) (Z.of_nat iter) in
     let* '(res, size) := Handle_probe h size false in
     if (res >? 0) && (size =? 0) then
       let c := FanInGeneric.with_participants c (delete iter (ps c)) in
       let res := -1 in
       Handle_close h true true;;
       if bool_decide (iter = length (ps c)) then
         if blocking then FanInGeneric.probe_loop fuel blocking c res 0%nat size
         else ret (Some (c, res, size))
       else FanInGeneric.probe_next (FanInGeneric.probe_loop fuel blocking)
                                    blocking c res iter size
     else if res >? 0 then
       let c := FanInGeneric.with_probed_idx c (Z.of_nat iter) in
       set_probed h (true, size);;
       FanInGeneric.probe_next (FanInGeneric.probe_loop fuel blocking)
                               blocking c res iter size
     else FanInGeneric.probe_next (FanInGeneric.probe_loop fuel blocking)
                                  blocking c res iter size).
Proof. intros E. cbn [FanInGeneric.probe_loop]. by rewrite E. Qed.

(** the end of an iteration, given what the rest of the loop does *)
Lemma probe_next_spec fuel blocking c res iter size w :
  (∀ c res iter size w,
     loop_pre c res iter size w → loop_spec fuel blocking c res iter size w) →
  (∀ h, h ∈ ps c → is_Some (heap w !! h)) →
  (iter < length (ps c))%nat →
  (0 < res → size ≠ 0) →
  ∃ out w' evs,
    FanInGeneric.probe_next (FanInGeneric.probe_loop fuel blocking)
                            blocking c res iter size w = Some (out, w')
    ∧ trace w' = trace w ++ evs
    ∧ loop_post c evs out
    ∧ (blocking = false → (length (ps c) - S iter ≤ fuel)%nat → is_Some out)
    ∧ (eos_handles evs = [] → round_robin_from c (S iter) evs).
Proof.
  intros IH Hvalid Hiter Hres. unfold FanInGeneric.probe_next.
  case_bool_decide as Hend.
  - destruct blocking.
    + destruct (IH c res 0%nat size w)
        as (out & w' & evs & Hrun & Htr & Hpost & _ & _ & Hrr).
      { by apply loop_pre_begin. }
      exists out, w', evs. split_and!; try done.
      intros Hno. by apply round_robin_wrap, Hrr.
    + exists (Some (c, res, size)), w, []. split_and!; try done.
      * by rewrite app_nil_r.
      * by apply loop_post_exit.
  - destruct (IH c res (S iter) size w)
      as (out & w' & evs & Hrun & Htr & Hpost & Hfuel & _ & Hrr).
    { split_and!; [done|lia|done]. }
    exists out, w', evs. by split_and!.
Qed.

(** The loop of [probe], from any iterator position. *)
Lemma probe_loop_spec fuel blocking : ∀ c res iter size w,
  loop_pre c res iter size w → loop_spec fuel blocking c res iter size w.
Proof.
  induction fuel as [|fuel IH]; intros c res iter size w (Hvalid & Hiter & Hres).
  - unfold loop_spec. cbn [FanInGeneric.probe_loop].
    destruct ((res =? -1) && negb (bool_decide (ps c = []))) eqn:Hcond.
    + apply andb_true_iff in Hcond as [_ Hne%negb_true_iff%bool_decide_eq_false].
      exists None, w, []. split_and!; try done.
      * by rewrite app_nil_r.
      * split_and!; [done|by apply Forall_nil|]. cbn. specialize (Hiter Hne). lia.
      * intros _ Hfuel. specialize (Hiter Hne). lia.
    + exists (Some (c, res, size)), w, []. split_and!; try done.
      * by rewrite app_nil_r.
      * by apply loop_post_exit.
  - unfold loop_spec.
    destruct ((res =? -1) && negb (bool_decide (ps c = []))) eqn:Hcond.
    2:{ rewrite (probe_loop_exit _ _ _ _ _ _ Hcond).
        exists (Some (c, res, size)), w, []. split_and!; try done.
        - by rewrite app_nil_r.
        - by apply loop_post_exit.
        - intros -> Hne _. apply andb_false_iff in Hcond as [Hc|Hc]; [done|].
          apply negb_false_iff, bool_decide_eq_true in Hc. done. }
    rewrite (probe_loop_S _ _ _ _ _ _ Hcond).
    apply andb_true_iff in Hcond as [Hres1%Z.eqb_eq Hne%negb_true_iff%bool_decide_eq_false].
    specialize (Hiter Hne).
    destruct (lookup_lt_is_Some_2 (ps c) iter Hiter) as [h Hh].
    assert (h ∈ ps c) as Hin by (by eapply list_elem_of_lookup_2).
    destruct (Hvalid h Hin) as [hd Hhd].
    unfold bind at 1. rewrite (run_at_ (ps c) (Z.of_nat iter) h) by (by rewrite Nat2Z.id).
    unfold bind at 1. rewrite (run_Handle_probe _ _ _ _ _ Hhd). cbv zeta.
    destruct (t_probe false (chan hd)) as [pr t'] eqn:Hprobe. cbn [fst snd].
    remember (default size (pr_size pr)) as s eqn:Hs.
    remember (pr_ret pr) as r eqn:Hr.
    match goal with |- context [_ ?w = Some _] =>
      match w with mkWorld _ _ _ => remember w as w1 eqn:Hw1 end end.
    assert (∀ h', is_Some (heap w !! h') → is_Some (heap w1 !! h')) as Hmono1.
    { intros h' Hh'. rewrite Hw1; cbn [heap]. apply lookup_insert_is_Some'. by right. }
    assert (is_Some (heap w1 !! h)) as [hd1 Hhd1] by (apply Hmono1; by eexists).
    destruct ((r >? 0) && (s =? 0)) eqn:Heos.
    + (* end of stream *)
      cbv zeta. unfold bind at 1. rewrite (run_Handle_close _ _ _ _ _ Hhd1).
      match goal with |- context [_ ?w = Some _] =>
        match w with mkWorld _ _ _ => remember w as w2 eqn:Hw2 end end.
      set (c2 := FanInGeneric.with_participants c (delete iter (ps c))).
      assert (ps c2 = delete iter (ps c)) as Hps2 by done.
      assert (length (ps c2) = (length (ps c) - 1)%nat) as Hlen2
        by (rewrite Hps2; apply length_delete; by eexists).
      assert (∀ h', h' ∈ ps c2 → is_Some (heap w2 !! h')) as Hvalid2.
      { intros h' Hh'. rewrite Hw2; cbn [heap]. apply lookup_insert_is_Some'. right.
        apply Hmono1, Hvalid. rewrite Hps2 in Hh'. by eapply list_elem_of_delete_inv. }
      assert (trace w2 = trace w ++ [EvProbe h false r s; EvClose h true true]) as Htr2.
      { rewrite Hw2, Hw1; cbn [trace]. by rewrite <- app_assoc. }
      assert (∃ out w' evs,
        (if bool_decide (iter = length (ps c2)) then
           if blocking then FanInGeneric.probe_loop fuel blocking c2 (-1) 0%nat s
           else ret (Some (c2, -1, s))
         else FanInGeneric.probe_next (FanInGeneric.probe_loop fuel blocking)
                                      blocking c2 (-1) iter s) w2 = Some (out, w')
        ∧ trace w' = trace w2 ++ evs ∧ loop_post c2 evs out
        ∧ (blocking = false → (length (ps c2) - S iter ≤ fuel)%nat → is_Some out))
        as (out & w' & evs & Hrun & Htr & Hpost & Hfuel).
      { case_bool_decide as Hend.
        - destruct blocking.
          + destruct (IH c2 (-1) 0%nat s w2) as (out & w' & evs & Hrun & Htr & Hpost & _ & _).
            { apply loop_pre_begin; [done|lia]. }
            exists out, w', evs. by split_and!.
          + exists (Some (c2, -1, s)), w2, []. split_and!; try done.
            * by rewrite app_nil_r.
            * apply loop_post_exit. lia.
        - destruct (probe_next_spec fuel blocking c2 (-1) iter s w2)
            as (out & w' & evs & ? & ? & ? & ? & _); [done|done|lia|lia|].
          by exists out, w', evs. }
      exists out, w', (EvProbe h false r s :: [EvClose h true true] ++ evs).
      split_and!.
      * done.
      * rewrite Htr, Htr2. by rewrite <- app_assoc.
      * apply (loop_post_step c c2 _ _ _ _ h); [|done|done].
        right. split_and!; [done|done|done|]. rewrite Hps2. by apply delete_Permutation.
      * intros Hb Hf. apply Hfuel; [done|lia].
      * intros _ _ _. by eexists _, _, _, _.
      * intros Hno. by apply eos_handles_cons_eos in Hno.
    + destruct (r >? 0) eqn:Hpos.
      * (* a message *)
        cbv zeta. unfold bind at 1. rewrite (run_set_probed _ _ _ _ Hhd1).
        match goal with |- context [_ ?w = Some _] =>
          match w with mkWorld _ _ _ => remember w as w2 eqn:Hw2 end end.
        set (c2 := FanInGeneric.with_probed_idx c (Z.of_nat iter)).
        destruct (probe_next_spec fuel blocking c2 r iter s w2 IH)
          as (out & w' & evs & Hrun & Htr & Hpost & Hfuel & Hrr).
        { intros h' Hh'. rewrite Hw2; cbn [heap]. apply lookup_insert_is_Some'. right.
          by apply Hmono1, Hvalid. }
        { done. }
        { intros _ ->. by cbn in Heos. }
        exists out, w', (EvProbe h false r s :: [] ++ evs).
        split_and!.
        -- done.
        -- rewrite Htr, Hw2, Hw1; cbn [trace app]. by rewrite <- app_assoc.
        -- apply (loop_post_step c c2 _ _ _ _ h); [|done|done].
           left. split_and!; [done| |done]. cbn [is_eos]. by rewrite Hpos.
        -- intros Hb Hf. apply Hfuel; [done|]. cbn. lia.
        -- intros _ _ _. by eexists _, _, _, _.
        -- intros Hno. rewrite eos_handles_cons_other in Hno by (cbn; by rewrite Hpos).
           by apply (round_robin_cons c c2), Hrr.
      * (* nothing to read on this Handle *)
        destruct (probe_next_spec fuel blocking c r iter s w1 IH)
          as (out & w' & evs & Hrun & Htr & Hpost & Hfuel & Hrr).
        { intros h' Hh'. by apply Hmono1, Hvalid. }
        { done. }
        { lia. }
        exists out, w', (EvProbe h false r s :: [] ++ evs).
        split_and!.
        -- done.
        -- rewrite Htr, Hw1; cbn [trace app]. by rewrite <- app_assoc.
        -- apply (loop_post_step c c _ _ _ _ h); [|done|done].
           left. split_and!; [done| |done]. cbn [is_eos]. by rewrite Hpos.
        -- intros Hb Hf. apply Hfuel; [done|lia].
        -- intros _ _ _. by eexists _, _, _, _.
        -- intros Hno. rewrite eos_handles_cons_other in Hno by (cbn; by rewrite Hpos).
           by apply (round_robin_cons c c), Hrr.
Qed.

Lemma run_FanIn_probe fuel c size blocking w :
  (∀ h, h ∈ ps c → is_Some (heap w !! h)) →
  ∃ out w' evs,
    FanInGeneric.probe fuel c size blocking w = Some (out, w')
    ∧ trace w' = trace w ++ evs
    ∧ eos_closed evs ∧ probes_nonblocking evs
    ∧ (blocking = false → (length (ps c) ≤ fuel)%nat → is_Some out)
    ∧ (ps c ≠ [] → fuel ≠ 0%nat →
         ∃ h r s rest, ps c !! 0%nat = Some h ∧ evs = EvProbe h false r s :: rest)
    ∧ (eos_handles evs = [] → round_robin_from c 0 evs)
    ∧ (out = None → (length (eos_handles evs) < length (ps c))%nat)
    ∧ ∀ c' res size', out = Some (c', res, size') →
        ps c' ++ eos_handles evs ≡ₚ ps c
        ∧ ((0 < res ∧ size' = 0) ↔ ps c' = [])
        ∧ (ps c' = [] → res = sizeof_size_t).
Proof.
  intros Hvalid.
  destruct (probe_loop_spec fuel blocking c (-1) 0%nat size w)
    as (out & w' & evs & Hrun & Htr & (Hclosed & Hnb & Hout) & Hfuel & Hfirst & Hrr).
  { apply loop_pre_begin; [done|lia]. }
  unfold FanInGeneric.probe. unfold bind at 1. rewrite Hrun.
  destruct out as [[[c' res'] size']|].
  - case_bool_decide as Hempty.
    + exists (Some (c', sizeof_size_t, 0)), w', evs. split_and!; try done.
      * intros Hne Hf. by apply Hfirst.
      * intros ? ? ? [= <- <- <-]. destruct Hout as [Hperm Hres]. split_and!; try done.
    + exists (Some (c', res', size')), w', evs. split_and!; try done.
      * intros Hne Hf. by apply Hfirst.
      * intros ? ? ? [= <- <- <-]. destruct Hout as [Hperm Hres]. split_and!; try done.
        split; [|done]. intros [Hpos Hz]. by apply Hres in Hpos.
  - exists None, w', evs. split_and!; try done.
    + intros Hb Hf. apply Hfuel; [done|lia].
    + intros Hne Hf. by apply Hfirst.
Qed.

Lemma probes_in_app evs1 evs2 :
  probes_in (evs1 ++ evs2) = (probes_in evs1 + probes_in evs2)%nat.
Proof. unfold probes_in. by rewrite filter_app, length_app. Qed.

Lemma bounded_from_later c c1 iter iter1 w w1 w' evs1 :
  trace w1 = trace w ++ evs1 →
  (probes_in evs1 + (length (ps c1) - iter1) ≤ length (ps c) - iter)%nat →
  bounded_from c1 iter1 w1 w' → bounded_from c iter w w'.
Proof.
  intros Htr Hle (evs & Htr' & Hb). exists (evs1 ++ evs).
  split; [by rewrite Htr', Htr, <- app_assoc|]. rewrite probes_in_app. lia.
Qed.

Lemma bounded_from_now c iter w : bounded_from c iter w w.
Proof. exists []. split; [by rewrite app_nil_r|]. cbn. lia. Qed.

Lemma probe_loop_bounded fuel out w' : ∀ c res iter size w,
  loop_pre c res iter size w →
  FanInGeneric.probe_loop fuel false c res iter size w = Some (out, w') →
  bounded_from c iter w w'.
Proof.
  induction fuel as [|fuel IH]; intros c res iter size w (Hvalid & Hiter & Hsz) Hrun.
  - cbn [FanInGeneric.probe_loop] in Hrun.
    destruct (_ && _); injection Hrun as <- <-; apply bounded_from_now.
  - destruct ((res =? -1) && negb (bool_decide (ps c = []))) eqn:Hcond.
    2:{ rewrite (probe_loop_exit _ _ _ _ _ _ Hcond) in Hrun.
        injection Hrun as <- <-. apply bounded_from_now. }
    rewrite (probe_loop_S _ _ _ _ _ _ Hcond) in Hrun.
    apply andb_true_iff in Hcond as [Hres1%Z.eqb_eq Hne%negb_true_iff%bool_decide_eq_false].
    specialize (Hiter Hne).
    destruct (lookup_lt_is_Some_2 (ps c) iter Hiter) as [h Hh].
    assert (h ∈ ps c) as Hin by (by eapply list_elem_of_lookup_2).
    destruct (Hvalid h Hin) as [hd Hhd].
    unfold bind at 1 in Hrun.
    rewrite (run_at_ (ps c) (Z.of_nat iter) h) in Hrun by (by rewrite Nat2Z.id).
    unfold bind at 1 in Hrun. rewrite (run_Handle_probe _ _ _ _ _ Hhd) in Hrun.
    cbv zeta in Hrun.
    destruct (t_probe false (chan hd)) as [pr t'] eqn:Hprobe. cbn [fst snd] in Hrun.
    remember (default size (pr_size pr)) as s eqn:Hs.
    remember (pr_ret pr) as r eqn:Hr.
    match type of Hrun with context [_ ?w = Some _] =>
      match w with mkWorld _ _ _ => remember w as w1 eqn:Hw1 end end.
    assert (trace w1 = trace w ++ [EvProbe h false r s]) as Htr1 by (by rewrite Hw1).
    assert (∀ h', is_Some (heap w !! h') → is_Some (heap w1 !! h')) as Hmono1.
    { intros h' Hh'. rewrite Hw1; cbn [heap]. apply lookup_insert_is_Some'. by right. }
    assert (is_Some (heap w1 !! h)) as [hd1 Hhd1] by (apply Hmono1; by eexists).
    assert (∀ c2 res2 w2 evs2,
      (∀ h', h' ∈ ps c2 → is_Some (heap w2 !! h')) →
      (0 < res2 → s ≠ 0) →
      trace w2 = trace w ++ evs2 → probes_in evs2 = 1%nat →
      (length (ps c2) ≤ length (ps c))%nat →
      (iter < length (ps c2))%nat →
      FanInGeneric.probe_next (FanInGeneric.probe_loop fuel false) false c2 res2 iter s w2
        = Some (out, w') →
      bounded_from c iter w w') as Hnext.
    { intros c2 res2 w2 evs2 Hvalid2 Hres2 Htr2 Hone Hlen2 Hiter2 Hrun2.
      unfold FanInGeneric.probe_next in Hrun2.
      case_bool_decide as Hend.
      - injection Hrun2 as <- <-. exists evs2. split; [done|]. lia.
      - apply (bounded_from_later c c2 iter (S iter) w w2 w' evs2 Htr2); [lia|].
        apply (IH c2 res2 (S iter) s w2); [|done]. split_and!; [done|lia|done]. }
    assert (probes_in [EvProbe h false r s] = 1%nat) as Hone1 by reflexivity.
    destruct ((r >? 0) && (s =? 0)) eqn:Heos.
    + cbv zeta in Hrun. unfold bind at 1 in Hrun.
      rewrite (run_Handle_close _ _ _ _ _ Hhd1) in Hrun.
      match type of Hrun with context [_ ?w = Some _] =>
        match w with mkWorld _ _ _ => remember w as w2 eqn:Hw2 end end.
      set (c2 := FanInGeneric.with_participants c (delete iter (ps c))) in *.
      assert (ps c2 = delete iter (ps c)) as Hps2 by done.
      assert (length (ps c2) = (length (ps c) - 1)%nat) as Hlen2
        by (rewrite Hps2; apply length_delete; by eexists).
      assert (∀ h', h' ∈ ps c2 → is_Some (heap w2 !! h')) as Hvalid2.
      { intros h' Hh'. rewrite Hw2; cbn [heap]. apply lookup_insert_is_Some'. right.
        apply Hmono1, Hvalid. rewrite Hps2 in Hh'. by eapply list_elem_of_delete_inv. }
      assert (trace w2 = trace w ++ [EvProbe h false r s; EvClose h true true]) as Htr2.
      { rewrite Hw2, Htr1; cbn [trace]. by rewrite <- app_assoc. }
      assert (probes_in [EvProbe h false r s; EvClose h true true] = 1%nat) as Hone2
        by reflexivity.
      case_bool_decide as Hend.
      * injection Hrun as <- <-. eexists. split; [exact Htr2|]. rewrite Hone2. lia.
      * apply (Hnext c2 (-1) w2 _ Hvalid2 ltac:(lia) Htr2 Hone2); [lia|lia|done].
    + destruct (r >? 0) eqn:Hgt.
      * cbv zeta in Hrun. unfold bind at 1 in Hrun.
        rewrite (run_set_probed _ _ _ _ Hhd1) in Hrun.
        match type of Hrun with context [_ ?w = Some _] =>
          match w with mkWorld _ _ _ => remember w as w2 eqn:Hw2 end end.
        apply (Hnext (FanInGeneric.with_probed_idx c (Z.of_nat iter)) r w2
                     [EvProbe h false r s]); try done.
        -- intros h' Hh'. rewrite Hw2; cbn [heap]. apply lookup_insert_is_Some'. right.
           by apply Hmono1, Hvalid.
        -- intros _ ->. by cbn in Heos.
        -- by rewrite Hw2.
      * assert (r ≤ 0) by (destruct (Z.gtb_spec r 0); [done|lia]).
        apply (Hnext c r w1 [EvProbe h false r s]); try done; try lia.
        intros h' Hh'. by apply Hmono1, Hvalid.
Qed.


(** C9. End of stream in FanIn.  During a [probe] (on participants that
    point to Handles), every probe that reports end of stream (positive
    return, size 0) is directly followed by the full close of the Handle
    that reported it, and that Handle leaves [participants]: the final
    [participants] together with the Handles that reported end of stream
    are the initial [participants].  The caller is handed a positive
    result with [size = 0] exactly when [participants] is empty at the
    end, and the result is then [sizeof(size_t)].  The call returns: a
    non-blocking one after at most as many iterations as there are
    participants, and any call as soon as every participant has reported
    end of stream (a call that is still running has heard fewer ends of
    stream than it had participants). *)
Theorem FanIn_probe_eos_absorbed fuel c size blocking w :
  (∀ h, h ∈ ps c → is_Some (heap w !! h)) →
  ∃ out w',
    FanInGeneric.probe fuel c size blocking w = Some (out, w')
    ∧ (blocking = false → (length (ps c) ≤ fuel)%nat → is_Some out)
    ∧ (out = None →
       (length (eos_handles (events_since w w')) < length (ps c))%nat)
    ∧ ∀ c' res size', out = Some (c', res, size') →
        eos_closed (events_since w w')
        ∧ ps c' ++ eos_handles (events_since w w') ≡ₚ ps c
        ∧ ((0 < res ∧ size' = 0) ↔ ps c' = [])
        ∧ (ps c' = [] → res = sizeof_size_t).
Proof.
  intros Hvalid.
  destruct (run_FanIn_probe fuel c size blocking w Hvalid)
    as (out & w' & evs & Hrun & Htr & Hclosed & _ & Hfuel & _ & _ & Hnone & Hout).
  exists out, w'. rewrite (events_since_trace _ _ _ Htr). split_and!; try done.
  intros c' res size' E. destruct (Hout c' res size' E) as (? & ? & ?). done.
Qed.


End FanInFacts.

(** ** AllGather and Alltoall on a non-root *)

Section NonRootFacts.
Context {T : Type} `{Transport T}.
Implicit Types (w : World T) (hd : Handle T).

(** [receiveFromHandle] always returns on a Handle, and the Handle is
    still there afterwards *)
Lemma receiveFromHandle_total w h hd cap :
  heap w !! h = Some hd →
  ∃ r data w', receiveFromHandle h cap w = Some ((r, data), w')
    ∧ is_Some (heap w' !! h).
Proof.
  intros E. destruct (probed hd) as [[|] s] eqn:P.
  - destruct (closed_rd hd) eqn:C.
    + rewrite (run_receiveFromHandle_probed_closed _ _ _ _ _ E P C).
      eexists _, _, _. split; [done|]. by eexists.
    + rewrite (run_receiveFromHandle_probed _ _ _ _ _ E P C).
      destruct (s >? cap); eexists _, _, _; (split; [done|]); cbn [heap].
      * by eexists.
      * rewrite lookup_insert_eq. by eexists.
  - assert (fst (probed hd) = false) as P' by (by rewrite P).
    rewrite (run_receiveFromHandle_unprobed _ _ _ _ E P').
    destruct (closed_rd hd) eqn:C.
    + rewrite (run_probeHandle_closed _ _ _ _ _ E P' C). cbn.
      eexists _, _, _. split; [done|]. by eexists.
    + destruct (probeHandle_unprobed w h hd 0 true E P' C) as (r1 & w1 & -> & Hcase).
      destruct Hcase as [(Hpos & Hs & -> & ->)|(_ & Hle & hp & e' & evs & -> & Hhp & Hevs)].
      * destruct (_ <=? 0) eqn:Hle; [apply Z.leb_le in Hle; lia|].
        erewrite (run_receiveFromHandle_probed _ h)
          by (first [apply lookup_insert_eq | reflexivity]).
        cbn [heap errno trace closed_wr chan].
        destruct (_ >? cap); eexists _, _, _; (split; [done|]); cbn [heap];
          rewrite lookup_insert_eq; by eexists.
      * destruct (r1 <=? 0) eqn:Hle'; [|apply Z.leb_gt in Hle'; lia].
        eexists _, _, _. split; [done|]. destruct Hhp as (hd' & Hhd' & _). by eexists.
Qed.

(** the tail shared by the two non-root paths: receive the result, close
    on end of stream, and return a value computed before the receive *)
Lemma run_receive_result w h hd recvsize (rb : buffer) (retval : Z) :
  heap w !! h = Some hd →
  ∃ rb' w',
    (let* '(res, data) := receiveFromHandle h recvsize in
     (if res =? 0 then Handle_close h true false else ret tt);;
     ret (retval, Some (store_bytes rb 0 data))) w = Some ((retval, rb'), w').
Proof.
  intros E. destruct (receiveFromHandle_total w h hd recvsize E)
    as (r & data & w' & Hrun & [hd' Hhd']).
  unfold bind at 1. rewrite Hrun. unfold bind at 1.
  destruct (r =? 0).
  - rewrite (run_Handle_close _ _ _ _ _ Hhd'). by eexists _, _.
  - by eexists _, _.
Qed.

(** On a non-root, once the share has been sent, [AllGatherGeneric::sendrecv]
    returns the size of the share, whatever the frame-receive returns. *)
Lemma AllGather_nonroot_return (c : AllGatherGeneric.t) (sb rb : buffer)
    sendsize recvsize datasize w h rest hd :
  AllGatherGeneric.root c = false →
  participants (AllGatherGeneric.base c) = h :: rest →
  heap w !! h = Some hd →
  datasize ≠ 0 → recvsize mod datasize = 0 →
  nparticipants (AllGatherGeneric.base c) ≠ 0 →
  let n := nparticipants (AllGatherGeneric.base c) in
  let datacount := recvsize / datasize in
  let recvcount := wrap64 ((datacount / n) * datasize) in
  let rcount := datacount mod n in
  let chunksize :=
    if negb (rcount =? 0) && (rank (AllGatherGeneric.base c) <? to_int rcount)
    then wrap64 (recvcount + datasize) else recvcount in
  chunksize ≤ sendsize →
  0 ≤ sr_ret (t_send (take (Z.to_nat chunksize) sb) (chan hd)).1 →
  ∃ rb' w',
    AllGatherGeneric.sendrecv c (Some sb) sendsize (Some rb) recvsize datasize w
      = Some ((to_ssize chunksize, rb'), w').
Proof.
  intros Hroot Hps E Hds Hdiv Hn n datacount recvcount rcount chunksize Hfit Hsent.
  unfold AllGatherGeneric.sendrecv. rewrite Hroot, Hps, Hdiv.
  destruct (Z.eqb_spec datasize 0); [done|]. cbn [Z.eqb negb].
  destruct (Z.eqb_spec (nparticipants (AllGatherGeneric.base c)) 0); [done|].
  cbv zeta. fold n datacount recvcount rcount chunksize.
  destruct (Z.gtb_spec chunksize sendsize); [lia|].
  unfold bind at 1. rewrite (run_at_ _ 0 h) by done.
  unfold bind at 1. rewrite (run_Handle_send _ _ _ _ E). cbv beta iota zeta.
  destruct (Z.ltb_spec (sr_ret (t_send (take (Z.to_nat chunksize) sb) (chan hd)).1) 0); [lia|].
  eapply run_receive_result. cbn [heap]. apply lookup_insert_eq.
Qed.

(** The same on a non-root of Alltoall: the value returned is the size
    computed before any transfer. *)
Lemma Alltoall_nonroot_return (c : AlltoallGeneric.t) (sb rb : buffer)
    sendsize recvsize datasize w h rest hd :
  AlltoallGeneric.root c = false →
  participants (AlltoallGeneric.base c) = h :: rest →
  heap w !! h = Some hd →
  datasize ≠ 0 → sendsize mod datasize = 0 →
  nparticipants (AlltoallGeneric.base c) ≠ 0 →
  let n := nparticipants (AlltoallGeneric.base c) in
  let datacount := sendsize / datasize in
  let sendcount := wrap64 ((datacount / n) * datasize) in
  let rcount := datacount mod n in
  let selfrecvcount :=
    wrap64 (wrap64 (sendcount +
                    (if negb (rcount =? 0) && (rank (AlltoallGeneric.base c) <? to_int rcount)
                     then datasize else 0)) * n) in
  selfrecvcount ≤ recvsize →
  0 ≤ sr_ret (t_send (take (Z.to_nat sendsize) sb) (chan hd)).1 →
  ∃ rb' w',
    AlltoallGeneric.sendrecv c (Some sb) sendsize (Some rb) recvsize datasize w
      = Some ((to_ssize selfrecvcount, rb'), w').
Proof.
  intros Hroot Hps E Hds Hdiv Hn n datacount sendcount rcount selfrecvcount Hfit Hsent.
  unfold AlltoallGeneric.sendrecv. rewrite Hroot, Hps, Hdiv.
  destruct (Z.eqb_spec datasize 0); [done|]. cbn [Z.eqb negb].
  destruct (Z.eqb_spec (nparticipants (AlltoallGeneric.base c)) 0); [done|].
  cbv zeta. fold n datacount sendcount rcount selfrecvcount.
  destruct (Z.ltb_spec recvsize selfrecvcount); [lia|].
  unfold bind at 1. rewrite (run_at_ _ 0 h) by done.
  unfold bind at 1. rewrite (run_Handle_send _ _ _ _ E). cbv beta iota zeta.
  destruct (Z.ltb_spec (sr_ret (t_send (take (Z.to_nat sendsize) sb) (chan hd)).1) 0); [lia|].
  eapply run_receive_result. cbn [heap]. apply lookup_insert_eq.
Qed.

End NonRootFacts.

(** ** Which Handles an operation uses *)

Section FrameFacts.
Context {T : Type} `{Transport T}.
Implicit Types (w : World T) (hd : Handle T) (S : list nat).

Lemma stays_refl S w : stays S w w.
Proof.
  split_and!; [done|done|]. exists []. by rewrite app_nil_r.
Qed.

Lemma stays_trans S w1 w2 w3 : stays S w1 w2 → stays S w2 w3 → stays S w1 w3.
Proof.
  intros (Ho1 & Hv1 & evs1 & Ht1 & Hf1) (Ho2 & Hv2 & evs2 & Ht2 & Hf2).
  split_and!.
  - intros h Hh. by rewrite Ho2, Ho1.
  - intros h Hh. by apply Hv2, Hv1.
  - exists (evs1 ++ evs2). split; [by rewrite Ht2, Ht1, app_assoc|].
    by apply Forall_app.
Qed.

Lemma stays_mono S S' w w' : S ⊆ S' → stays S w w' → stays S' w w'.
Proof.
  intros Hsub (Ho & Hv & evs & Ht & Hf). split_and!.
  - intros h Hh. apply Ho. intros Hin. by apply Hh, Hsub.
  - done.
  - exists evs. split; [done|]. eapply Forall_impl; [done|]. intros e He. by apply Hsub.
Qed.

Lemma stays_errno S w e : stays S w (mkWorld (heap w) e (trace w)).
Proof.
  split_and!; [done|done|]. exists []. by rewrite app_nil_r.
Qed.

(** the step made by every method of a Handle *)
Lemma stays_step S w h hd e ev :
  h ∈ S → is_Some (heap w !! h) → handle_of ev = h →
  stays S w (mkWorld (<[h := hd]> (heap w)) e (trace w ++ [ev])).
Proof.
  intros Hin Hsome Hev. split_and!; cbn [heap trace].
  - intros h' Hh'. apply lookup_insert_ne. intros ->. done.
  - intros h' Hh'. apply lookup_insert_is_Some'. by right.
  - exists [ev]. split; [done|]. apply Forall_cons. split; [by rewrite Hev|done].
Qed.

Lemma stays_store S w h hd :
  h ∈ S → stays S w (mkWorld (<[h := hd]> (heap w)) (errno w) (trace w)).
Proof.
  intros Hin. split_and!; cbn [heap trace].
  - intros h' Hh'. apply lookup_insert_ne. intros ->. done.
  - intros h' Hh'. apply lookup_insert_is_Some'. by right.
  - exists []. by rewrite app_nil_r.
Qed.

Lemma confined_ret {A} S (a : A) : confined (T:=T) S (ret a).
Proof. intros w a' w' [= <- <-]. apply stays_refl. Qed.

Lemma confined_undefined {A} S : confined (T:=T) (A:=A) S undefined.
Proof. by intros w a w' ?. Qed.

Lemma confined_bind {A B} S (m : M T A) (k : A → M T B) :
  confined S m → (∀ a, confined S (k a)) → confined S (bind m k).
Proof.
  intros Hm Hk w b w' Hrun. unfold bind in Hrun.
  destruct (m w) as [[a w1]|] eqn:E; [|done].
  eapply stays_trans; [by eapply Hm|by eapply Hk].
Qed.

Lemma confined_mono {A} S S' (m : M T A) :
  S ⊆ S' → confined S m → confined S' m.
Proof. intros Hsub Hm w a w' Hrun. eapply stays_mono; [done|]. by eapply Hm. Qed.

Lemma confined_set_errno S e : confined (T:=T) S (set_errno e).
Proof. intros w a w' [= <- <-]. apply stays_errno. Qed.

Lemma confined_get_errno S : confined (T:=T) S get_errno.
Proof. intros w a w' [= <- <-]. apply stays_refl. Qed.

Lemma confined_at {A} S (v : list A) i : confined (T:=T) S (at_ v i).
Proof.
  intros w a w' Hrun. unfold at_ in Hrun.
  destruct (v !! Z.to_nat i); [|done]. injection Hrun as <- <-. apply stays_refl.
Qed.

Lemma confined_Handle_probe S h size blocking :
  h ∈ S → confined S (Handle_probe h size blocking).
Proof.
  intros Hin w a w' Hrun.
  destruct (heap w !! h) as [hd|] eqn:E.
  - rewrite (run_Handle_probe _ _ _ _ _ E) in Hrun. injection Hrun as <- <-.
    by apply stays_step.
  - unfold Handle_probe, bind, deref in Hrun. by rewrite E in Hrun.
Qed.

Lemma confined_Handle_receive S h cap :
  h ∈ S → confined S (Handle_receive h cap).
Proof.
  intros Hin w a w' Hrun.
  destruct (heap w !! h) as [hd|] eqn:E.
  - rewrite (run_Handle_receive _ _ _ _ E) in Hrun. injection Hrun as <- <-.
    by apply stays_step.
  - unfold Handle_receive, bind, deref in Hrun. by rewrite E in Hrun.
Qed.

Lemma confined_Handle_send S h data :
  h ∈ S → confined S (Handle_send h data).
Proof.
  intros Hin w a w' Hrun.
  destruct (heap w !! h) as [hd|] eqn:E.
  - rewrite (run_Handle_send _ _ _ _ E) in Hrun. injection Hrun as <- <-.
    by apply stays_step.
  - unfold Handle_send, bind, deref in Hrun. by rewrite E in Hrun.
Qed.

Lemma confined_Handle_close S h wr rd :
  h ∈ S → confined S (Handle_close h wr rd).
Proof.
  intros Hin w a w' Hrun.
  destruct (heap w !! h) as [hd|] eqn:E.
  - rewrite (run_Handle_close _ _ _ _ _ E) in Hrun. injection Hrun as <- <-.
    by apply stays_step.
  - unfold Handle_close, bind, deref in Hrun. by rewrite E in Hrun.
Qed.

Lemma confined_set_probed S h p :
  h ∈ S → confined (T:=T) S (set_probed h p).
Proof.
  intros Hin w a w' Hrun.
  destruct (heap w !! h) as [hd|] eqn:E.
  - rewrite (run_set_probed _ _ _ _ E) in Hrun. injection Hrun as <- <-.
    by apply stays_store.
  - unfold set_probed, bind, deref in Hrun. by rewrite E in Hrun.
Qed.

Lemma confined_deref S h : confined (T:=T) S (deref h).
Proof.
  intros w a w' Hrun. unfold deref in Hrun.
  destruct (heap w !! h); [|done]. injection Hrun as <- <-. apply stays_refl.
Qed.

(** a Handle taken from a vector is one of its elements *)
Lemma confined_at_bind {B} S (v : list nat) i (k : nat → M T B) :
  (∀ h, h ∈ v → confined S (k h)) → confined S (bind (at_ v i) k).
Proof.
  intros Hk w b w' Hrun. unfold bind, at_ in Hrun.
  destruct (v !! Z.to_nat i) as [h|] eqn:E; [|done].
  eapply Hk; [|done]. by eapply list_elem_of_lookup_2.
Qed.

End FrameFacts.

Ltac confined_step :=
  first
    [ apply confined_ret | apply confined_undefined | apply confined_set_errno
    | apply confined_get_errno | apply confined_deref
    | apply confined_Handle_probe; set_solver
    | apply confined_Handle_receive; set_solver
    | apply confined_Handle_send; set_solver
    | apply confined_Handle_close; set_solver
    | apply confined_set_probed; set_solver
    | apply confined_at_bind; intros ? ?
    | apply confined_bind; [|intros ?]
    | match goal with |- confined _ (if ?b then _ else _) => destruct b end
    | match goal with |- confined _ (match ?x with _ => _ end) => destruct x end ].

Ltac confined_auto := repeat confined_step.

Section FrameOps.
Context {T : Type} `{Transport T}.
Implicit Types (w : World T) (hd : Handle T) (S : list nat).

Lemma confined_probeHandle S h size blocking :
  h ∈ S → confined S (probeHandle h size blocking).
Proof. intros Hin. unfold probeHandle. confined_auto. Qed.

Lemma confined_receiveFromHandle S h size :
  h ∈ S → confined S (receiveFromHandle h size).
Proof.
  intros Hin. unfold receiveFromHandle. confined_auto;
    by apply confined_probeHandle.
Qed.

Lemma confined_close_loop S hs : hs ⊆ S → confined S (close_loop hs).
Proof.
  induction hs as [|h hs IH]; intros Hsub; cbn [close_loop]; [apply confined_ret|].
  apply confined_bind; [apply confined_Handle_close; set_solver|].
  intros _. apply IH. set_solver.
Qed.

Lemma confined_Broadcast_send_loop S hs sendbuff sendsize :
  hs ⊆ S → confined S (BroadcastGeneric.send_loop hs sendbuff sendsize).
Proof.
  induction hs as [|h hs IH]; intros Hsub; cbn [BroadcastGeneric.send_loop];
    [apply confined_ret|].
  confined_auto. apply IH. set_solver.
Qed.

Lemma confined_Scatter_sendrecv_loop S k (c : ScatterGeneric.t) :
  participants (ScatterGeneric.base c) ⊆ S →
  ∀ i rcount sendcount datasize sendbuff,
    confined S (ScatterGeneric.sendrecv_loop k c i rcount sendcount datasize sendbuff).
Proof.
  intros Hsub. induction k as [|k IH]; intros i rcount sendcount datasize sendbuff;
    cbn [ScatterGeneric.sendrecv_loop]; [apply confined_ret|].
  cbv zeta. destruct (rcount >? 0); confined_auto; apply IH.
Qed.

Lemma confined_FanIn_send_loop S hs data :
  hs ⊆ S → confined S (FanInGeneric.send_loop hs data).
Proof.
  induction hs as [|h hs IH]; intros Hsub; cbn [FanInGeneric.send_loop];
    [apply confined_ret|].
  confined_auto. apply IH. set_solver.
Qed.

Lemma confined_FanIn_probe_next S blocking (c : FanInGeneric.t) res iter size
    (continue : FanInGeneric.t → Z → nat → Z → M T (option (FanInGeneric.t * Z * Z))) :
  (∀ res iter size, confined S (continue c res iter size)) →
  confined S (FanInGeneric.probe_next continue blocking c res iter size).
Proof.
  intros Hk. unfold FanInGeneric.probe_next. confined_auto; apply Hk.
Qed.

Lemma confined_FanIn_probe_loop S fuel blocking : ∀ (c : FanInGeneric.t) res iter size,
  participants (FanInGeneric.base c) ⊆ S →
  confined S (FanInGeneric.probe_loop fuel blocking c res iter size).
Proof.
  induction fuel as [|fuel IH]; intros c res iter size Hsub;
    cbn [FanInGeneric.probe_loop]; [confined_auto|].
  assert (∀ c2 : FanInGeneric.t,
            participants (FanInGeneric.base c2) ⊆ S →
            ∀ res iter size,
              confined S (FanInGeneric.probe_next (FanInGeneric.probe_loop fuel blocking)
                                                  blocking c2 res iter size)) as Hnext.
  { intros c2 Hc2 res2 iter2 size2. apply confined_FanIn_probe_next.
    intros. by apply IH. }
  assert (delete iter (participants (FanInGeneric.base c)) ⊆ S) as Hdel.
  { intros h Hh. apply Hsub. by eapply list_elem_of_delete_inv. }
  destruct (_ && _); [|apply confined_ret].
  apply confined_at_bind. intros h Hh.
  apply confined_bind; [apply confined_Handle_probe; set_solver|].
  intros [res1 size1].
  destruct (_ && _).
  - cbv zeta. apply confined_bind; [apply confined_Handle_close; set_solver|].
    intros _. destruct (bool_decide _).
    + destruct blocking; [by apply IH|apply confined_ret].
    + by apply Hnext.
  - destruct (res1 >? 0).
    + cbv zeta. apply confined_bind; [apply confined_set_probed; set_solver|].
      intros _. by apply Hnext.
    + by apply Hnext.
Qed.

Lemma confined_Gather_gather_loop S k (c : GatherGeneric.t) :
  participants (GatherGeneric.base c) ⊆ S →
  ∀ i rcount recvcount datasize displ recvbuff,
    confined S (GatherGeneric.gather_loop k c i rcount recvcount datasize displ recvbuff).
Proof.
  intros Hsub. induction k as [|k IH]; intros i rcount recvcount datasize displ recvbuff;
    cbn [GatherGeneric.gather_loop]; [apply confined_ret|].
  cbv zeta. apply confined_at_bind. intros h Hh.
  apply confined_bind; [apply confined_receiveFromHandle; set_solver|].
  intros [r data]. destruct (r <=? 0); [apply confined_ret|apply IH].
Qed.

Lemma confined_AllGather_gather_loop S k (c : AllGatherGeneric.t) :
  participants (AllGatherGeneric.base c) ⊆ S →
  ∀ i rcount recvcount datasize displ recvbuff,
    confined S (AllGatherGeneric.gather_loop k c i rcount recvcount datasize displ recvbuff).
Proof.
  intros Hsub. induction k as [|k IH]; intros i rcount recvcount datasize displ recvbuff;
    cbn [AllGatherGeneric.gather_loop]; [apply confined_ret|].
  cbv zeta. apply confined_at_bind. intros h Hh.
  apply confined_bind; [apply confined_receiveFromHandle; set_solver|].
  intros [r data]. destruct (r <=? 0); [apply confined_ret|apply IH].
Qed.

Lemma confined_AllGather_reflect_loop S hs data :
  hs ⊆ S → confined S (AllGatherGeneric.reflect_loop hs data).
Proof.
  induction hs as [|h hs IH]; intros Hsub; cbn [AllGatherGeneric.reflect_loop];
    [apply confined_ret|].
  confined_auto. apply IH. set_solver.
Qed.

Lemma confined_Alltoall_collect_loop S k (c : AlltoallGeneric.t) :
  participants (AlltoallGeneric.base c) ⊆ S →
  ∀ i sendsize allsendbuff,
    confined S (AlltoallGeneric.collect_loop k c i sendsize allsendbuff).
Proof.
  intros Hsub. induction k as [|k IH]; intros i sendsize allsendbuff;
    cbn [AlltoallGeneric.collect_loop]; [apply confined_ret|].
  apply confined_at_bind. intros h Hh.
  apply confined_bind; [apply confined_receiveFromHandle; set_solver|].
  intros [r data]. cbv zeta. destruct (_ <=? 0); [apply confined_ret|apply IH].
Qed.

Lemma confined_Alltoall_route_loop S k (c : AlltoallGeneric.t) :
  participants (AlltoallGeneric.base c) ⊆ S →
  ∀ i rcount sendcount datasize displ sendsize sendbuff allsendbuff recvbuff,
    confined S (AlltoallGeneric.route_loop k c i rcount sendcount datasize displ
                                           sendsize sendbuff allsendbuff recvbuff).
Proof.
  intros Hsub. induction k as [|k IH];
    intros i rcount sendcount datasize displ sendsize sendbuff allsendbuff recvbuff;
    cbn [AlltoallGeneric.route_loop]; [apply confined_ret|].
  cbv zeta. destruct (rcount >? 0); destruct (negb (i =? 0));
    confined_auto; apply IH.
Qed.

End FrameOps.

(** ** The [close] methods *)

Section CloseFacts.
Context {T : Type} `{Transport T}.
Implicit Types (w : World T) (hd : Handle T).

Lemma close_loop_spec (hs : list nat) : ∀ w,
  (∀ h, h ∈ hs → is_Some (heap w !! h)) →
  ∃ w', close_loop hs w = Some (tt, w')
    ∧ trace w' = trace w ++ closes_of hs
    ∧ errno w' = errno w
    ∧ ∀ h hd, heap w !! h = Some hd →
        ∃ hd', heap w' !! h = Some hd'
          ∧ probed hd' = probed hd
          ∧ closed_rd hd' = closed_rd hd
          ∧ closed_wr hd' = closed_wr hd || bool_decide (h ∈ hs).
Proof.
  induction hs as [|h0 hs IH]; intros w Hvalid.
  - exists w. split_and!; try done.
    + by rewrite app_nil_r.
    + intros h hd E. exists hd. split_and!; try done.
      rewrite bool_decide_eq_false_2 by apply not_elem_of_nil. by rewrite orb_false_r.
  - destruct (Hvalid h0) as [hd0 E0]; [by left|].
    cbn [close_loop]. unfold bind at 1. rewrite (run_Handle_close _ _ _ _ _ E0).
    match goal with |- context [close_loop hs ?w1] => remember w1 as w1' eqn:Hw1 end.
    destruct (IH w1') as (w' & Hrun & Htr & Herr & Hflags).
    { intros h Hh. rewrite Hw1; cbn [heap]. apply lookup_insert_is_Some'. right.
      apply Hvalid. by right. }
    exists w'. split_and!.
    + done.
    + rewrite Htr, Hw1; cbn [trace]. by rewrite <- app_assoc.
    + by rewrite Herr, Hw1.
    + intros h hd E. destruct (decide (h = h0)) as [->|Hne].
      * destruct (Hflags h0 (mkHandle (probed hd0) (closed_rd hd0 || false)
                                      (closed_wr hd0 || true) (t_close true false (chan hd0))))
          as (hd' & E' & Hp & Hrd & Hwr).
        { rewrite Hw1; cbn [heap]. apply lookup_insert_eq. }
        assert (hd = hd0) as -> by congruence.
        exists hd'. cbn [probed closed_rd closed_wr] in *. split_and!; try done.
        -- by rewrite Hrd, orb_false_r.
        -- rewrite Hwr. rewrite (bool_decide_eq_true_2 (h0 ∈ h0 :: hs)) by (by left).
           by rewrite !orb_true_r.
      * destruct (Hflags h hd) as (hd' & E' & Hp & Hrd & Hwr).
        { rewrite Hw1; cbn [heap]. by rewrite lookup_insert_ne. }
        exists hd'. split_and!; try done. rewrite Hwr. f_equal.
        apply bool_decide_ext. rewrite elem_of_cons. split; [by right|by intros [?|?]].
Qed.

(** X1.  [Broadcast], [Scatter] and [FanOut]: the [close] of the root
    half-closes (write side only) every participant once, in the order of
    [participants], whatever flags it was called with; the read side and
    the probed state of every Handle are as before, and so is [errno].
    The [close] of a non-root does nothing at all. *)
Theorem close_of_root_half_closes (b : CollectiveImpl.t) (root : bool) (current : Z)
    (close_wr close_rd : bool) w :
  (∀ h, h ∈ participants b → is_Some (heap w !! h)) →
  ∃ w',
    BroadcastGeneric.close (BroadcastGeneric.mk b root) close_wr close_rd w = Some (tt, w')
    ∧ ScatterGeneric.close (ScatterGeneric.mk b root) close_wr close_rd w = Some (tt, w')
    ∧ FanOutGeneric.close (FanOutGeneric.mk b current root) close_wr close_rd w
        = Some (tt, w')
    ∧ (root = false → w' = w)
    ∧ (root = true → events_since w w' = closes_of (participants b))
    ∧ errno w' = errno w
    ∧ ∀ h hd, heap w !! h = Some hd →
        ∃ hd', heap w' !! h = Some hd'
          ∧ probed hd' = probed hd
          ∧ closed_rd hd' = closed_rd hd
          ∧ closed_wr hd' = closed_wr hd || (root && bool_decide (h ∈ participants b)).
Proof.
  intros Hvalid. destruct root.
  - destruct (close_loop_spec (participants b) w Hvalid) as (w' & Hrun & Htr & Herr & Hfl).
    exists w'. split_and!; try done.
    intros _. unfold events_since. rewrite Htr. apply drop_app_length.
  - exists w. split_and!; try done.
    intros h hd E. exists hd. split_and!; try done. by rewrite orb_false_r.
Qed.

(** X2.  [Gather], [AllGather] and [Alltoall]: the [close] of any rank, root or
    not, half-closes (write side only) every participant once, in the
    order of [participants], whatever flags it was called with; no read
    side is closed. *)
Theorem close_of_any_rank_half_closes (b : CollectiveImpl.t) (root : bool)
    (close_wr close_rd : bool) w :
  (∀ h, h ∈ participants b → is_Some (heap w !! h)) →
  ∃ w',
    GatherGeneric.close (GatherGeneric.mk b root) close_wr close_rd w = Some (tt, w')
    ∧ AllGatherGeneric.close (AllGatherGeneric.mk b root) close_wr close_rd w
        = Some (tt, w')
    ∧ AlltoallGeneric.close (AlltoallGeneric.mk b root) close_wr close_rd w
        = Some (tt, w')
    ∧ events_since w w' = closes_of (participants b)
    ∧ errno w' = errno w
    ∧ ∀ h hd, heap w !! h = Some hd →
        ∃ hd', heap w' !! h = Some hd'
          ∧ probed hd' = probed hd
          ∧ closed_rd hd' = closed_rd hd
          ∧ closed_wr hd' = closed_wr hd || bool_decide (h ∈ participants b).
Proof.
  intros Hvalid.
  destruct (close_loop_spec (participants b) w Hvalid) as (w' & Hrun & Htr & Herr & Hfl).
  exists w'. split_and!; try done.
  unfold events_since. rewrite Htr. apply drop_app_length.
Qed.

(** X3.  [FanIn]: the [close] of a non-root half-closes (write side only) its
    first participant and no other Handle, whatever flags it was called
    with, and throws when [participants] is empty; the [close] of the root
    does nothing, so the root never closes a Handle by [close]. *)
Theorem FanIn_close_half_closes_first (c : FanInGeneric.t) (close_wr close_rd : bool) w :
  (∀ h, h ∈ participants (FanInGeneric.base c) → is_Some (heap w !! h)) →
  (FanInGeneric.root c = true → FanInGeneric.close c close_wr close_rd w = Some (tt, w))
  ∧ (FanInGeneric.root c = false →
     match participants (FanInGeneric.base c) with
     | [] => FanInGeneric.close c close_wr close_rd w = None
     | h :: _ =>
       ∃ hd, heap w !! h = Some hd
         ∧ FanInGeneric.close c close_wr close_rd w =
             Some (tt, mkWorld (<[h := mkHandle (probed hd) (closed_rd hd) true
                                               (t_close true false (chan hd))]> (heap w))
                               (errno w) (trace w ++ [EvClose h true false]))
     end).
Proof.
  intros Hvalid. unfold FanInGeneric.close. split; intros ->; [done|]. cbn [negb].
  destruct (participants (FanInGeneric.base c)) as [|h rest] eqn:Hps; [done|].
  destruct (Hvalid h) as [hd E]; [by left|]. exists hd. split; [done|].
  unfold bind at 1. rewrite (run_at_ (h :: rest) 0 h) by done.
  rewrite (run_Handle_close _ _ _ _ _ E). by rewrite orb_false_r, orb_true_r.
Qed.

End CloseFacts.

(** ** The Framing Helper: what the returned value tells *)

Ltac lookup_heap :=
  simpl; first [ eassumption | apply lookup_insert_eq ].

Ltac run1 :=
  try unfold bind at 1;
  first
    [ erewrite run_deref by lookup_heap
    | erewrite run_Handle_probe by lookup_heap
    | erewrite run_Handle_receive by lookup_heap
    | erewrite run_Handle_send by lookup_heap
    | erewrite run_Handle_close by lookup_heap
    | erewrite run_set_probed by lookup_heap ];
  cbn [ret set_errno get_errno fst snd heap errno trace probed closed_rd closed_wr chan].

Section FramingStates.
Context {T : Type} `{Transport T}.
Implicit Types (w : World T) (hd : Handle T).

(** [probeHandle] on a Handle that is neither probed nor read-closed, case
    by case on what the probe of the transport answers *)
Lemma probeHandle_table w h hd size blocking :
  heap w !! h = Some hd → fst (probed hd) = false → closed_rd hd = false →
  let pr := (t_probe blocking (chan hd)).1 in
  let t' := (t_probe blocking (chan hd)).2 in
  let s := default size (pr_size pr) in
  let e := default (errno w) (pr_errno pr) in
  let tr := trace w ++ [EvProbe h blocking (pr_ret pr) s] in
  let closed wr :=
    mkWorld (<[h := mkHandle (probed hd) true (closed_wr hd || wr) (t_close wr true t')]>
               (heap w)) e (tr ++ [EvClose h wr true]) in
  let kept e' :=
    mkWorld (<[h := mkHandle (probed hd) false (closed_wr hd) t']> (heap w)) e' tr in
  probeHandle h size blocking w =
    Some (if 0 <? pr_ret pr then
            if s =? 0 then
              ((0, s), mkWorld (<[h := mkHandle (true, s) true (closed_wr hd)
                                                (t_close false true t')]> (heap w))
                               e (tr ++ [EvClose h false true]))
            else
              ((pr_ret pr, s),
               mkWorld (<[h := mkHandle (true, s) false (closed_wr hd) t']> (heap w)) e tr)
          else if pr_ret pr =? 0 then ((0, s), closed true)
          else if pr_ret pr =? -1 then
            if e =? ECONNRESET then ((0, s), closed true)
            else if (e =? EWOULDBLOCK) || (e =? EAGAIN) then ((-1, s), kept EWOULDBLOCK)
            else ((-1, s), kept e)
          else ((pr_ret pr, s), kept e)).
Proof.
  intros E P C pr t' s e tr closed kept. unfold probeHandle. run1. rewrite P, C.
  run1. fold pr t' s e tr.
  destruct (Z.leb_spec (pr_ret pr) 0) as [Hle|Hgt];
    destruct (Z.ltb_spec 0 (pr_ret pr)) as [Hlt|Hge]; try lia.
  - destruct (Z.eqb_spec (pr_ret pr) 0) as [H0|H0].
    + run1. subst closed. cbv beta. by rewrite insert_insert_eq, C.
    + destruct (Z.eqb_spec (pr_ret pr) (-1)) as [H1|H1].
      * unfold bind at 1. cbn [get_errno errno].
        destruct (e =? ECONNRESET).
        -- run1. subst closed. cbv beta. by rewrite insert_insert_eq, C.
        -- destruct ((e =? EWOULDBLOCK) || (e =? EAGAIN)).
           ++ unfold bind at 1. cbn [set_errno ret heap trace]. subst kept. cbv beta.
              by rewrite C.
           ++ cbn [ret]. subst kept. cbv beta. by rewrite H1, C.
      * cbn [ret]. subst kept. cbv beta. by rewrite C.
  - run1. destruct (s =? 0).
    + run1. by rewrite ?insert_insert_eq, ?C, ?orb_false_r.
    + cbn [ret]. by rewrite ?insert_insert_eq, ?C.
Qed.

Lemma probeHandle_states w h hd size blocking :
  heap w !! h = Some hd → pending_open hd → eos_marked hd →
  ∃ r s w' hd',
    probeHandle h size blocking w = Some ((r, s), w')
    ∧ heap w' !! h = Some hd'
    ∧ pending_open hd' ∧ eos_marked hd'
    ∧ (r = 0 → closed_rd hd' = true)
    ∧ (0 < r → probed hd' = (true, s) ∧ s ≠ 0 ∧ closed_rd hd' = false)
    ∧ (r < 0 → flags hd' = flags hd ∧ fst (probed hd') = false
               ∧ closed_rd hd' = false ∧ no_close (events_since w w'))
    ∧ (r = -1 → errno w' ≠ ECONNRESET).
Proof.
  intros E Hpo Hem. destruct (probed hd) as [[|] s0] eqn:P.
  - rewrite (run_probeHandle_probed _ _ _ _ _ _ E P).
    eexists _, _, _, hd. split; [reflexivity|]. split; [done|].
    unfold pending_open, eos_marked in *. rewrite P in *. cbn [fst snd] in *.
    destruct (Z.eqb_spec s0 0) as [->|Hs]; split_and!; try done; try (unfold sizeof_size_t; lia).
    + intros _. by apply Hem.
    + intros _. split_and!; [done|done|by apply Hpo].
  - assert (fst (probed hd) = false) as P' by (by rewrite P).
    destruct (closed_rd hd) eqn:C.
    + rewrite (run_probeHandle_closed _ _ _ _ _ E P' C).
      eexists _, _, _, hd. split; [reflexivity|]. split_and!; try done; lia.
    + rewrite (probeHandle_table _ _ _ _ _ E P' C). cbv zeta.
      set (pr := (t_probe blocking (chan hd)).1).
      set (s := default size (pr_size pr)).
      set (e := default (errno w) (pr_errno pr)).
      destruct (Z.ltb_spec 0 (pr_ret pr)) as [Hpos|Hnpos].
      * destruct (Z.eqb_spec s 0) as [Hs|Hs];
          eexists _, _, _, _; (split; [reflexivity|]); cbn [heap];
          (split; [apply lookup_insert_eq|]);
          unfold pending_open, eos_marked; cbn [probed closed_rd fst snd];
          split_and!; try done; try lia.
      * destruct (Z.eqb_spec (pr_ret pr) 0) as [H0|H0].
        { eexists _, _, _, _. split; [reflexivity|]. cbn [heap].
          split; [apply lookup_insert_eq|].
          unfold pending_open, eos_marked; cbn [probed closed_rd fst snd]. rewrite P.
          split_and!; try done; lia. }
        destruct (Z.eqb_spec (pr_ret pr) (-1)) as [H1|H1].
        { destruct (Z.eqb_spec e ECONNRESET) as [He|He].
          - eexists _, _, _, _. split; [reflexivity|]. cbn [heap].
            split; [apply lookup_insert_eq|].
            unfold pending_open, eos_marked; cbn [probed closed_rd fst snd]. rewrite P.
            split_and!; try done; lia.
          - destruct ((e =? EWOULDBLOCK) || (e =? EAGAIN));
              eexists _, _, _, _; (split; [reflexivity|]); cbn [heap];
              (split; [apply lookup_insert_eq|]);
              unfold pending_open, eos_marked, flags; cbn [probed closed_rd closed_wr fst snd errno];
              rewrite ?P, ?C; split_and!; try done; try lia;
              intros _; split_and!; try done;
              rewrite events_since_app; by apply Forall_cons. }
        eexists _, _, _, _. split; [reflexivity|]. cbn [heap].
        split; [apply lookup_insert_eq|].
        unfold pending_open, eos_marked, flags; cbn [probed closed_rd closed_wr fst snd errno].
        rewrite ?P, ?C. split_and!; try done; try lia.
        intros _. split_and!; try done.
        rewrite events_since_app. by apply Forall_cons.
Qed.

(** a Handle at end of stream: [probeHandle] and [receiveFromHandle]
    answer 0 and change nothing *)
Lemma probeHandle_at_eos w h hd size blocking :
  heap w !! h = Some hd → pending_open hd → closed_rd hd = true →
  probeHandle h size blocking w
    = Some ((0, if fst (probed hd) then 0 else size), w).
Proof.
  intros E Hpo C. destruct (probed hd) as [[|] s0] eqn:P.
  - rewrite (run_probeHandle_probed _ _ _ _ _ _ E P). cbn [fst].
    destruct (Z.eqb_spec s0 0) as [->|Hs]; [done|].
    unfold pending_open in Hpo. rewrite P in Hpo. cbn [fst snd] in Hpo.
    rewrite Hpo in C; done.
  - apply (run_probeHandle_closed _ _ _ _ _ E); [by rewrite P|done].
Qed.

Lemma probeHandle_times_at_eos w h hd n size blocking :
  heap w !! h = Some hd → pending_open hd → closed_rd hd = true →
  probeHandle_times n h size blocking w
    = Some (replicate n (0, if fst (probed hd) then 0 else size), w).
Proof.
  intros E Hpo C. induction n as [|n IH]; [done|].
  cbn [probeHandle_times]. unfold bind at 1.
  rewrite (probeHandle_at_eos _ _ _ _ _ E Hpo C). unfold bind at 1. cbn [snd].
  destruct (fst (probed hd)) eqn:P.
  - assert (probeHandle_times n h 0 blocking w = Some (replicate n (0, 0), w)) as ->; [|done].
    clear IH. induction n as [|n IH]; [done|].
    cbn [probeHandle_times]. unfold bind at 1.
    rewrite (probeHandle_at_eos _ _ _ _ _ E Hpo C), P. unfold bind at 1. cbn [snd].
    by rewrite IH.
  - by rewrite IH.
Qed.

Lemma receiveFromHandle_at_eos w h hd cap :
  heap w !! h = Some hd → pending_open hd → closed_rd hd = true →
  receiveFromHandle h cap w = Some ((0, []), w).
Proof.
  intros E Hpo C. destruct (probed hd) as [[|] s0] eqn:P.
  - by apply (run_receiveFromHandle_probed_closed _ _ _ _ _ E P).
  - assert (fst (probed hd) = false) as P' by (by rewrite P).
    rewrite (run_receiveFromHandle_unprobed _ _ _ _ E P').
    by rewrite (run_probeHandle_closed _ _ _ _ _ E P' C).
Qed.

(** X4.  The value returned by [probeHandle] tells the state in which the
    Handle is left.  On a Handle in a state of the Framing Helper (a
    pending size is positive exactly when the Handle is not read-closed)
    the call returns, keeps the Handle in such a state, and: 0 means that
    the Handle is now read-closed; a positive value means that a frame of
    the reported size [s > 0] is pending on an open Handle; a negative
    value means that the Handle is as before (unprobed, open, flags
    unchanged) and that no [close] was called, so that the probe can be
    tried again; -1 is never returned with [ECONNRESET] in [errno]. *)
Theorem probeHandle_result_tells_state w h hd size blocking :
  heap w !! h = Some hd → pending_open hd → eos_marked hd →
  ∃ r s w' hd',
    probeHandle h size blocking w = Some ((r, s), w')
    ∧ heap w' !! h = Some hd'
    ∧ pending_open hd' ∧ eos_marked hd'
    ∧ (r = 0 → closed_rd hd' = true)
    ∧ (0 < r → probed hd' = (true, s) ∧ s ≠ 0 ∧ closed_rd hd' = false)
    ∧ (r < 0 → flags hd' = flags hd ∧ fst (probed hd') = false
               ∧ closed_rd hd' = false ∧ no_close (events_since w w'))
    ∧ (r = -1 → errno w' ≠ ECONNRESET).
Proof. apply probeHandle_states. Qed.

(** X5.  End of stream is final.  Once [probeHandle] has returned 0 for a
    Handle, every later [probeHandle] and every later [receiveFromHandle]
    on it returns 0 again without calling any method of the Handle: the
    world is given back as it was. *)
Theorem probeHandle_eos_is_final w h hd size blocking s w' :
  heap w !! h = Some hd → pending_open hd → eos_marked hd →
  probeHandle h size blocking w = Some ((0, s), w') →
  (∀ n size2 blocking2, ∃ s2,
     probeHandle_times n h size2 blocking2 w' = Some (replicate n (0, s2), w'))
  ∧ ∀ cap, receiveFromHandle h cap w' = Some ((0, []), w').
Proof.
  intros E Hpo Hem Hrun.
  destruct (probeHandle_states w h hd size blocking E Hpo Hem)
    as (r & s1 & w1 & hd' & Hrun' & E' & Hpo' & _ & Hzero & _).
  rewrite Hrun in Hrun'. injection Hrun' as <- <- <-.
  specialize (Hzero eq_refl). split.
  - intros n size2 blocking2. eexists.
    by apply (probeHandle_times_at_eos w' h hd').
  - intros cap. by apply (receiveFromHandle_at_eos w' h hd').
Qed.

End FramingStates.

(** ** Broadcast *)

Section BroadcastFacts.
Context {T : Type} `{Transport T}.
Implicit Types (w : World T) (hd : Handle T).

(** The loop of the root: the same bytes to every Handle in turn, until
    a send fails. *)
Lemma Broadcast_send_loop_spec (sb : buffer) sendsize (hs : list nat) : ∀ w,
  (∀ h, h ∈ hs → is_Some (heap w !! h)) →
  let data := take (Z.to_nat sendsize) sb in
  ∃ completed w' evs,
    BroadcastGeneric.send_loop hs (Some sb) sendsize w = Some (completed, w')
    ∧ trace w' = trace w ++ evs
    ∧ (∀ h, is_Some (heap w !! h) → is_Some (heap w' !! h))
    ∧ (∀ i ev, evs !! i = Some ev → ∃ h ret, hs !! i = Some h ∧ ev = EvSend h data ret)
    ∧ (if completed then sends_ok evs ∧ length evs = length hs
       else errno w' = ECONNRESET
            ∧ ∃ evs0 h ret, evs = evs0 ++ [EvSend h data ret] ∧ sends_ok evs0 ∧ ret < 0).
Proof.
  intros w Hvalid data. revert w Hvalid.
  induction hs as [|h hs IH]; intros w Hvalid.
  - exists true, w, []. split_and!; try done.
    + by rewrite app_nil_r.
    + by apply Forall_nil.
  - destruct (Hvalid h) as [hd Hhd]; [by left|].
    cbn [BroadcastGeneric.send_loop]. fold data.
    unfold bind at 1. rewrite (run_Handle_send _ _ _ _ Hhd). cbv zeta.
    destruct (t_send data (chan hd)) as [sr t'] eqn:Hsend. cbn [fst snd].
    match goal with |- context [_ ?w = Some _] =>
      match w with mkWorld _ _ _ => remember w as w1 eqn:Hw1 end end.
    assert (∀ h', is_Some (heap w !! h') → is_Some (heap w1 !! h')) as Hmono.
    { intros h' Hh'. rewrite Hw1; cbn [heap]. apply lookup_insert_is_Some'. by right. }
    destruct (Z.ltb_spec (sr_ret sr) 0) as [Hneg|Hpos].
    + exists false, (mkWorld (heap w1) ECONNRESET (trace w1)), [EvSend h data (sr_ret sr)].
      split_and!; try done.
      * by rewrite Hw1.
      * intros [|i] ev Hi; [|done]. injection Hi as <-. by exists h, (sr_ret sr).
      * exists [], h, (sr_ret sr). split_and!; [done|by apply Forall_nil|done].
    + destruct (IH w1) as (completed & w' & evs & Hrun & Htr & Hval & Hev & Hfin).
      { intros h' Hh'. apply Hmono, Hvalid. by right. }
      rewrite Hrun. exists completed, w', (EvSend h data (sr_ret sr) :: evs).
      split_and!; try done.
      * rewrite Htr, Hw1; cbn [trace]. by rewrite <- app_assoc.
      * intros h' Hh'. by apply Hval, Hmono.
      * intros [|i] ev Hi.
        -- injection Hi as <-. by exists h, (sr_ret sr).
        -- by apply Hev.
      * destruct completed.
        -- destruct Hfin as [Hok Hlen]. split; [|cbn; lia].
           apply Forall_cons. split; [lia|done].
        -- destruct Hfin as (He & evs0 & h2 & ret & -> & Hok & Hret). split; [done|].
           exists (EvSend h data (sr_ret sr) :: evs0), h2, ret. split_and!; try done.
           apply Forall_cons. split; [lia|done].
Qed.

Lemma sends_ok_failed evs0 h data ret :
  ret < 0 → ¬ sends_ok (evs0 ++ [EvSend h data ret]).
Proof.
  intros Hret Hok. apply Forall_app in Hok as [_ Hok].
  apply Forall_cons in Hok as [Hok _]. lia.
Qed.

(** X6.  Broadcast at the root.  With a non-null [sendbuff], [sendrecv] calls
    nothing but [send], on the participants in their order, each time
    with the first [sendsize] bytes of [sendbuff].  When no send fails,
    every participant is sent to, the call returns [sendsize], and a
    non-null [recvbuff] receives a copy of these [sendsize] bytes,
    whatever [recvsize] and [datasize] are (they are not looked at).  The
    first send that fails is the last call made: the result is -1 with
    [ECONNRESET], and [recvbuff] is left as it was. *)
Theorem Broadcast_root_sendrecv (c : BroadcastGeneric.t) (sb : buffer) sendsize
    (recvbuff : option buffer) recvsize datasize w :
  BroadcastGeneric.root c = true →
  0 ≤ sendsize ≤ SSIZE_MAX →
  (∀ h, h ∈ participants (BroadcastGeneric.base c) → is_Some (heap w !! h)) →
  let data := take (Z.to_nat sendsize) sb in
  ∃ r rb' w',
    BroadcastGeneric.sendrecv c (Some sb) sendsize recvbuff recvsize datasize w
      = Some ((r, rb'), w')
    ∧ (∀ i ev, events_since w w' !! i = Some ev →
         ∃ h ret, participants (BroadcastGeneric.base c) !! i = Some h
                  ∧ ev = EvSend h data ret)
    ∧ (sends_ok (events_since w w') →
         r = sendsize
         ∧ length (events_since w w') = length (participants (BroadcastGeneric.base c))
         ∧ rb' = (λ rb, data ++ drop (Z.to_nat sendsize) rb) <$> recvbuff)
    ∧ (¬ sends_ok (events_since w w') →
         r = -1 ∧ errno w' = ECONNRESET ∧ rb' = recvbuff
         ∧ ∃ evs0 h ret, events_since w w' = evs0 ++ [EvSend h data ret]
                         ∧ sends_ok evs0 ∧ ret < 0).
Proof.
  intros Hroot Hsz Hvalid data.
  destruct (Broadcast_send_loop_spec sb sendsize _ w Hvalid)
    as (completed & w' & evs & Hrun & Htr & _ & Hev & Hfin).
  unfold BroadcastGeneric.sendrecv. rewrite Hroot. unfold bind at 1. rewrite Hrun.
  destruct completed.
  - destruct Hfin as [Hok Hlen].
    exists sendsize, ((λ rb, data ++ drop (Z.to_nat sendsize) rb) <$> recvbuff), w'.
    rewrite (events_since_trace _ _ _ Htr). split_and!; try done.
    destruct recvbuff as [rb|]; cbn [ret fmap option_fmap option_map];
      by rewrite to_ssize_small by lia.
  - destruct Hfin as (He & evs0 & h & ret & -> & Hok & Hret).
    exists (-1), recvbuff, w'.
    rewrite (events_since_trace _ _ _ Htr). split_and!; try done.
    + intros Hok'. by apply sends_ok_failed in Hok'.
    + intros _. split_and!; try done. by exists evs0, h, ret.
Qed.

(** On a non-root, Broadcast and Scatter are the same function. *)
Lemma Broadcast_nonroot_as_Scatter (b : CollectiveImpl.t) sendbuff sendsize
    (rb : buffer) recvsize datasize w :
  BroadcastGeneric.sendrecv (BroadcastGeneric.mk b false) sendbuff sendsize
                            (Some rb) recvsize datasize w
  = ScatterGeneric.sendrecv (ScatterGeneric.mk b false) sendbuff sendsize
                            (Some rb) recvsize datasize w.
Proof.
  unfold BroadcastGeneric.sendrecv, ScatterGeneric.sendrecv.
  cbn [BroadcastGeneric.root ScatterGeneric.root BroadcastGeneric.base ScatterGeneric.base].
  unfold bind. destruct (at_ (participants b) 0 w) as [[h w0]|]; [|done].
  destruct (receiveFromHandle h recvsize w0) as [[[res data] w1]|]; [|done].
  by destruct (if res =? 0 then Handle_close h true false else ret tt) as [[? ?]|].
Qed.

Lemma store_bytes_nil (rb : buffer) : store_bytes rb 0 [] = rb.
Proof. unfold store_bytes, memcpy_at. cbn. by rewrite drop_0. Qed.

Lemma Scatter_nonroot_frame (b : CollectiveImpl.t) sendbuff sendsize
    (rb : buffer) recvsize datasize w h rest hd :
  participants b = h :: rest →
  heap w !! h = Some hd → fst (probed hd) = false → closed_rd hd = false →
  0 ≤ recvsize →
  let pr := (t_probe true (chan hd)).1 in
  let t1 := (t_probe true (chan hd)).2 in
  let s := default 0 (pr_size pr) in
  let probe := EvProbe h true (pr_ret pr) s in
  ∃ r rb' w' hd',
    ScatterGeneric.sendrecv (ScatterGeneric.mk b false) sendbuff sendsize
                              (Some rb) recvsize datasize w = Some ((r, Some rb'), w')
    ∧ heap w' !! h = Some hd'
    ∧ (0 < pr_ret pr → 0 < s ≤ recvsize →
         let rr := (t_receive s t1).1 in
         r = rr_ret rr
         ∧ rb' = store_bytes rb 0 (take (Z.to_nat s) (rr_data rr))
         ∧ probed hd' = (false, 0)
         ∧ events_since w w' =
             probe :: EvReceive h s (rr_ret rr)
                   :: (if rr_ret rr =? 0 then [EvClose h true false] else []))
    ∧ (0 < pr_ret pr → recvsize < s →
         r = -1 ∧ errno w' = ENOMEM ∧ rb' = rb ∧ probed hd' = (true, s)
         ∧ events_since w w' = [probe])
    ∧ ((0 < pr_ret pr ∧ s = 0) ∨ pr_ret pr = 0
       ∨ (pr_ret pr = -1 ∧ default (errno w) (pr_errno pr) = ECONNRESET) →
         r = 0 ∧ rb' = rb ∧ closed_rd hd' = true ∧ closed_wr hd' = true
         ∧ ∃ wr, events_since w w' = [probe; EvClose h wr true; EvClose h true false])
    ∧ (r < 0 → closed_rd hd' = false ∧ closed_wr hd' = closed_wr hd).
Proof.
  intros Hps E P C Hcap pr t1 s probe.
  unfold ScatterGeneric.sendrecv.
  cbn [ScatterGeneric.root ScatterGeneric.base]. rewrite Hps.
  unfold bind at 1. rewrite (run_at_ _ 0 h) by done.
  unfold bind at 1.
  rewrite (run_receiveFromHandle_unprobed _ _ _ _ E P).
  rewrite (probeHandle_table _ _ _ _ _ E P C). cbv zeta. fold pr t1 s probe.
  set (e := default (errno w) (pr_errno pr)).
  destruct (Z.ltb_spec 0 (pr_ret pr)) as [Hpos|Hnpos].
  - destruct (Z.eqb_spec s 0) as [Hs|Hs].
    + (* a frame of size 0 *)
      cbn [Z.leb Z.compare Z.eqb]. unfold bind at 1.
      erewrite run_Handle_close by (cbn [heap]; apply lookup_insert_eq).
      cbn [ret heap errno trace probed closed_rd closed_wr chan].
      eexists 0, rb, _, _. rewrite store_bytes_nil.
      split; [reflexivity|]. cbn [heap].
      split; [apply lookup_insert_eq|]. cbn [probed closed_rd closed_wr].
      split_and!.
      * intros; lia.
      * intros; lia.
      * intros _. split_and!; try done; [by rewrite orb_true_r|].
        exists false. rewrite <- !app_assoc. apply events_since_app.
      * intros; lia.
    + destruct (Z.leb_spec (pr_ret pr) 0) as [?|_]; [lia|].
      erewrite (run_receiveFromHandle_probed _ h)
        by (first [apply lookup_insert_eq | reflexivity]).
      cbn [heap errno trace closed_wr chan].
      destruct (Z.gtb_spec s recvsize) as [Hbig|Hfit].
      * (* a frame that does not fit *)
        unfold bind at 1. cbn [Z.eqb ret].
        eexists (-1), rb, _, _. rewrite store_bytes_nil.
        split; [reflexivity|]. cbn [heap].
        split; [apply lookup_insert_eq|]. cbn [probed closed_rd closed_wr errno trace].
        split_and!.
        -- intros; lia.
        -- intros _ _. split_and!; try done. apply events_since_app.
        -- intros [[_ ?]|[?|[? _]]]; lia.
        -- done.
      * (* a frame that fits *)
        rewrite Z.min_l by lia. rewrite insert_insert_eq.
        set (rr := (t_receive s t1).1). set (t2 := (t_receive s t1).2).
        destruct (Z.eqb_spec (rr_ret rr) 0) as [Hz|Hnz].
        -- unfold bind at 1.
           erewrite run_Handle_close by (cbn [heap]; apply lookup_insert_eq).
           cbn [ret heap errno trace probed closed_rd closed_wr chan].
           eexists _, _, _, _.
           split; [reflexivity|]. cbn [heap].
           split; [apply lookup_insert_eq|]. cbn [probed closed_rd closed_wr errno trace].
           split_and!.
           ++ intros _ _. split_and!; try done.
              rewrite <- !app_assoc. apply events_since_app.
           ++ intros; lia.
           ++ intros [[_ ?]|[?|[? _]]]; lia.
           ++ intros; lia.
        -- unfold bind at 1. cbn [ret].
           eexists _, _, _, _.
           split; [reflexivity|]. cbn [heap].
           split; [apply lookup_insert_eq|]. cbn [probed closed_rd closed_wr errno trace].
           split_and!.
           ++ intros _ _. split_and!; try done.
              rewrite <- !app_assoc. apply events_since_app.
           ++ intros; lia.
           ++ intros [[_ ?]|[?|[? _]]]; lia.
           ++ done.
  - destruct (Z.eqb_spec (pr_ret pr) 0) as [H0|H0].
    { cbn [Z.leb Z.compare Z.eqb]. unfold bind at 1.
      erewrite run_Handle_close by (cbn [heap]; apply lookup_insert_eq).
      cbn [ret heap errno trace probed closed_rd closed_wr chan].
      eexists 0, rb, _, _. rewrite store_bytes_nil.
      split; [reflexivity|]. cbn [heap].
      split; [apply lookup_insert_eq|]. cbn [probed closed_rd closed_wr].
      split_and!.
      - intros; lia.
      - intros; lia.
      - intros _. split_and!; try done; [by rewrite !orb_true_r|].
        exists true. rewrite <- !app_assoc. apply events_since_app.
      - intros; lia. }
    destruct (Z.eqb_spec (pr_ret pr) (-1)) as [H1|H1].
    + destruct (Z.eqb_spec e ECONNRESET) as [He|He].
      { cbn [Z.leb Z.compare Z.eqb]. unfold bind at 1.
        erewrite run_Handle_close by (cbn [heap]; apply lookup_insert_eq).
        cbn [ret heap errno trace probed closed_rd closed_wr chan].
        eexists 0, rb, _, _. rewrite store_bytes_nil.
        split; [reflexivity|]. cbn [heap].
        split; [apply lookup_insert_eq|]. cbn [probed closed_rd closed_wr].
        split_and!.
        - intros; lia.
        - intros; lia.
        - intros _. split_and!; try done; [by rewrite !orb_true_r|].
          exists true. rewrite <- !app_assoc. apply events_since_app.
        - intros; lia. }
      destruct ((e =? EWOULDBLOCK) || (e =? EAGAIN));
        cbn [Z.leb Z.compare Z.eqb]; unfold bind at 1; cbn [Z.eqb ret];
        eexists (-1), rb, _, _; rewrite store_bytes_nil;
        (split; [reflexivity|]); cbn [heap];
        (split; [apply lookup_insert_eq|]); cbn [probed closed_rd closed_wr];
        split_and!; try (intros; lia); try done;
        intros [[? _]|[?|[_ ?]]]; done || lia.
    + destruct (Z.leb_spec (pr_ret pr) 0) as [_|?]; [|lia].
      unfold bind at 1. destruct (Z.eqb_spec (pr_ret pr) 0) as [?|_]; [done|]. cbn [ret].
      eexists (pr_ret pr), rb, _, _. rewrite store_bytes_nil.
      split; [reflexivity|]. cbn [heap].
      split; [apply lookup_insert_eq|]. cbn [probed closed_rd closed_wr].
      split_and!; try (intros; lia); done.
Qed.

(** X7.  Broadcast and Scatter on a non-root, whose Handle to the root is
    neither probed nor read-closed: the call is one blocking [probe] of
    that Handle, followed by what the answer commands.  A frame of
    [0 < s <= recvsize] bytes is received by one [receive] of exactly [s]
    bytes into the front of [recvbuff], the call returns what [receive]
    returned and the Handle is left unprobed.  A frame larger than
    [recvsize] is left pending: -1 with [ENOMEM], no [receive].  An end of
    stream (a frame of size 0, a probe that returns 0, or -1 with
    [ECONNRESET]) gives 0, and the Handle ends closed in both directions.
    A negative result leaves the closed flags of the Handle untouched. *)
Theorem nonroot_sendrecv_receives_frame (b : CollectiveImpl.t) sendbuff sendsize
    (rb : buffer) recvsize datasize w h rest hd :
  participants b = h :: rest →
  heap w !! h = Some hd → fst (probed hd) = false → closed_rd hd = false →
  0 ≤ recvsize →
  let pr := (t_probe true (chan hd)).1 in
  let t1 := (t_probe true (chan hd)).2 in
  let s := default 0 (pr_size pr) in
  let probe := EvProbe h true (pr_ret pr) s in
  ∃ r rb' w' hd',
    BroadcastGeneric.sendrecv (BroadcastGeneric.mk b false) sendbuff sendsize
                              (Some rb) recvsize datasize w = Some ((r, Some rb'), w')
    ∧ ScatterGeneric.sendrecv (ScatterGeneric.mk b false) sendbuff sendsize
                              (Some rb) recvsize datasize w = Some ((r, Some rb'), w')
    ∧ heap w' !! h = Some hd'
    ∧ (0 < pr_ret pr → 0 < s ≤ recvsize →
         let rr := (t_receive s t1).1 in
         r = rr_ret rr
         ∧ rb' = store_bytes rb 0 (take (Z.to_nat s) (rr_data rr))
         ∧ probed hd' = (false, 0)
         ∧ events_since w w' =
             probe :: EvReceive h s (rr_ret rr)
                   :: (if rr_ret rr =? 0 then [EvClose h true false] else []))
    ∧ (0 < pr_ret pr → recvsize < s →
         r = -1 ∧ errno w' = ENOMEM ∧ rb' = rb ∧ probed hd' = (true, s)
         ∧ events_since w w' = [probe])
    ∧ ((0 < pr_ret pr ∧ s = 0) ∨ pr_ret pr = 0
       ∨ (pr_ret pr = -1 ∧ default (errno w) (pr_errno pr) = ECONNRESET) →
         r = 0 ∧ rb' = rb ∧ closed_rd hd' = true ∧ closed_wr hd' = true
         ∧ ∃ wr, events_since w w' = [probe; EvClose h wr true; EvClose h true false])
    ∧ (r < 0 → closed_rd hd' = false ∧ closed_wr hd' = closed_wr hd).
Proof.
  intros Hps E P C Hcap pr t1 s probe.
  destruct (Scatter_nonroot_frame b sendbuff sendsize rb recvsize datasize w h rest hd
              Hps E P C Hcap) as (r & rb' & w' & hd' & Hrun & Hrest).
  exists r, rb', w', hd'. split; [|done].
  by rewrite Broadcast_nonroot_as_Scatter.
Qed.

End BroadcastFacts.

(** ** FanOut: send and receive *)

Section FanOutMore.
Context {T : Type} `{Transport T}.
Implicit Types (w : World T) (hd : Handle T) (c : FanOutGeneric.t).

Local Abbreviation fps c := (participants (FanOutGeneric.base c)).

(** one [send] with the cursor inside [participants] *)
Lemma run_FanOut_send c data w h hd :
  0 ≤ FanOutGeneric.current c →
  fps c !! Z.to_nat (FanOutGeneric.current c) = Some h →
  Z.of_nat (length (fps c)) ≤ SIZE_MAX →
  heap w !! h = Some hd →
  let sr := (t_send data (chan hd)).1 in
  FanOutGeneric.send c data w =
    Some ((FanOutGeneric.with_current c
             ((FanOutGeneric.current c + 1) mod Z.of_nat (length (fps c))),
           to_int (sr_ret sr)),
          mkWorld (<[h := mkHandle (probed hd) (closed_rd hd) (closed_wr hd)
                                   (t_send data (chan hd)).2]> (heap w))
                  (default (errno w) (sr_errno sr))
                  (trace w ++ [EvSend h data (sr_ret sr)])).
Proof.
  intros Hcur Hh Hlen E sr. unfold FanOutGeneric.send. cbv zeta.
  unfold bind at 1. rewrite (run_at_ _ _ h) by done.
  unfold bind at 1. rewrite (run_Handle_send _ _ _ _ E). cbv zeta. fold sr.
  apply lookup_lt_Some in Hh.
  rewrite wrap64_small by (unfold SIZE_MAX in *; lia). done.
Qed.

Lemma FanOut_sends_spec (msgs : list (list byte)) : ∀ c w,
  0 ≤ FanOutGeneric.current c < Z.of_nat (length (fps c)) →
  Z.of_nat (length (fps c)) ≤ SIZE_MAX →
  (∀ h, h ∈ fps c → is_Some (heap w !! h)) →
  let n := Z.of_nat (length (fps c)) in
  ∃ c' rs w' evs,
    FanOut_sends c msgs w = Some ((c', rs), w')
    ∧ trace w' = trace w ++ evs
    ∧ fps c' = fps c
    ∧ FanOutGeneric.current c' = (FanOutGeneric.current c + Z.of_nat (length msgs)) mod n
    ∧ length evs = length msgs ∧ length rs = length msgs
    ∧ ∀ j m, msgs !! j = Some m →
        ∃ h ret, fps c !! Z.to_nat ((FanOutGeneric.current c + Z.of_nat j) mod n) = Some h
                 ∧ evs !! j = Some (EvSend h m ret)
                 ∧ rs !! j = Some (to_int ret).
Proof.
  induction msgs as [|m ms IH]; intros c w Hcur Hlen Hvalid n.
  - exists c, [], w, []. split_and!; try done.
    + by rewrite app_nil_r.
    + cbn [length]. rewrite Z.add_0_r, Z.mod_small; [done|]. subst n. lia.
  - destruct (lookup_lt_is_Some_2 (fps c) (Z.to_nat (FanOutGeneric.current c)))
      as [h Hh]; [lia|].
    destruct (Hvalid h) as [hd Hhd]; [by eapply list_elem_of_lookup_2|].
    cbn [FanOut_sends]. unfold bind at 1.
    rewrite (run_FanOut_send c m w h hd) by (done || lia). cbv zeta.
    set (c1 := FanOutGeneric.with_current c _).
    match goal with |- context [_ ?w = Some _] =>
      match w with mkWorld _ _ _ => remember w as w1 eqn:Hw1 end end.
    fold n in c1.
    assert (0 ≤ (FanOutGeneric.current c + 1) mod n < n) as Hcur1
      by (apply Z.mod_pos_bound; lia).
    destruct (IH c1 w1) as (c' & rs & w' & evs & Hrun & Htr & Hps & Hc' & Hle & Hlr & Hev).
    { done. }
    { done. }
    { intros h' Hh'. rewrite Hw1; cbn [heap]. apply lookup_insert_is_Some'. right.
      by apply Hvalid. }
    unfold bind at 1. rewrite Hrun.
    exists c', (to_int (sr_ret (t_send m (chan hd)).1) :: rs), w',
           (EvSend h m (sr_ret (t_send m (chan hd)).1) :: evs).
    split_and!.
    + done.
    + rewrite Htr, Hw1; cbn [trace]. by rewrite <- app_assoc.
    + done.
    + rewrite Hc'. change (fps c1) with (fps c). fold n.
      change (FanOutGeneric.current c1) with ((FanOutGeneric.current c + 1) mod n).
      rewrite Zplus_mod_idemp_l. f_equal. cbn [length]. lia.
    + cbn; lia.
    + cbn; lia.
    + intros [|j] m' Hj.
      * injection Hj as <-. exists h, (sr_ret (t_send m (chan hd)).1).
        rewrite Z.add_0_r, Z.mod_small by lia. done.
      * cbn in Hj. destruct (Hev j m' Hj) as (h' & ret' & Hh' & He' & Hr').
        exists h', ret'. split_and!; try done. rewrite <- Hh'.
        change (fps c1) with (fps c). fold n.
        change (FanOutGeneric.current c1) with ((FanOutGeneric.current c + 1) mod n).
        rewrite Zplus_mod_idemp_l. do 3 f_equal. lia.
Qed.

(** X8.  FanOut [send] is round-robin.  Starting with the cursor inside
    [participants], a sequence of sends returns, leaves [participants] as
    it is, and hands the [j]-th message to the Handle at position
    [(current + j) mod size], whether or not the earlier sends succeeded:
    the cursor moves on after a failed send as after a successful one.
    The value returned for a message is what [Handle::send] returned,
    taken through an [int]. *)
Theorem FanOut_send_round_robin c (msgs : list (list byte)) w :
  0 ≤ FanOutGeneric.current c < Z.of_nat (length (fps c)) →
  Z.of_nat (length (fps c)) ≤ SIZE_MAX →
  (∀ h, h ∈ fps c → is_Some (heap w !! h)) →
  let n := Z.of_nat (length (fps c)) in
  ∃ c' rs w',
    FanOut_sends c msgs w = Some ((c', rs), w')
    ∧ fps c' = fps c
    ∧ FanOutGeneric.current c' = (FanOutGeneric.current c + Z.of_nat (length msgs)) mod n
    ∧ length (events_since w w') = length msgs ∧ length rs = length msgs
    ∧ ∀ j m, msgs !! j = Some m →
        ∃ h ret, fps c !! Z.to_nat ((FanOutGeneric.current c + Z.of_nat j) mod n) = Some h
                 ∧ events_since w w' !! j = Some (EvSend h m ret)
                 ∧ rs !! j = Some (to_int ret).
Proof.
  intros Hcur Hlen Hvalid n.
  destruct (FanOut_sends_spec msgs c w Hcur Hlen Hvalid)
    as (c' & rs & w' & evs & Hrun & Htr & Hrest).
  exists c', rs, w'. rewrite (events_since_trace _ _ _ Htr). done.
Qed.

Lemma to_int_wraps (r : Z) : 2 ^ 31 ≤ r < 2 ^ 32 → to_int r = r - 2 ^ 32.
Proof.
  intros Hr. unfold to_int. cbv zeta. rewrite Z.mod_small by lia.
  destruct (Z.ltb_spec r (2 ^ 31)); lia.
Qed.

(** X9.  The value returned by FanOut [send] goes through an [int].  One send
    with the cursor on a Handle makes exactly one call, [send] on that
    Handle with the message; the result is the count reported by the
    Handle when it fits an [int], but a count between [2^31] and [2^32]
    (a message of 2 GiB or more, sent in full) comes back negative, as a
    failure would.  On an empty [participants] the call throws. *)
Theorem FanOut_send_result_through_int c data w :
  (fps c = [] → FanOutGeneric.send c data w = None)
  ∧ ∀ h hd,
      0 ≤ FanOutGeneric.current c →
      fps c !! Z.to_nat (FanOutGeneric.current c) = Some h →
      Z.of_nat (length (fps c)) ≤ SIZE_MAX →
      heap w !! h = Some hd →
      let ret := sr_ret (t_send data (chan hd)).1 in
      ∃ c' res w',
        FanOutGeneric.send c data w = Some ((c', res), w')
        ∧ events_since w w' = [EvSend h data ret]
        ∧ (- 2 ^ 31 ≤ ret ≤ INT_MAX → res = ret)
        ∧ (2 ^ 31 ≤ ret < 2 ^ 32 → res = ret - 2 ^ 32 ∧ res < 0).
Proof.
  split.
  - intros Hps. unfold FanOutGeneric.send. cbv zeta. unfold bind at 1, at_.
    by rewrite Hps, lookup_nil.
  - intros h hd Hcur Hh Hlen E ret.
    rewrite (run_FanOut_send c data w h hd Hcur Hh Hlen E). cbv zeta.
    eexists _, _, _. split; [reflexivity|]. split; [apply events_since_app|].
    fold ret. split.
    + apply to_int_small.
    + intros Hr. rewrite to_int_wraps by done. lia.
Qed.

(** X10.  FanOut [probe] followed by [receive].  When the probe of the first
    participant announces a frame ([probe] returns a positive value with
    a size [s] other than 0), [probe] marks that Handle as probed with
    [s]; [receive] then calls [receive] on the same Handle with the
    capacity given by the caller (not with [s]), returns what the Handle
    returned, and takes the mark away whatever that was: after a failed
    receive the frame is no longer pending.  Between them the two calls
    change no closed flag. *)
Theorem FanOut_probe_then_receive c size blocking w h rest hd :
  fps c = h :: rest →
  heap w !! h = Some hd →
  let pr := (t_probe blocking (chan hd)).1 in
  let t1 := (t_probe blocking (chan hd)).2 in
  let s := default size (pr_size pr) in
  0 < pr_ret pr → s ≠ 0 →
  ∃ w1,
    FanOutGeneric.probe c size blocking w = Some ((c, pr_ret pr, s), w1)
    ∧ heap w1 !! h = Some (mkHandle (true, s) (closed_rd hd) (closed_wr hd) t1)
    ∧ ∀ cap,
        let rr := (t_receive cap t1).1 in
        ∃ w2,
          FanOutGeneric.receive c cap w1
            = Some ((rr_ret rr, take (Z.to_nat cap) (rr_data rr)), w2)
          ∧ heap w2 !! h = Some (mkHandle (false, 0) (closed_rd hd) (closed_wr hd)
                                          (t_receive cap t1).2)
          ∧ events_since w w2
              = [EvProbe h blocking (pr_ret pr) s; EvReceive h cap (rr_ret rr)].
Proof.
  intros Hps E pr t1 s Hpos Hs.
  unfold FanOutGeneric.probe. rewrite Hps.
  rewrite bool_decide_eq_false_2 by done.
  unfold bind at 1. rewrite (run_at_ _ 0 h) by done.
  unfold bind at 1. rewrite (run_Handle_probe _ _ _ _ _ E).
  cbv beta iota zeta. fold pr t1 s.
  assert ((pr_ret pr >? 0) = true) as Hgt by (apply Z.gtb_lt; lia).
  assert ((s =? 0) = false) as Hne by (by apply Z.eqb_neq).
  rewrite !Hgt, !Hne. cbn [andb].
  unfold bind at 1. cbn [ret]. unfold bind at 1.
  erewrite run_set_probed by (cbn [heap]; apply lookup_insert_eq).
  cbn [ret heap errno trace probed closed_rd closed_wr chan].
  eexists. split; [reflexivity|]. cbn [heap]. rewrite insert_insert_eq.
  split; [apply lookup_insert_eq|].
  intros cap. set (rr := (t_receive cap t1).1). unfold FanOutGeneric.receive. rewrite Hps.
  unfold bind at 1. rewrite (run_at_ _ 0 h) by done.
  unfold bind at 1.
  erewrite run_Handle_receive by (cbn [heap]; apply lookup_insert_eq).
  cbv zeta. cbn [heap errno trace probed closed_rd closed_wr chan]. fold rr.
  unfold bind at 1.
  erewrite run_set_probed by (cbn [heap]; apply lookup_insert_eq).
  cbn [ret heap errno trace probed closed_rd closed_wr chan].
  eexists. split; [reflexivity|]. cbn [heap]. rewrite !insert_insert_eq.
  split; [apply lookup_insert_eq|].
  rewrite <- app_assoc. apply events_since_app.
Qed.

End FanOutMore.

(** ** FanIn: send, receive, and probe followed by receive *)

Section FanInMore.
Context {T : Type} `{Transport T}.
Implicit Types (w : World T) (hd : Handle T) (c : FanInGeneric.t).

Local Abbreviation ips c := (participants (FanInGeneric.base c)).

Lemma FanIn_send_loop_spec (data : list byte) (hs : list nat) : ∀ w,
  (∀ h, h ∈ hs → is_Some (heap w !! h)) →
  ∃ out w' evs,
    FanInGeneric.send_loop hs data w = Some (out, w')
    ∧ trace w' = trace w ++ evs
    ∧ (∀ i ev, evs !! i = Some ev → ∃ h ret, hs !! i = Some h ∧ ev = EvSend h data ret)
    ∧ match out with
      | None => sends_ok evs ∧ length evs = length hs
      | Some r => r < 0 ∧ ∃ evs0 h, evs = evs0 ++ [EvSend h data r] ∧ sends_ok evs0
      end.
Proof.
  induction hs as [|h hs IH]; intros w Hvalid.
  - exists None, w, []. split_and!; try done.
    + by rewrite app_nil_r.
    + by apply Forall_nil.
  - destruct (Hvalid h) as [hd Hhd]; [by left|].
    cbn [FanInGeneric.send_loop].
    unfold bind at 1. rewrite (run_Handle_send _ _ _ _ Hhd). cbv zeta.
    destruct (t_send data (chan hd)) as [sr t'] eqn:Hsend. cbn [fst snd].
    match goal with |- context [_ ?w = Some _] =>
      match w with mkWorld _ _ _ => remember w as w1 eqn:Hw1 end end.
    destruct (Z.ltb_spec (sr_ret sr) 0) as [Hneg|Hpos].
    + exists (Some (sr_ret sr)), w1, [EvSend h data (sr_ret sr)].
      split_and!; try done.
      * by rewrite Hw1.
      * intros [|i] ev Hi; [|done]. injection Hi as <-. by exists h, (sr_ret sr).
      * exists [], h. split; [done|by apply Forall_nil].
    + destruct (IH w1) as (out & w' & evs & Hrun & Htr & Hev & Hfin).
      { intros h' Hh'. rewrite Hw1; cbn [heap]. apply lookup_insert_is_Some'. right.
        apply Hvalid. by right. }
      rewrite Hrun. exists out, w', (EvSend h data (sr_ret sr) :: evs).
      split_and!; try done.
      * rewrite Htr, Hw1; cbn [trace]. by rewrite <- app_assoc.
      * intros [|i] ev Hi.
        -- injection Hi as <-. by exists h, (sr_ret sr).
        -- by apply Hev.
      * destruct out as [r|].
        -- destruct Hfin as (Hr & evs0 & h2 & -> & Hok). split; [done|].
           exists (EvSend h data (sr_ret sr) :: evs0), h2. split; [done|].
           apply Forall_cons. split; [lia|done].
        -- destruct Hfin as [Hok Hlen]. split; [|cbn; lia].
           apply Forall_cons. split; [lia|done].
Qed.

(** X11.  FanIn [send] hands the same bytes to every participant in the order
    of [participants], until a send fails.  When none fails, every
    participant has been sent to and the call returns [size] (also on an
    empty [participants], where nothing is sent).  A send that fails is
    the last call made, and the value it returned (not -1) is the value
    of the call. *)
Theorem FanIn_send_multicast c (data : list byte) size w :
  0 ≤ size ≤ SSIZE_MAX →
  (∀ h, h ∈ ips c → is_Some (heap w !! h)) →
  ∃ r w',
    FanInGeneric.send c data size w = Some (r, w')
    ∧ (∀ i ev, events_since w w' !! i = Some ev →
         ∃ h ret, ips c !! i = Some h ∧ ev = EvSend h data ret)
    ∧ (sends_ok (events_since w w') →
         r = size ∧ length (events_since w w') = length (ips c))
    ∧ (¬ sends_ok (events_since w w') →
         r < 0 ∧ ∃ evs0 h, events_since w w' = evs0 ++ [EvSend h data r]
                           ∧ sends_ok evs0).
Proof.
  intros Hsz Hvalid.
  destruct (FanIn_send_loop_spec data _ w Hvalid) as (out & w' & evs & Hrun & Htr & Hev & Hfin).
  unfold FanInGeneric.send. unfold bind at 1. rewrite Hrun.
  destruct out as [r|].
  - destruct Hfin as (Hr & evs0 & h & -> & Hok).
    exists r, w'. rewrite (events_since_trace _ _ _ Htr). split_and!; try done.
    + intros Hok'. by apply sends_ok_failed in Hok'.
    + intros _. split; [done|]. by exists evs0, h.
  - destruct Hfin as [Hok Hlen].
    exists size, w'. rewrite (events_since_trace _ _ _ Htr). split_and!; try done.
    cbn [ret]. by rewrite to_ssize_small by lia.
Qed.

Lemma FanIn_receive_unprobed c size w :
  Z.of_nat (length (ips c)) ≤ SIZE_MAX →
  FanInGeneric.probed_idx c = -1 →
  FanInGeneric.receive c size w = None.
Proof.
  intros Hlen Hidx. unfold FanInGeneric.receive. rewrite Hidx.
  unfold bind at 1, at_.
  change (wrap64 (-1)) with (2 ^ 64 - 1).
  rewrite lookup_ge_None_2; [done|]. unfold SIZE_MAX in Hlen. lia.
Qed.

(** X12.  FanIn [receive] needs a [probe] before it.  With [probed_idx] at -1,
    as the constructor and every successful [receive] leave it, the index
    converted to [size_t] is past the end of any vector and
    [participants.at] throws: no method of any Handle is called. *)
Theorem FanIn_receive_needs_probe c size w :
  Z.of_nat (length (ips c)) ≤ SIZE_MAX →
  FanInGeneric.probed_idx c = -1 →
  FanInGeneric.receive c size w = None.
Proof.
  intros Hlen Hidx. unfold FanInGeneric.receive. rewrite Hidx.
  unfold bind at 1, at_.
  change (wrap64 (-1)) with (2 ^ 64 - 1).
  rewrite lookup_ge_None_2; [done|]. unfold SIZE_MAX in Hlen. lia.
Qed.

Lemma probed_last_later c' res' size' w w1 w' evs1 :
  trace w1 = trace w ++ evs1 →
  probed_last c' res' size' w1 w' → probed_last c' res' size' w w'.
Proof.
  intros Htr (h & hd & evs & Hidx & Hh & Hhd & Hp & Htr').
  exists h, hd, (evs1 ++ evs). split_and!; try done.
  by rewrite Htr', Htr, <- !app_assoc.
Qed.

Lemma probe_next_probed fuel blocking c res iter size w c' res' size' w' :
  (∀ c res iter size w,
     loop_pre c res iter size w → res ≤ 0 →
     FanInGeneric.probe_loop fuel blocking c res iter size w
       = Some (Some (c', res', size'), w') →
     probed_last c' res' size' w w') →
  (∀ h, h ∈ ips c → is_Some (heap w !! h)) →
  (iter < length (ips c))%nat → res ≤ 0 → 0 < res' →
  FanInGeneric.probe_next (FanInGeneric.probe_loop fuel blocking)
                          blocking c res iter size w
    = Some (Some (c', res', size'), w') →
  probed_last c' res' size' w w'.
Proof.
  intros IH Hvalid Hiter Hres Hpos. unfold FanInGeneric.probe_next.
  case_bool_decide as Hend.
  - destruct blocking.
    + apply IH; [|done]. apply loop_pre_begin; [done|lia].
    + intros [= <- <- <- <-]. lia.
  - apply IH; [|done]. split_and!; [done|lia|lia].
Qed.

Lemma probe_loop_probed fuel blocking c' res' size' w' : ∀ c res iter size w,
  loop_pre c res iter size w → res ≤ 0 →
  FanInGeneric.probe_loop fuel blocking c res iter size w
    = Some (Some (c', res', size'), w') →
  0 < res' →
  probed_last c' res' size' w w'.
Proof.
  induction fuel as [|fuel IH]; intros c res iter size w (Hvalid & Hiter & _) Hres Hrun Hpos.
  - cbn [FanInGeneric.probe_loop] in Hrun.
    destruct (_ && _); [done|]. injection Hrun as <- <- <- <-. lia.
  - destruct ((res =? -1) && negb (bool_decide (ips c = []))) eqn:Hcond.
    2:{ rewrite (probe_loop_exit _ _ _ _ _ _ Hcond) in Hrun.
        injection Hrun as <- <- <- <-. lia. }
    rewrite (probe_loop_S _ _ _ _ _ _ Hcond) in Hrun.
    apply andb_true_iff in Hcond as [Hres1%Z.eqb_eq Hne%negb_true_iff%bool_decide_eq_false].
    specialize (Hiter Hne).
    destruct (lookup_lt_is_Some_2 (ips c) iter Hiter) as [h Hh].
    assert (h ∈ ips c) as Hin by (by eapply list_elem_of_lookup_2).
    destruct (Hvalid h Hin) as [hd Hhd].
    unfold bind at 1 in Hrun.
    rewrite (run_at_ (ips c) (Z.of_nat iter) h) in Hrun by (by rewrite Nat2Z.id).
    unfold bind at 1 in Hrun. rewrite (run_Handle_probe _ _ _ _ _ Hhd) in Hrun.
    cbv zeta in Hrun.
    destruct (t_probe false (chan hd)) as [pr t'] eqn:Hprobe. cbn [fst snd] in Hrun.
    remember (default size (pr_size pr)) as s eqn:Hs.
    remember (pr_ret pr) as r eqn:Hr.
    match type of Hrun with context [_ ?w = Some _] =>
      match w with mkWorld _ _ _ => remember w as w1 eqn:Hw1 end end.
    assert (trace w1 = trace w ++ [EvProbe h false r s]) as Htr1 by (by rewrite Hw1).
    assert (∀ h', is_Some (heap w !! h') → is_Some (heap w1 !! h')) as Hmono1.
    { intros h' Hh'. rewrite Hw1; cbn [heap]. apply lookup_insert_is_Some'. by right. }
    assert (is_Some (heap w1 !! h)) as [hd1 Hhd1] by (apply Hmono1; by eexists).
    assert (∀ c res iter size w,
              loop_pre c res iter size w → res ≤ 0 →
              FanInGeneric.probe_loop fuel blocking c res iter size w
                = Some (Some (c', res', size'), w') →
              probed_last c' res' size' w w') as IH'.
    { intros. by eapply IH. }
    destruct ((r >? 0) && (s =? 0)) eqn:Heos.
    + (* end of stream *)
      cbv zeta in Hrun. unfold bind at 1 in Hrun.
      rewrite (run_Handle_close _ _ _ _ _ Hhd1) in Hrun.
      match type of Hrun with context [_ ?w = Some _] =>
        match w with mkWorld _ _ _ => remember w as w2 eqn:Hw2 end end.
      set (c2 := FanInGeneric.with_participants c (delete iter (ips c))) in *.
      assert (ips c2 = delete iter (ips c)) as Hps2 by done.
      assert (length (ips c2) = (length (ips c) - 1)%nat) as Hlen2
        by (rewrite Hps2; apply length_delete; by eexists).
      assert (∀ h', h' ∈ ips c2 → is_Some (heap w2 !! h')) as Hvalid2.
      { intros h' Hh'. rewrite Hw2; cbn [heap]. apply lookup_insert_is_Some'. right.
        apply Hmono1, Hvalid. rewrite Hps2 in Hh'. by eapply list_elem_of_delete_inv. }
      assert (trace w2 = trace w ++ [EvProbe h false r s; EvClose h true true]) as Htr2.
      { rewrite Hw2, Htr1; cbn [trace]. by rewrite <- app_assoc. }
      apply (probed_last_later _ _ _ w w2 w' _ Htr2).
      case_bool_decide as Hend.
      * destruct blocking.
        -- apply (IH' c2 (-1) 0%nat s w2); [|lia|done].
           apply loop_pre_begin; [done|lia].
        -- injection Hrun as <- <- <- <-. lia.
      * apply (probe_next_probed fuel blocking c2 (-1) iter s w2); try done; lia.
    + destruct (r >? 0) eqn:Hgt.
      * (* a message: the loop ends here *)
        cbv zeta in Hrun. unfold bind at 1 in Hrun.
        rewrite (run_set_probed _ _ _ _ Hhd1) in Hrun.
        set (c2 := FanInGeneric.with_probed_idx c (Z.of_nat iter)) in *.
        apply Z.gtb_lt in Hgt.
        assert ((r =? -1) && negb (bool_decide (ips c2 = [])) = false) as Hexit.
        { apply andb_false_iff. left. apply Z.eqb_neq. lia. }
        unfold FanInGeneric.probe_next in Hrun.
        rewrite !(probe_loop_exit _ _ _ _ _ _ Hexit) in Hrun.
        assert (Some (Some (c2, r, s),
                      mkWorld (<[h := mkHandle (true, s) (closed_rd hd1) (closed_wr hd1)
                                               (chan hd1)]> (heap w1))
                              (errno w1) (trace w1))
                = Some (Some (c', res', size'), w')) as Hout.
        { rewrite <- Hrun. destruct (bool_decide (S iter = _)); [destruct blocking|]; reflexivity. }
        injection Hout as <- <- <- <-.
        exists h, (mkHandle (true, s) (closed_rd hd1) (closed_wr hd1) (chan hd1)), [].
        cbn [FanInGeneric.probed_idx c2 FanInGeneric.with_probed_idx heap trace].
        rewrite Nat2Z.id. split_and!; try done; [lia|apply lookup_insert_eq].
      * (* nothing to read on this Handle *)
        assert (r ≤ 0) by (destruct (Z.gtb_spec r 0); [done|lia]).
        apply (probed_last_later _ _ _ w w1 w' _ Htr1).
        apply (probe_next_probed fuel blocking c r iter s w1); try done.
        intros h' Hh'. by apply Hmono1, Hvalid.
Qed.

(** X13.  FanIn [probe] followed by [receive].  When [probe] hands a frame to
    the caller (a positive result with a size other than 0), the last
    call it made is the probe that found the frame, [probed_idx] is the
    position in [participants] of the Handle that answered it, and that
    Handle is marked as probed with the size.  The [receive] that follows
    calls [receive] on that very Handle, with the capacity given by the
    caller.  When the Handle returns a positive count, this is the value
    of the call, the mark is taken away and [probed_idx] is back at -1, so
    that a second [receive] without a new [probe] throws.  When the Handle
    returns 0 or less, the call returns -1 and neither the mark nor
    [probed_idx] changes. *)
Theorem FanIn_probe_then_receive fuel c size blocking w c' res size' w' :
  (∀ h, h ∈ ips c → is_Some (heap w !! h)) →
  Z.of_nat (length (ips c)) ≤ SIZE_MAX →
  FanInGeneric.probe fuel c size blocking w = Some (Some (c', res, size'), w') →
  0 < res → size' ≠ 0 →
  ∃ h hd evs,
    0 ≤ FanInGeneric.probed_idx c'
    ∧ ips c' !! Z.to_nat (FanInGeneric.probed_idx c') = Some h
    ∧ heap w' !! h = Some hd ∧ probed hd = (true, size')
    ∧ events_since w w' = evs ++ [EvProbe h false res size']
    ∧ ∀ cap,
        let rr := (t_receive cap (chan hd)).1 in
        ∃ c2 r w2 hd2,
          FanInGeneric.receive c' cap w'
            = Some ((c2, r, take (Z.to_nat cap) (rr_data rr)), w2)
          ∧ events_since w' w2 = [EvReceive h cap (rr_ret rr)]
          ∧ heap w2 !! h = Some hd2
          ∧ (0 < rr_ret rr →
               r = rr_ret rr ∧ probed hd2 = (false, 0)
               ∧ FanInGeneric.probed_idx c2 = -1
               ∧ ∀ cap2, FanInGeneric.receive c2 cap2 w2 = None)
          ∧ (rr_ret rr ≤ 0 → r = -1 ∧ c2 = c' ∧ probed hd2 = (true, size')).
Proof.
  intros Hvalid Hlen Hrun Hpos Hsize.
  destruct (run_FanIn_probe fuel c size blocking w Hvalid)
    as (out & w0 & evs0 & Hrun0 & _ & _ & _ & _ & _ & _ & _ & Hout).
  rewrite Hrun in Hrun0. injection Hrun0 as <- <-.
  destruct (Hout c' res size' eq_refl) as (Hperm & _ & _).
  apply Permutation_length in Hperm. rewrite length_app in Hperm.
  unfold FanInGeneric.probe in Hrun. unfold bind at 1 in Hrun.
  destruct (FanInGeneric.probe_loop fuel blocking c (-1) 0 size w)
    as [[[[[c1 res1] size1]|] w1]|] eqn:Hloop; [|done|done].
  case_bool_decide as Hempty; [injection Hrun as <- <- <- <-; done|].
  injection Hrun as <- <- <- <-.
  destruct (probe_loop_probed fuel blocking c1 res1 size1 w1 c (-1) 0%nat size w)
    as (h & hd & evs & Hidx & Hh & Hhd & Hp & Htr); [|lia|done|done|].
  { apply loop_pre_begin; [done|lia]. }
  exists h, hd, evs. split_and!; try done.
  { by apply events_since_trace. }
  intros cap rr.
  pose proof (lookup_lt_Some _ _ _ Hh) as Hlt.
  unfold FanInGeneric.receive.
  rewrite wrap64_small by (unfold SIZE_MAX in *; lia).
  unfold bind at 1. rewrite (run_at_ _ _ h) by done.
  unfold bind at 1. rewrite (run_Handle_receive _ _ _ _ Hhd).
  cbv beta iota zeta. fold rr.
  destruct (Z.leb_spec (rr_ret rr) 0) as [Hle|Hgt].
  - eexists _, _, _, _. split; [reflexivity|].
    split; [apply events_since_app|]. cbn [heap].
    split; [apply lookup_insert_eq|]. cbn [probed]. split; [lia|done].
  - unfold bind at 1.
    erewrite run_set_probed by (cbn [heap]; apply lookup_insert_eq).
    cbn [ret heap errno trace probed closed_rd closed_wr chan].
    eexists _, _, _, _. split; [reflexivity|].
    split; [apply events_since_app|]. cbn [heap].
    split; [apply lookup_insert_eq|]. cbn [probed]. split; [|lia].
    intros _. split_and!; try done.
    intros cap2. apply FanIn_receive_unprobed; [|done].
    change (ips (FanInGeneric.with_probed_idx c1 (-1))) with (ips c1). lia.
Qed.

(** X14.  After an end of stream the next Handle is passed over.  When the
    first of two participants reports end of stream to a non-blocking
    [probe], the Handle is closed and taken out, and the call ends there
    with -1: the second participant is not probed in this call.  With
    three participants or more, the probe that follows the end of stream
    of the first is made on the third. *)
Theorem FanIn_probe_skips_after_eos fuel c size w a b rest hd :
  ips c = a :: b :: rest →
  (∀ h, h ∈ ips c → is_Some (heap w !! h)) →
  heap w !! a = Some hd →
  let pr := (t_probe false (chan hd)).1 in
  0 < pr_ret pr → default size (pr_size pr) = 0 →
  let eos := [EvProbe a false (pr_ret pr) 0; EvClose a true true] in
  (rest = [] →
     ∃ w', FanInGeneric.probe (S fuel) c size false w
             = Some (Some (FanInGeneric.with_participants c [b], -1, 0), w')
           ∧ events_since w w' = eos)
  ∧ (∀ x rest' blocking, rest = x :: rest' →
       ∃ out w' r s evs,
         FanInGeneric.probe (S (S fuel)) c size blocking w = Some (out, w')
         ∧ events_since w w' = eos ++ EvProbe x false r s :: evs).
Proof.
  intros Hps Hvalid E pr Hpos Hs eos.
  assert ((-1 =? -1) && negb (bool_decide (ips c = [])) = true) as Hcond.
  { rewrite Hps. by rewrite bool_decide_eq_false_2. }
  assert (∀ fuel' blocking,
    FanInGeneric.probe_loop (S fuel') blocking c (-1) 0 size w =
      let c2 := FanInGeneric.with_participants c (b :: rest) in
      let w2 := mkWorld (<[a := mkHandle (probed hd) true true
                                         (t_close true true (t_probe false (chan hd)).2)]>
                           (heap w))
                        (default (errno w) (pr_errno pr)) (trace w ++ eos) in
      FanInGeneric.probe_next (FanInGeneric.probe_loop fuel' blocking)
                              blocking c2 (-1) 0 0 w2) as Hstep.
  { intros fuel' blocking. rewrite (probe_loop_S _ _ _ _ _ _ Hcond).
    unfold bind at 1. rewrite Hps. rewrite (run_at_ _ _ a) by done.
    unfold bind at 1. rewrite (run_Handle_probe _ _ _ _ _ E).
    cbv beta iota zeta. fold pr. rewrite Hs.
    assert ((pr_ret pr >? 0) = true) as -> by (apply Z.gtb_lt; lia).
    cbn [andb Z.eqb]. unfold bind at 1.
    erewrite run_Handle_close by (cbn [heap]; apply lookup_insert_eq).
    cbn [heap errno trace probed closed_rd closed_wr chan delete].
    rewrite insert_insert_eq, !orb_true_r, <- app_assoc. reflexivity. }
  split.
  - intros ->. unfold FanInGeneric.probe. unfold bind at 1.
    rewrite Hstep. cbv zeta. unfold FanInGeneric.probe_next.
    rewrite bool_decide_eq_true_2 by done. cbn [ret].
    rewrite bool_decide_eq_false_2 by done.
    eexists. split; [reflexivity|]. apply events_since_app.
  - intros x rest' blocking ->. unfold FanInGeneric.probe. unfold bind at 1.
    rewrite Hstep. cbv zeta. unfold FanInGeneric.probe_next.
    rewrite bool_decide_eq_false_2 by done.
    set (c2 := FanInGeneric.with_participants c (b :: x :: rest')).
    match goal with |- context [FanInGeneric.probe_loop _ _ _ _ _ _ ?w] =>
      set (w2 := w) end.
    destruct (probe_loop_spec (S fuel) blocking c2 (-1) 1 0 w2)
      as (out & w' & evs & Hrun & Htr & _ & _ & Hfirst & _).
    { split_and!; [|cbn; lia|lia].
      intros h Hh. subst w2. cbn [heap]. apply lookup_insert_is_Some'. right.
      apply Hvalid. rewrite Hps. by right. }
    destruct Hfirst as (h & r & s & evs' & Hh & ->); [done|done|done|].
    injection Hh as <-. rewrite Hrun.
    destruct out as [[[c3 res3] size3]|].
    + destruct (bool_decide (ips c3 = [])); eexists _, _, r, s, evs';
        (split; [reflexivity|]); apply events_since_trace; rewrite Htr;
        subst w2; cbn [trace]; by rewrite <- app_assoc.
    + eexists _, _, r, s, evs'. split; [reflexivity|].
      apply events_since_trace. rewrite Htr. subst w2. cbn [trace].
      by rewrite <- app_assoc.
Qed.

(** X15.  A non-blocking FanIn [probe] does a bounded amount of work.  Given
    as many iterations as there are participants, the call returns, and
    whatever the peers answer it has made at most one [probe] for each
    participant it started with. *)
Theorem FanIn_probe_nonblocking_bounded fuel c size w :
  (∀ h, h ∈ ips c → is_Some (heap w !! h)) →
  (length (ips c) ≤ fuel)%nat →
  ∃ c' res size' w',
    FanInGeneric.probe fuel c size false w = Some (Some (c', res, size'), w')
    ∧ (probes_in (events_since w w') ≤ length (ips c))%nat.
Proof.
  intros Hvalid Hfuel.
  destruct (run_FanIn_probe fuel c size false w Hvalid)
    as (out & w' & evs & Hrun & Htr & _ & _ & Hsome & _).
  destruct (Hsome eq_refl Hfuel) as [[[c' res] size'] ->].
  exists c', res, size', w'. split; [done|].
  unfold FanInGeneric.probe in Hrun. unfold bind at 1 in Hrun.
  destruct (FanInGeneric.probe_loop fuel false c (-1) 0 size w)
    as [[out1 w1]|] eqn:Hloop; [|done].
  assert (w1 = w') as ->.
  { destruct out1 as [[[c1 r1] s1]|]; [|by injection Hrun].
    by destruct (bool_decide (ips c1 = [])); injection Hrun. }
  destruct (probe_loop_bounded fuel out1 w' c (-1) 0%nat size w) as (evs' & Htr' & Hb);
    [apply loop_pre_begin; [done|lia]|done|].
  rewrite (events_since_trace _ _ _ Htr'). lia.
Qed.

End FanInMore.

(** ** Gather *)

Section ReceiveBounds.
Context {T : Type} `{Transport T}.
Implicit Types (w : World T) (hd : Handle T).

(** [receiveFromHandle] never stores more bytes than the capacity it was
    given. *)
Lemma receiveFromHandle_data_bound w h hd cap r data w' :
  heap w !! h = Some hd →
  receiveFromHandle h cap w = Some ((r, data), w') →
  (length data ≤ Z.to_nat cap)%nat.
Proof.
  intros E Hrun.
  assert (∀ s (l : list byte), (length (take (Z.to_nat (Z.min s cap)) l) ≤ Z.to_nat cap)%nat)
    as Htake by (intros s l; rewrite length_take; lia).
  destruct (probed hd) as [[|] s] eqn:P.
  - destruct (closed_rd hd) eqn:C.
    + rewrite (run_receiveFromHandle_probed_closed _ _ _ _ _ E P C) in Hrun.
      injection Hrun as <- <- <-. cbn; lia.
    + rewrite (run_receiveFromHandle_probed _ _ _ _ _ E P C) in Hrun.
      destruct (s >? cap); injection Hrun as <- <- <-; [cbn; lia|apply Htake].
  - assert (fst (probed hd) = false) as P' by (by rewrite P).
    rewrite (run_receiveFromHandle_unprobed _ _ _ _ E P') in Hrun.
    destruct (closed_rd hd) eqn:C.
    + rewrite (run_probeHandle_closed _ _ _ _ _ E P' C) in Hrun.
      injection Hrun as <- <- <-. cbn; lia.
    + destruct (probeHandle_unprobed w h hd 0 true E P' C) as (r1 & w1 & Hp & Hcase).
      rewrite Hp in Hrun.
      destruct Hcase as [(Hpos & Hs & -> & ->)|(_ & Hle & _)].
      * destruct (_ <=? 0) eqn:Hle; [apply Z.leb_le in Hle; lia|].
        erewrite (run_receiveFromHandle_probed _ h) in Hrun
          by (first [apply lookup_insert_eq | reflexivity]).
        destruct (_ >? cap); injection Hrun as <- <- <-; [cbn; lia|apply Htake].
      * destruct (r1 <=? 0) eqn:Hle'; [|apply Z.leb_gt in Hle'; lia].
        injection Hrun as <- <- <-. cbn; lia.
Qed.

(** [receiveFromHandle] returns a positive value only out of a
    [receive] on the Handle, the last call it makes *)
Lemma receiveFromHandle_served w h hd cap r data w' :
  heap w !! h = Some hd →
  receiveFromHandle h cap w = Some ((r, data), w') → 0 < r →
  ∃ pre s, events_since w w' = pre ++ [EvReceive h s r].
Proof.
  intros E Hrun Hpos.
  destruct (probed hd) as [[|] s] eqn:P.
  - destruct (closed_rd hd) eqn:C.
    + rewrite (run_receiveFromHandle_probed_closed _ _ _ _ _ E P C) in Hrun.
      injection Hrun as <- <- <-. lia.
    + rewrite (run_receiveFromHandle_probed _ _ _ _ _ E P C) in Hrun.
      destruct (s >? cap); injection Hrun as <- <- <-; [lia|].
      exists [], (Z.min s cap). apply events_since_app.
  - assert (fst (probed hd) = false) as P' by (by rewrite P).
    rewrite (run_receiveFromHandle_unprobed _ _ _ _ E P') in Hrun.
    destruct (closed_rd hd) eqn:C.
    + rewrite (run_probeHandle_closed _ _ _ _ _ E P' C) in Hrun.
      injection Hrun as <- <- <-. lia.
    + destruct (probeHandle_unprobed w h hd 0 true E P' C) as (r1 & w1 & Hp & Hcase).
      rewrite Hp in Hrun.
      destruct Hcase as [(Hp1 & Hs & -> & ->)|(_ & Hle & _)].
      * destruct (_ <=? 0) eqn:Hle; [apply Z.leb_le in Hle; lia|].
        erewrite (run_receiveFromHandle_probed _ h) in Hrun
          by (first [apply lookup_insert_eq | reflexivity]).
        destruct (_ >? cap); injection Hrun as <- <- <-; [lia|].
        eexists [_], _. apply events_since_trace. cbn [trace].
        by rewrite <- app_assoc.
      * destruct (r1 <=? 0) eqn:Hle'; [|apply Z.leb_gt in Hle'; lia].
        injection Hrun as <- <- <-. lia.
Qed.

Lemma take_take_le {A} (l : list A) (n m : nat) :
  (n ≤ m)%nat → take n (take m l) = take n l.
Proof. intros Hnm. rewrite take_take. by rewrite Nat.min_l. Qed.

(** a store inside the buffer keeps its length, what is before the place
    written and what is after it *)
Lemma store_bytes_inside (rb : buffer) (off : Z) (data : list byte) (limit : nat) :
  0 ≤ off →
  (Z.to_nat off + length data ≤ limit)%nat → (limit ≤ length rb)%nat →
  length (store_bytes rb off data) = length rb
  ∧ take (Z.to_nat off) (store_bytes rb off data) = take (Z.to_nat off) rb
  ∧ drop limit (store_bytes rb off data) = drop limit rb.
Proof.
  intros Hoff Hfit Hlim. unfold store_bytes, memcpy_at.
  rewrite Nat2Z.id, firstn_all.
  assert (length (take (Z.to_nat off) rb) = Z.to_nat off) as Hlt
    by (rewrite length_take; lia).
  split_and!.
  - rewrite !length_app, Hlt, length_drop. lia.
  - rewrite take_app_length'; done.
  - rewrite app_assoc. rewrite drop_app_ge by (rewrite length_app, Hlt; lia).
    rewrite length_app, Hlt, drop_drop. f_equal. lia.
Qed.

(** the receive of a frame that is on the way, into a buffer of exactly
    its size *)
Lemma receive_delivered w h hd (d : list byte) :
  heap w !! h = Some hd → delivers hd d →
  let cap := Z.of_nat (length d) in
  let pret := pr_ret (t_probe true (chan hd)).1 in
  let rret := rr_ret (t_receive cap (t_probe true (chan hd)).2).1 in
  ∃ w1,
    receiveFromHandle h cap w = Some ((rret, d), w1) ∧ 0 < rret
    ∧ trace w1 = trace w ++ [EvProbe h true pret cap; EvReceive h cap rret]
    ∧ (∀ h', h' ≠ h → heap w1 !! h' = heap w !! h')
    ∧ (∀ h', is_Some (heap w !! h') → is_Some (heap w1 !! h')).
Proof.
  intros E (P & C & Hne & Hpos & Hsz & Hrpos & Hdata) cap pret rret.
  assert (cap ≠ 0) as Hcap by (subst cap; destruct d; [done|cbn; lia]).
  rewrite (run_receiveFromHandle_unprobed _ _ _ _ E P).
  rewrite (probeHandle_table _ _ _ _ _ E P C). cbv zeta.
  rewrite Hsz. cbn [default from_option id]. unfold id. fold cap. fold pret.
  destruct (Z.ltb_spec 0 pret) as [_|?]; [|unfold pret in *; lia].
  destruct (Z.eqb_spec cap 0) as [?|_]; [done|].
  destruct (Z.leb_spec pret 0) as [?|_]; [unfold pret in *; lia|].
  erewrite (run_receiveFromHandle_probed _ h)
    by (first [apply lookup_insert_eq | reflexivity]).
  cbn [heap errno trace closed_wr chan].
  destruct (Z.gtb_spec cap cap) as [?|_]; [lia|].
  rewrite Z.min_id. cbv zeta. fold rret.
  assert (take (Z.to_nat cap) (rr_data (t_receive cap (t_probe true (chan hd)).2).1) = d)
    as ->.
  { subst cap. rewrite Hdata, Nat2Z.id. apply firstn_all. }
  eexists. split; [reflexivity|]. split; [done|].
  split; [by rewrite <- app_assoc|]. cbn [heap]. split.
  - intros h' Hh'. by rewrite !lookup_insert_ne.
  - intros h' Hh'. apply lookup_insert_is_Some'. right.
    apply lookup_insert_is_Some'. by right.
Qed.

End ReceiveBounds.

Section GatherFacts.
Context {T : Type} `{Transport T}.
Implicit Types (w : World T) (hd : Handle T).

Variables recvsize datasize n : Z.
Let ch := chunk recvsize datasize n.
Let dp := displacement recvsize datasize n.
Let datacount := recvsize / datasize.
Let recvcount := wrap64 ((datacount / n) * datasize).
Let rcount := datacount mod n.

Hypothesis Hds : 0 < datasize.
Hypothesis Hn : 1 ≤ n ≤ SIZE_MAX.
Hypothesis Hsz : 0 ≤ recvsize ≤ SIZE_MAX.

Lemma gather_recvcount : recvcount = (datacount / n) * datasize.
Proof.
  pose proof (base_bound recvsize datasize n) as (H0 & H1 & H2); [lia..|].
  unfold recvcount, datacount. apply wrap64_small. lia.
Qed.

(** the share of the root, as the root computes it *)
Lemma gather_self_chunk :
  (if rcount >? 0 then wrap64 (recvcount + datasize) else recvcount) = ch 0.
Proof.
  pose proof (base_bound recvsize datasize n) as (H0 & H1 & H2); [lia..|].
  pose proof (remainder_bound recvsize datasize n) as Hr; [lia..|].
  fold datacount rcount in H0, H1, H2, Hr.
  rewrite gather_recvcount. unfold ch, chunk. cbv zeta. fold datacount rcount.
  destruct (Z.gtb_spec rcount 0); destruct (Z.ltb_spec 0 rcount); try lia.
  apply wrap64_small. lia.
Qed.

(** the share of peer rank [i + 1], as the loop of the root computes it *)
Lemma gather_loop_chunk (i : nat) :
  Z.of_nat i + 1 ≤ SIZE_MAX →
  (if negb (rcount =? 0) && (wrap64 (Z.of_nat i + 1) <? rcount)
   then wrap64 (recvcount + datasize) else recvcount) = ch (Z.of_nat (S i)).
Proof.
  intros Hi.
  pose proof (base_bound recvsize datasize n) as (H0 & H1 & H2); [lia..|].
  pose proof (remainder_bound recvsize datasize n) as Hr; [lia..|].
  fold datacount rcount in H0, H1, H2, Hr.
  rewrite gather_recvcount, (wrap64_small (Z.of_nat i + 1)) by lia.
  unfold ch, chunk. cbv zeta. fold datacount rcount.
  destruct (Z.eqb_spec rcount 0); destruct (Z.ltb_spec (Z.of_nat i + 1) rcount);
    destruct (Z.ltb_spec (Z.of_nat (S i)) rcount); cbn [negb andb]; try lia.
  apply wrap64_small. lia.
Qed.

(** the share of a non-root, as it computes it from its rank *)
Lemma gather_rank_chunk (rank : Z) :
  0 ≤ rank → n ≤ INT_MAX →
  (if negb (rcount =? 0) && (rank <? to_int rcount)
   then wrap64 (recvcount + datasize) else recvcount) = ch rank.
Proof.
  intros Hrank Hint.
  pose proof (base_bound recvsize datasize n) as (H0 & H1 & H2); [lia..|].
  pose proof (remainder_bound recvsize datasize n) as Hr; [lia..|].
  fold datacount rcount in H0, H1, H2, Hr.
  rewrite gather_recvcount, (to_int_small rcount) by (unfold INT_MAX in *; lia).
  unfold ch, chunk. cbv zeta. fold datacount rcount.
  destruct (Z.eqb_spec rcount 0); destruct (Z.ltb_spec rank rcount);
    cbn [negb andb]; try lia.
  apply wrap64_small. lia.
Qed.

Variable c : GatherGeneric.t.
Hypothesis Hnc : nparticipants (GatherGeneric.base c) = n.
Let ps := participants (GatherGeneric.base c).

(** X16.  Gather on a non-root.  The call never looks at [recvbuff] (which may
    be null) nor at what [recvsize] bytes would hold beyond the share: it
    sends the first [chunk(rank)] bytes of [sendbuff] to its first
    participant by one [send], and returns [chunk(rank)]; when the send
    fails the result is -1 with [ECONNRESET].  A [sendsize] below the
    share is refused with [EINVAL] before anything is sent. *)
Theorem Gather_nonroot_sendrecv (sb : buffer) sendsize (recvbuff : option buffer)
    w h rest hd :
  GatherGeneric.root c = false →
  ps = h :: rest → heap w !! h = Some hd →
  recvsize mod datasize = 0 → recvsize ≤ SSIZE_MAX →
  0 ≤ rank (GatherGeneric.base c) → n ≤ INT_MAX →
  let mine := ch (rank (GatherGeneric.base c)) in
  (sendsize < mine →
     GatherGeneric.sendrecv c (Some sb) sendsize recvbuff recvsize datasize w
       = Some ((-1, recvbuff), mkWorld (heap w) EINVAL (trace w)))
  ∧ (mine ≤ sendsize →
       let data := take (Z.to_nat mine) sb in
       let ret := sr_ret (t_send data (chan hd)).1 in
       ∃ r w',
         GatherGeneric.sendrecv c (Some sb) sendsize recvbuff recvsize datasize w
           = Some ((r, recvbuff), w')
         ∧ events_since w w' = [EvSend h data ret]
         ∧ (0 ≤ ret → r = mine)
         ∧ (ret < 0 → r = -1 ∧ errno w' = ECONNRESET)).
Proof.
  intros Hroot Hps E Hdiv Hss Hrank Hint mine.
  pose proof (chunk_bound recvsize datasize n ltac:(lia) ltac:(lia) ltac:(lia)
                (rank (GatherGeneric.base c)) Hrank) as Hmine.
  fold ch in Hmine. fold mine in Hmine.
  unfold GatherGeneric.sendrecv. rewrite Hroot, Hnc, Hdiv.
  destruct (Z.eqb_spec datasize 0); [lia|]. cbn [Z.eqb negb].
  destruct (Z.eqb_spec n 0); [lia|]. cbv zeta.
  fold datacount. fold recvcount. fold rcount.
  rewrite (gather_rank_chunk _ Hrank Hint). fold mine.
  split.
  - intros Hsmall. by destruct (Z.gtb_spec mine sendsize); [|lia].
  - intros Hfit. set (data := take (Z.to_nat mine) sb).
    set (retv := sr_ret (t_send data (chan hd)).1).
    destruct (Z.gtb_spec mine sendsize); [lia|].
    fold ps. rewrite Hps. unfold bind at 1. rewrite (run_at_ _ 0 h) by done.
    unfold bind at 1. rewrite (run_Handle_send _ _ _ _ E). cbv beta iota zeta.
    fold data. fold retv.
    destruct (Z.ltb_spec retv 0) as [Hneg|Hok].
    + eexists (-1), _. split; [reflexivity|]. split; [apply events_since_app|].
      split; [lia|done].
    + eexists mine, _. cbn [ret]. rewrite to_ssize_small by lia.
      split; [reflexivity|]. split; [apply events_since_app|]. split; [done|lia].
Qed.

Hypothesis Hdiv : recvsize mod datasize = 0.
Hypothesis Hps : Z.of_nat (length ps) = n - 1.

Lemma gather_dp_step (i : nat) :
  (i < length ps)%nat →
  0 ≤ dp (S i) ∧ 0 ≤ ch (Z.of_nat (S i))
  ∧ dp (S (S i)) = dp (S i) + ch (Z.of_nat (S i))
  ∧ dp (S (S i)) ≤ recvsize.
Proof.
  intros Hi.
  pose proof (displacement_nonneg recvsize datasize n ltac:(lia) ltac:(lia) ltac:(lia) (S i)).
  pose proof (chunk_bound recvsize datasize n ltac:(lia) ltac:(lia) ltac:(lia)
                (Z.of_nat (S i)) ltac:(lia)).
  pose proof (displacement_mono recvsize datasize n ltac:(lia) ltac:(lia) ltac:(lia)
                (S (S i)) (Z.to_nat n) ltac:(lia)) as Hmono.
  rewrite displacement_total in Hmono by (done || lia).
  unfold dp, ch. split_and!; [done|lia|reflexivity|done].
Qed.

(** The loop of the root, whatever the peers do: it writes inside the
    first [recvsize] bytes of [recvbuff] and after the displacement it
    started from, and receives from the peers one after the other until
    a receive returns 0 or less. *)
Lemma Gather_loop_served (k : nat) : ∀ (i : nat) w (rb : buffer),
  (i + k = length ps)%nat →
  (∀ h, h ∈ ps → is_Some (heap w !! h)) →
  (Z.to_nat recvsize ≤ length rb)%nat →
  ∃ out rb' w' runs,
    GatherGeneric.gather_loop k c (Z.of_nat i) rcount recvcount datasize (dp (S i)) rb w
      = Some ((out, rb'), w')
    ∧ length rb' = length rb
    ∧ take (Z.to_nat (dp (S i))) rb' = take (Z.to_nat (dp (S i))) rb
    ∧ drop (Z.to_nat recvsize) rb' = drop (Z.to_nat recvsize) rb
    ∧ trace w' = trace w ++ concat (snd <$> runs)
    ∧ receive_runs (λ j, ch (Z.of_nat (S j))) i (drop i ps) w runs w'
    ∧ (∀ j run, runs !! j = Some run →
         ∃ h, ps !! (i + j)%nat = Some h
           ∧ Forall (λ e, handle_of e = h) run.2
           ∧ (0 < run.1 → ∃ pre s, run.2 = pre ++ [EvReceive h s run.1]))
    ∧ match out with
      | Some rv => rv ≤ 0 ∧ ∃ runs0 g, runs = runs0 ++ [(rv, g)]
                                     ∧ Forall (λ run, 0 < run.1) runs0
      | None => length runs = k ∧ Forall (λ run, 0 < run.1) runs
      end.
Proof.
  induction k as [|k IH]; intros i w rb Hik Hvalid Hlen.
  - exists None, rb, w, []. rewrite (drop_ge ps i) by lia.
    split_and!; try done. by rewrite app_nil_r.
  - cbn [GatherGeneric.gather_loop]. cbv zeta.
    rewrite gather_loop_chunk by lia.
    destruct (gather_dp_step i ltac:(lia)) as (Hdp0 & Hch0 & Hdps & Hdple).
    destruct (lookup_lt_is_Some_2 ps i) as [h Hh]; [lia|].
    fold ps. unfold bind at 1. rewrite (run_at_ ps (Z.of_nat i) h) by (by rewrite Nat2Z.id).
    assert (h ∈ ps) as Hin by (by eapply list_elem_of_lookup_2).
    destruct (Hvalid h Hin) as [hd Hhd].
    destruct (receiveFromHandle_total w h hd (ch (Z.of_nat (S i))) Hhd)
      as (r & data & w1 & Hrun & _).
    pose proof (receiveFromHandle_data_bound _ _ _ _ _ _ _ Hhd Hrun) as Hbound.
    pose proof (receiveFromHandle_served _ _ _ _ _ _ _ Hhd Hrun) as Hserved.
    destruct (confined_receiveFromHandle [h] h (ch (Z.of_nat (S i))) ltac:(by left)
                w (r, data) w1 Hrun) as (_ & Hval1 & evs1 & Htr1 & Hev1).
    assert (events_since w w1 = evs1) as Hevs1 by (by apply events_since_trace).
    rewrite Hevs1 in Hserved.
    unfold bind at 1. rewrite Hrun. cbv beta iota zeta.
    destruct (store_bytes_inside rb (dp (S i)) data (Z.to_nat recvsize))
      as (Hl1 & Ht1 & Hd1); [lia|lia|lia|].
    set (rb1 := store_bytes rb (dp (S i)) data) in *.
    assert (Forall (λ e, handle_of e = h) evs1) as Hev1'.
    { eapply Forall_impl; [exact Hev1|]. intros e He. by apply list_elem_of_singleton in He. }
    rewrite (drop_S _ _ _ Hh).
    destruct (Z.leb_spec r 0) as [Hle|Hgt].
    + exists (Some r), rb1, w1, [(r, evs1)]. split_and!; try done.
      * cbn [fmap list_fmap concat snd]. by rewrite app_nil_r.
      * cbn [receive_runs]. exists data, w1. split_and!; try done.
        by destruct (Z.leb_spec r 0); [|lia].
      * intros [|j] run Hj; [|done]. injection Hj as <-. exists h.
        rewrite Nat.add_0_r. split_and!; try done; cbn [fst]; lia.
      * exists [], evs1. split; [done|by apply Forall_nil].
    + destruct (IH (S i) w1 rb1)
        as (out & rb' & w' & runs & Hrun' & Hl & Ht & Hd & Htr & Hruns & Hg & Hout).
      { lia. }
      { intros h' Hh'. by apply Hval1, Hvalid. }
      { lia. }
      rewrite (wrap64_small (Z.of_nat i + 1)) by lia.
      rewrite (wrap64_small (dp (S i) + ch (Z.of_nat (S i)))) by lia.
      rewrite <- Hdps. replace (Z.of_nat i + 1) with (Z.of_nat (S i)) by lia.
      rewrite Hrun'. exists out, rb', w', ((r, evs1) :: runs). split_and!.
      * done.
      * by rewrite Hl.
      * rewrite <- Ht1.
        rewrite <- (take_take_le rb' (Z.to_nat (dp (S i))) (Z.to_nat (dp (S (S i))))) by lia.
        rewrite Ht. by rewrite take_take_le by lia.
      * by rewrite Hd.
      * rewrite Htr, Htr1. cbn [fmap list_fmap concat snd]. by rewrite <- app_assoc.
      * cbn [receive_runs]. exists data, w1. split_and!; try done.
        by destruct (Z.leb_spec r 0); [lia|].
      * intros [|j] run Hj.
        -- injection Hj as <-. exists h. rewrite Nat.add_0_r. by split_and!.
        -- destruct (Hg j run Hj) as (h' & Hh' & Hf). exists h'. split; [|done].
           by replace (i + S j)%nat with (S i + j)%nat by lia.
      * destruct out as [rv|].
        -- destruct Hout as (Hrv & runs0 & g & -> & Hpos). split; [done|].
           exists ((r, evs1) :: runs0), g. split; [done|].
           apply Forall_cons. by split.
        -- destruct Hout as [Hlr Hpos]. split; [cbn [length]; lia|].
           apply Forall_cons. by split.
Qed.

(** X17.  Gather at the root, whatever the peers do.  The root refuses a
    [sendsize] below its own share with [EINVAL], before it looks at
    [recvbuff]; with the sizes right a null [recvbuff] gives [EFAULT];
    both without calling any Handle.  Otherwise the call returns, and
    what it did is a sequence of calls of [receiveFromHandle], the
    [j]-th on [participants[j]] with the capacity [chunk(j + 1)] in the
    world the calls before it have left, made until one returns 0 or
    less.  Either every call returned a positive value, there was one
    for each peer, and the result is the share of the root; or the last
    call made returned 0 or less, every call before it returned a
    positive value, and the result is the value of that last call.  A
    call that returned a positive value ended with a [receive] on its
    Handle that returned this value, and all the Handle methods it called
    were called on its Handle.  The call writes nothing beyond the first
    [recvsize] bytes of [recvbuff], whose front holds the share of the
    root taken from [sendbuff]. *)
Theorem Gather_root_sendrecv (sb : buffer) sendsize w :
  GatherGeneric.root c = true →
  recvsize ≤ SSIZE_MAX →
  (∀ h, h ∈ ps → is_Some (heap w !! h)) →
  (sendsize < ch 0 → ∀ recvbuff,
     GatherGeneric.sendrecv c (Some sb) sendsize recvbuff recvsize datasize w
       = Some ((-1, recvbuff), mkWorld (heap w) EINVAL (trace w)))
  ∧ (ch 0 ≤ sendsize →
     GatherGeneric.sendrecv c (Some sb) sendsize None recvsize datasize w
       = Some ((-1, None), mkWorld (heap w) EFAULT (trace w)))
  ∧ (ch 0 ≤ sendsize → ∀ rb : buffer,
     (Z.to_nat (ch 0) ≤ length sb)%nat → (Z.to_nat recvsize ≤ length rb)%nat →
     ∃ r rb' w' runs,
       GatherGeneric.sendrecv c (Some sb) sendsize (Some rb) recvsize datasize w
         = Some ((r, Some rb'), w')
       ∧ ((r = ch 0 ∧ length runs = length ps ∧ Forall (λ run, 0 < run.1) runs)
          ∨ (r ≤ 0 ∧ ∃ runs0 g, runs = runs0 ++ [(r, g)]
                                ∧ Forall (λ run, 0 < run.1) runs0))
       ∧ length rb' = length rb
       ∧ take (Z.to_nat (ch 0)) rb' = take (Z.to_nat (ch 0)) sb
       ∧ drop (Z.to_nat recvsize) rb' = drop (Z.to_nat recvsize) rb
       ∧ events_since w w' = concat (snd <$> runs)
       ∧ receive_runs (λ j, ch (Z.of_nat (S j))) 0 ps w runs w'
       ∧ (∀ j run, runs !! j = Some run →
            ∃ h, ps !! j = Some h
              ∧ Forall (λ e, handle_of e = h) run.2
              ∧ (0 < run.1 → ∃ pre s, run.2 = pre ++ [EvReceive h s run.1]))
       ∧ (0 < r → length runs = length ps)).
Proof.
  intros Hroot Hss Hvalid.
  pose proof (chunk_bound recvsize datasize n ltac:(lia) ltac:(lia) ltac:(lia) 0 ltac:(lia))
    as Hc0. fold ch in Hc0.
  assert (∀ recvbuff,
    GatherGeneric.sendrecv c (Some sb) sendsize recvbuff recvsize datasize w =
      if sendsize <? ch 0 then Some ((-1, recvbuff), mkWorld (heap w) EINVAL (trace w))
      else match recvbuff with
           | None => Some ((-1, None), mkWorld (heap w) EFAULT (trace w))
           | Some rb =>
             (let* '(returned, rb) :=
                GatherGeneric.gather_loop (Z.to_nat (wrap64 (n - 1))) c 0 rcount recvcount
                                          datasize (ch 0) (memcpy rb sb (ch 0)) in
              match returned with
              | Some return_value => ret (return_value, Some rb)
              | None => ret (to_ssize (ch 0), Some rb)
              end) w
           end) as Hunfold.
  { intros recvbuff. unfold GatherGeneric.sendrecv. rewrite Hroot, Hnc, Hdiv.
    destruct (Z.eqb_spec datasize 0); [lia|]. cbn [Z.eqb negb].
    destruct (Z.eqb_spec n 0); [lia|]. cbv zeta.
    fold datacount. fold recvcount. fold rcount. rewrite gather_self_chunk.
    destruct (sendsize <? ch 0); [done|]. by destruct recvbuff. }
  split_and!.
  - intros Hsmall recvbuff. rewrite Hunfold.
    by destruct (Z.ltb_spec sendsize (ch 0)); [|lia].
  - intros Hfit. rewrite Hunfold.
    by destruct (Z.ltb_spec sendsize (ch 0)); [lia|].
  - intros Hfit rb Hsb Hrb. rewrite Hunfold.
    destruct (Z.ltb_spec sendsize (ch 0)); [lia|].
    assert (length (memcpy rb sb (ch 0)) = length rb
            ∧ take (Z.to_nat (ch 0)) (memcpy rb sb (ch 0)) = take (Z.to_nat (ch 0)) sb
            ∧ drop (Z.to_nat recvsize) (memcpy rb sb (ch 0)) = drop (Z.to_nat recvsize) rb)
      as (Hl0 & Ht0 & Hd0).
    { unfold memcpy, memcpy_at. change (Z.to_nat 0) with 0%nat.
      rewrite take_0. cbn [app Nat.add].
      assert (length (take (Z.to_nat (ch 0)) sb) = Z.to_nat (ch 0)) as Hlt
        by (rewrite length_take; lia).
      assert (Z.to_nat (ch 0) ≤ Z.to_nat recvsize)%nat by lia.
      split_and!.
      - rewrite length_app, Hlt, length_drop. lia.
      - by rewrite take_app_length' by (by rewrite Hlt).
      - rewrite drop_app_ge by lia. rewrite Hlt, drop_drop. f_equal. lia. }
    destruct (Gather_loop_served (length ps) 0 w (memcpy rb sb (ch 0)))
      as (out & rb' & w' & runs & Hrun & Hl & Ht & Hd & Htr & Hruns & Hg & Hout);
      [lia|done|lia|].
    replace (Z.to_nat (wrap64 (n - 1))) with (length ps)
      by (rewrite wrap64_small by lia; lia).
    change (Z.of_nat 0) with 0 in Hrun.
    change (dp 1) with (0 + ch 0) in Hrun, Ht. rewrite Z.add_0_l in Hrun, Ht.
    rewrite drop_0 in Hruns.
    unfold bind at 1. rewrite Hrun.
    destruct out as [rv|].
    + destruct Hout as [Hrv Hlast].
      exists rv, rb', w', runs. rewrite (events_since_trace _ _ _ Htr).
      split_and!; try done; [by right|by rewrite Hl|by rewrite Ht|by rewrite Hd|lia].
    + destruct Hout as [Hlr Hpos].
      exists (ch 0), rb', w', runs. rewrite (events_since_trace _ _ _ Htr).
      cbn [ret]. rewrite to_ssize_small by lia.
      split_and!; try done; [by left|by rewrite Hl|by rewrite Ht|by rewrite Hd].
Qed.

(** The loop of the root when every peer delivers its share: the shares
    are laid one after the other from the displacement of the first. *)
Lemma Gather_loop_delivers (k : nat) : ∀ (i : nat) w (rb : buffer) (ds : list (list byte)),
  (i + k = length ps)%nat → length ds = k → NoDup ps →
  (∀ j h d, ps !! (i + j)%nat = Some h → ds !! j = Some d →
     ∃ hd, heap w !! h = Some hd ∧ delivers hd d
           ∧ Z.of_nat (length d) = ch (Z.of_nat (S (i + j)))) →
  (Z.to_nat recvsize ≤ length rb)%nat →
  ∃ w' groups,
    GatherGeneric.gather_loop k c (Z.of_nat i) rcount recvcount datasize (dp (S i)) rb w
      = Some ((None, take (Z.to_nat (dp (S i))) rb ++ concat ds
                     ++ drop (Z.to_nat (dp (S (i + k)))) rb), w')
    ∧ Z.of_nat (length (concat ds)) = dp (S (i + k)) - dp (S i)
    ∧ (∀ h, is_Some (heap w !! h) → is_Some (heap w' !! h))
    ∧ trace w' = trace w ++ concat groups ∧ length groups = k
    ∧ ∀ j g, groups !! j = Some g →
        ∃ h pret size rret, ps !! (i + j)%nat = Some h
          ∧ g = [EvProbe h true pret size; EvReceive h size rret].
Proof.
  induction k as [|k IH]; intros i w rb ds Hik Hlds Hnd Hds' Hlen.
  - destruct ds; [|done]. exists w, []. rewrite Nat.add_0_r. cbn [concat app].
    rewrite take_drop. split_and!; try done; [cbn; lia|by rewrite app_nil_r].
  - destruct ds as [|d ds]; [done|]. injection Hlds as Hlds.
    cbn [GatherGeneric.gather_loop]. cbv zeta.
    rewrite gather_loop_chunk by lia.
    destruct (gather_dp_step i ltac:(lia)) as (Hdp0 & Hch0 & Hdps & Hdple).
    destruct (lookup_lt_is_Some_2 ps i) as [h Hh]; [lia|].
    fold ps. unfold bind at 1. rewrite (run_at_ ps (Z.of_nat i) h) by (by rewrite Nat2Z.id).
    destruct (Hds' 0%nat h d) as (hd & Hhd & Hdel & Hld);
      [by rewrite Nat.add_0_r|done|].
    rewrite Nat.add_0_r in Hld.
    destruct (receive_delivered w h hd d Hhd Hdel)
      as (w1 & Hrun & Hrpos & Htr1 & Hother & Hval1).
    cbv zeta in Hrun, Hrpos, Htr1. rewrite Hld in Hrun, Hrpos, Htr1.
    match type of Htr1 with _ = _ ++ [EvProbe _ _ ?p _; EvReceive _ _ ?r] =>
      set (pret := p) in *; set (rret := r) in * end.
    unfold bind at 1. rewrite Hrun. cbv beta iota zeta.
    destruct (Z.leb_spec rret 0) as [?|_]; [lia|].
    rewrite (wrap64_small (Z.of_nat i + 1)) by lia.
    rewrite (wrap64_small (dp (S i) + ch (Z.of_nat (S i)))) by lia.
    rewrite <- Hdps. replace (Z.of_nat i + 1) with (Z.of_nat (S i)) by lia.
    set (rb1 := store_bytes rb (dp (S i)) d).
    assert (dp (S (S i)) ≤ dp (S (S i + k))) as Hmono.
    { apply displacement_mono; lia. }
    assert (dp (S (S i + k)) ≤ recvsize) as Hend.
    { pose proof (displacement_mono recvsize datasize n ltac:(lia) ltac:(lia) ltac:(lia)
                    (S (S i + k)) (Z.to_nat n) ltac:(lia)) as Hm.
      rewrite displacement_total in Hm by (done || lia). done. }
    destruct (store_bytes_inside rb (dp (S i)) d (Z.to_nat (dp (S (S i + k)))))
      as (Hl1 & Ht1 & Hd1); [lia|lia|lia|]. fold rb1 in Hl1, Ht1, Hd1.
    assert (take (Z.to_nat (dp (S (S i)))) rb1 = take (Z.to_nat (dp (S i))) rb ++ d) as Hfront.
    { unfold rb1, store_bytes, memcpy_at. rewrite Nat2Z.id, firstn_all.
      rewrite app_assoc. apply take_app_length'.
      rewrite length_app, length_take. lia. }
    destruct (IH (S i) w1 rb1 ds) as (w' & groups & Hrun' & Hsum & Hval & Htr & Hlg & Hg).
    { lia. }
    { done. }
    { done. }
    { intros j h' d' Hh' Hd'.
      destruct (Hds' (S j) h' d') as (hd' & Hhd' & Hdel' & Hld').
      { by replace (i + S j)%nat with (S i + j)%nat by lia. }
      { done. }
      exists hd'. split_and!; try done.
      - rewrite Hother; [done|]. intros ->.
        pose proof (NoDup_lookup _ _ _ _ Hnd Hh Hh'). lia.
      - by replace (S i + j)%nat with (i + S j)%nat by lia. }
    { lia. }
    replace (S i + k)%nat with (i + S k)%nat in * by lia.
    rewrite Hrun'. exists w', ([EvProbe h true pret (ch (Z.of_nat (S i)));
                               EvReceive h (ch (Z.of_nat (S i))) rret] :: groups).
    split_and!.
    + rewrite Hfront, Hd1. cbn [concat]. by rewrite <- !app_assoc.
    + cbn [concat]. rewrite length_app. lia.
    + intros h' Hh'. by apply Hval, Hval1.
    + rewrite Htr, Htr1. cbn [concat]. by rewrite <- !app_assoc.
    + cbn [length]. lia.
    + intros [|j] g Hj.
      * injection Hj as <-. exists h, pret, (ch (Z.of_nat (S i))), rret.
        by rewrite Nat.add_0_r.
      * destruct (Hg j g Hj) as (h' & p' & s' & r' & Hh' & ->).
        exists h', p', s', r'. split; [|done].
        by replace (i + S j)%nat with (S i + j)%nat by lia.
Qed.

(** X18.  Gather at the root assembles the shares in rank order.  When the
    Handles of the peers are distinct and the peer of rank [j + 1] has a
    frame of exactly [chunk(j + 1)] bytes on the way, the call returns
    the share of the root, and the first [recvsize] bytes of [recvbuff]
    are the share of the root taken from [sendbuff] followed by the
    frames of the peers in the order of [participants]; the rest of
    [recvbuff] is untouched.  The calls made are, for every peer in
    turn, one blocking [probe] and one [receive] of the size announced. *)
Theorem Gather_root_assembles (sb rb : buffer) sendsize w (ds : list (list byte)) :
  GatherGeneric.root c = true →
  recvsize ≤ SSIZE_MAX →
  NoDup ps → length ds = length ps →
  (∀ j h d, ps !! j = Some h → ds !! j = Some d →
     ∃ hd, heap w !! h = Some hd ∧ delivers hd d
           ∧ Z.of_nat (length d) = ch (Z.of_nat (S j))) →
  ch 0 ≤ sendsize →
  (Z.to_nat (ch 0) ≤ length sb)%nat → (Z.to_nat recvsize ≤ length rb)%nat →
  let gathered := take (Z.to_nat (ch 0)) sb ++ concat ds in
  ∃ w',
    GatherGeneric.sendrecv c (Some sb) sendsize (Some rb) recvsize datasize w
      = Some ((ch 0, Some (gathered ++ drop (Z.to_nat recvsize) rb)), w')
    ∧ Z.of_nat (length gathered) = recvsize
    ∧ receives_of ps (events_since w w').
Proof.
  intros Hroot Hss Hnd Hlds Hds' Hfit Hsb Hrb gathered.
  pose proof (chunk_bound recvsize datasize n ltac:(lia) ltac:(lia) ltac:(lia) 0 ltac:(lia))
    as Hc0. fold ch in Hc0.
  assert (dp (Z.to_nat n) = recvsize) as Htot by (apply displacement_total; done || lia).
  unfold GatherGeneric.sendrecv. rewrite Hroot, Hnc, Hdiv.
  destruct (Z.eqb_spec datasize 0); [lia|]. cbn [Z.eqb negb].
  destruct (Z.eqb_spec n 0); [lia|]. cbv zeta.
  fold datacount. fold recvcount. fold rcount. rewrite gather_self_chunk.
  destruct (Z.ltb_spec sendsize (ch 0)); [lia|].
  assert (length (take (Z.to_nat (ch 0)) sb) = Z.to_nat (ch 0)) as Hlt
    by (rewrite length_take; lia).
  destruct (Gather_loop_delivers (length ps) 0 w (memcpy rb sb (ch 0)) ds)
    as (w' & groups & Hrun & Hsum & _ & Htr & Hlg & Hg); [lia|done|done|done| |].
  { unfold memcpy, memcpy_at. change (Z.to_nat 0) with 0%nat. rewrite take_0. cbn [app Nat.add].
    rewrite length_app, Hlt, length_drop. lia. }
  replace (Z.to_nat (wrap64 (n - 1))) with (length ps)
    by (rewrite wrap64_small by lia; lia).
  change (Z.of_nat 0) with 0 in Hrun.
  change (dp 1) with (0 + ch 0) in Hrun, Hsum. rewrite Z.add_0_l in Hrun, Hsum.
  replace (S (0 + length ps)) with (Z.to_nat n) in Hrun, Hsum by lia.
  rewrite Htot in Hrun, Hsum.
  unfold bind at 1. rewrite Hrun. cbn [ret]. rewrite to_ssize_small by lia.
  assert (take (Z.to_nat (ch 0)) (memcpy rb sb (ch 0)) = take (Z.to_nat (ch 0)) sb) as ->.
  { unfold memcpy, memcpy_at. change (Z.to_nat 0) with 0%nat. rewrite take_0. cbn [app Nat.add].
    by rewrite take_app_length' by (by rewrite Hlt). }
  assert (drop (Z.to_nat recvsize) (memcpy rb sb (ch 0)) = drop (Z.to_nat recvsize) rb) as ->.
  { unfold memcpy, memcpy_at. change (Z.to_nat 0) with 0%nat. rewrite take_0. cbn [app Nat.add].
    rewrite drop_app_ge by lia. rewrite Hlt, drop_drop. f_equal. lia. }
  exists w'. subst gathered. rewrite <- app_assoc. split_and!.
  - done.
  - rewrite length_app, Hlt. lia.
  - rewrite (events_since_trace _ _ _ Htr). by exists groups.
Qed.

End GatherFacts.

(** ** AllGather at the root *)

Section AllGatherFacts.
Context {T : Type} `{Transport T}.
Implicit Types (w : World T) (hd : Handle T).

Lemma bind_run {A B} (m : M T A) (k : A → M T B) w :
  bind m k w = match m w with Some (a, w') => k a w' | None => None end.
Proof. reflexivity. Qed.

Lemma bind_at {A B} (v : list A) i (k : A → M T B) w :
  bind (at_ v i) k w
  = match v !! Z.to_nat i with Some x => k x w | None => None end.
Proof. unfold bind, at_. by destruct (v !! Z.to_nat i). Qed.

(** the receiving loop of AllGather is the one of Gather *)
Lemma AllGather_gather_loop_as_Gather (k : nat) (ca : AllGatherGeneric.t)
    (cg : GatherGeneric.t) :
  participants (AllGatherGeneric.base ca) = participants (GatherGeneric.base cg) →
  ∀ i rcount recvcount datasize displ rb w,
    AllGatherGeneric.gather_loop k ca i rcount recvcount datasize displ rb w
    = GatherGeneric.gather_loop k cg i rcount recvcount datasize displ rb w.
Proof.
  intros Hps. induction k as [|k IH]; intros i rcount recvcount datasize displ rb w; [done|].
  cbn [AllGatherGeneric.gather_loop GatherGeneric.gather_loop]. cbv zeta.
  rewrite Hps. unfold bind.
  destruct (at_ _ i w) as [[h w0]|]; [|done].
  destruct (receiveFromHandle h _ w0) as [[[r data] w1]|]; [|done].
  destruct (r <=? 0); [done|]. apply IH.
Qed.

(** the loop that sends the result back is the loop of Broadcast *)
Lemma reflect_loop_as_send_loop (hs : list nat) (data : list byte) w :
  AllGatherGeneric.reflect_loop hs data w
  = BroadcastGeneric.send_loop hs (Some data) (Z.of_nat (length data)) w.
Proof.
  revert w. induction hs as [|h hs IH]; intros w; [done|].
  cbn [AllGatherGeneric.reflect_loop BroadcastGeneric.send_loop].
  rewrite Nat2Z.id, firstn_all. unfold bind.
  destruct (Handle_send h data w) as [[r w1]|]; [|done].
  destruct (r <? 0); [done|]. apply IH.
Qed.

(** X19.  AllGather on a non-root is Gather followed by the receive of
    Broadcast.  With both buffers non-null, the call does what the Gather
    of the same rank does (the same argument checks, the same send of the
    rank's share); when that has not failed, it does what a non-root of
    Broadcast does to receive the result into [recvbuff].  The value
    returned is the one of the Gather part, whatever the receive part
    returns. *)
Theorem AllGather_nonroot_is_Gather_then_receive (b : CollectiveImpl.t)
    (sb rb : buffer) sendsize recvsize datasize w :
  0 ≤ sendsize ≤ SSIZE_MAX →
  AllGatherGeneric.sendrecv (AllGatherGeneric.mk b false) (Some sb) sendsize
                            (Some rb) recvsize datasize w
  = match GatherGeneric.sendrecv (GatherGeneric.mk b false) (Some sb) sendsize
                                 (Some rb) recvsize datasize w with
    | None => None
    | Some ((r, _), w1) =>
      if r <? 0 then Some ((r, Some rb), w1)
      else
        match BroadcastGeneric.sendrecv (BroadcastGeneric.mk b false) None 0
                                        (Some rb) recvsize datasize w1 with
        | None => None
        | Some ((_, rb'), w2) => Some ((r, rb'), w2)
        end
    end.
Proof.
  intros Hsz.
  unfold AllGatherGeneric.sendrecv, GatherGeneric.sendrecv, BroadcastGeneric.sendrecv.
  cbn [AllGatherGeneric.root AllGatherGeneric.base GatherGeneric.root GatherGeneric.base
       BroadcastGeneric.root BroadcastGeneric.base].
  destruct (datasize =? 0); [done|].
  destruct (negb (recvsize mod datasize =? 0)); [done|].
  destruct (nparticipants b =? 0); [done|]. cbv zeta.
  set (recvcount := wrap64 (recvsize / datasize / nparticipants b * datasize)).
  set (rcount := (recvsize / datasize) mod nparticipants b).
  set (chunksize := if negb (rcount =? 0) && (rank b <? to_int rcount)
                    then wrap64 (recvcount + datasize) else recvcount).
  assert (0 ≤ chunksize) as Hc0.
  { subst chunksize recvcount. unfold wrap64.
    destruct (_ && _); apply Z.mod_pos_bound; lia. }
  destruct (Z.gtb_spec chunksize sendsize) as [Hbig|Hfit]; [reflexivity|].
  rewrite !bind_at.
  destruct (participants b !! Z.to_nat 0) as [h|] eqn:Hh; [|done].
  rewrite !(bind_run (Handle_send h _)).
  destruct (Handle_send h _ w) as [[r w1]|]; [|done].
  destruct (r <? 0); [reflexivity|]. cbn [ret].
  rewrite to_ssize_small by lia.
  destruct (Z.ltb_spec chunksize 0) as [?|_]; [lia|].
  rewrite bind_at, Hh. unfold bind.
  destruct (receiveFromHandle h recvsize w1) as [[[res data] w2]|]; [|done].
  by destruct (if res =? 0 then Handle_close h true false else ret ()) as [[? w3]|].
Qed.

Variable c : AllGatherGeneric.t.
Variables recvsize datasize : Z.
Let n := nparticipants (AllGatherGeneric.base c).
Let ps := participants (AllGatherGeneric.base c).
Let ch := chunk recvsize datasize n.

Hypothesis Hds : 0 < datasize.
Hypothesis Hn : 1 ≤ n ≤ SIZE_MAX.
Hypothesis Hsz : 0 ≤ recvsize ≤ SSIZE_MAX.
Hypothesis Hdiv : recvsize mod datasize = 0.
Hypothesis Hps : Z.of_nat (length ps) = n - 1.

(** X20.  AllGather at the root: what is gathered is what is sent back.  When
    the Handles of the peers are distinct and the peer of rank [j + 1]
    has a frame of exactly [chunk(j + 1)] bytes on the way, the root
    first receives these frames, one peer after the other, and then
    sends to every peer, in the same order, the [recvsize] bytes it has
    assembled: its own share followed by the frames in rank order.
    These are also the first [recvsize] bytes of its [recvbuff] when the
    call returns.  The call returns the share of the root when no send
    fails, and -1 with [ECONNRESET] otherwise. *)
Theorem AllGather_root_agreement (sb rb : buffer) sendsize w (ds : list (list byte)) :
  AllGatherGeneric.root c = true →
  NoDup ps → length ds = length ps →
  (∀ j h d, ps !! j = Some h → ds !! j = Some d →
     ∃ hd, heap w !! h = Some hd ∧ delivers hd d
           ∧ Z.of_nat (length d) = ch (Z.of_nat (S j))) →
  ch 0 ≤ sendsize →
  (Z.to_nat (ch 0) ≤ length sb)%nat → (Z.to_nat recvsize ≤ length rb)%nat →
  let gathered := take (Z.to_nat (ch 0)) sb ++ concat ds in
  ∃ r w' recvs sends,
    AllGatherGeneric.sendrecv c (Some sb) sendsize (Some rb) recvsize datasize w
      = Some ((r, Some (gathered ++ drop (Z.to_nat recvsize) rb)), w')
    ∧ Z.of_nat (length gathered) = recvsize
    ∧ events_since w w' = recvs ++ sends
    ∧ receives_of ps recvs
    ∧ (∀ i ev, sends !! i = Some ev →
         ∃ h ret, ps !! i = Some h ∧ ev = EvSend h gathered ret)
    ∧ (sends_ok sends → r = ch 0 ∧ length sends = length ps)
    ∧ (¬ sends_ok sends → r = -1 ∧ errno w' = ECONNRESET).
Proof.
  intros Hroot Hnd Hlds Hds' Hfit Hsb Hrb gathered.
  assert (0 ≤ recvsize ≤ SIZE_MAX) as Hsz' by (unfold SIZE_MAX, SSIZE_MAX in *; lia).
  pose proof (chunk_bound recvsize datasize n ltac:(lia) ltac:(lia) ltac:(lia) 0 ltac:(lia))
    as Hc0. fold ch in Hc0.
  assert (displacement recvsize datasize n (Z.to_nat n) = recvsize) as Htot
    by (apply displacement_total; done || lia).
  set (cg := GatherGeneric.mk (AllGatherGeneric.base c) true).
  unfold AllGatherGeneric.sendrecv. rewrite Hroot, Hdiv.
  destruct (Z.eqb_spec datasize 0); [lia|]. cbn [Z.eqb negb].
  fold n. destruct (Z.eqb_spec n 0); [lia|]. cbv zeta.
  rewrite (gather_self_chunk recvsize datasize n Hds Hn Hsz'). fold ch.
  destruct (Z.ltb_spec sendsize (ch 0)); [lia|].
  assert (length (take (Z.to_nat (ch 0)) sb) = Z.to_nat (ch 0)) as Hlt
    by (rewrite length_take; lia).
  destruct (Gather_loop_delivers recvsize datasize n Hds Hn Hsz' cg Hdiv Hps
              (length ps) 0 w (memcpy rb sb (ch 0)) ds)
    as (w1 & groups & Hrun & Hsum & Hval & Htr & Hlg & Hg); [done|done|done|done| |].
  { unfold memcpy, memcpy_at. change (Z.to_nat 0) with 0%nat. rewrite take_0. cbn [app Nat.add].
    rewrite length_app, Hlt, length_drop. lia. }
  replace (Z.to_nat (wrap64 (n - 1))) with (length ps)
    by (rewrite wrap64_small by lia; lia).
  change (Z.of_nat 0) with 0 in Hrun.
  change (displacement recvsize datasize n 1) with (0 + ch 0) in Hrun, Hsum.
  rewrite Z.add_0_l in Hrun, Hsum.
  replace (S (0 + length ps)) with (Z.to_nat n) in Hrun, Hsum by (fold ps; lia).
  rewrite Htot in Hrun, Hsum.
  unfold bind at 1.
  rewrite (AllGather_gather_loop_as_Gather _ c cg) by done. rewrite Hrun.
  cbv beta iota.
  assert (take (Z.to_nat (ch 0)) (memcpy rb sb (ch 0)) = take (Z.to_nat (ch 0)) sb) as ->.
  { unfold memcpy, memcpy_at. change (Z.to_nat 0) with 0%nat. rewrite take_0. cbn [app Nat.add].
    by rewrite take_app_length' by (by rewrite Hlt). }
  assert (drop (Z.to_nat recvsize) (memcpy rb sb (ch 0)) = drop (Z.to_nat recvsize) rb) as ->.
  { unfold memcpy, memcpy_at. change (Z.to_nat 0) with 0%nat. rewrite take_0. cbn [app Nat.add].
    rewrite drop_app_ge by lia. rewrite Hlt, drop_drop. f_equal. lia. }
  rewrite app_assoc. fold gathered.
  assert (Z.of_nat (length gathered) = recvsize) as Hlg'.
  { subst gathered. rewrite length_app, Hlt. lia. }
  assert (take (Z.to_nat recvsize) (gathered ++ drop (Z.to_nat recvsize) rb) = gathered) as ->.
  { apply take_app_length'. lia. }
  unfold bind at 1. rewrite reflect_loop_as_send_loop. rewrite Hlg'.
  destruct (Broadcast_send_loop_spec gathered recvsize ps w1)
    as (completed & w' & sends & Hrun2 & Htr2 & _ & Hev & Hfin).
  { intros h Hh. apply Hval.
    destruct (list_elem_of_lookup_1 _ _ Hh) as [j Hj].
    destruct (lookup_lt_is_Some_2 ds j) as [d Hd]; [apply lookup_lt_Some in Hj; lia|].
    destruct (Hds' j h d Hj Hd) as (hd & Hhd & _). by eexists. }
  assert (take (Z.to_nat recvsize) gathered = gathered) as Hall
    by (apply take_ge; lia).
  rewrite Hall in Hev, Hfin.
  match goal with |- context [BroadcastGeneric.send_loop ?a ?b ?c ?d] =>
    replace (BroadcastGeneric.send_loop a b c d) with (Some (completed, w'))
      by (symmetry; exact Hrun2) end.
  exists (if completed then ch 0 else -1), w', (concat groups), sends.
  split_and!.
  - destruct completed; [|done]. cbn [ret]. by rewrite to_ssize_small by lia.
  - done.
  - apply events_since_trace. by rewrite Htr2, Htr, <- app_assoc.
  - by exists groups.
  - done.
  - intros Hok. destruct completed; [by destruct Hfin|].
    destruct Hfin as (_ & evs0 & h & ret & -> & _ & Hret).
    by apply sends_ok_failed in Hok.
  - intros Hok. destruct completed; [by destruct Hfin|]. by destruct Hfin.
Qed.

End AllGatherFacts.

(** ** Alltoall *)

Section BlockFacts.

(** blocks of one size laid end to end: the [j]-th block starts at
    [j * size] *)
Lemma drop_concat_blocks (size : nat) (ds : list buffer) :
  Forall (λ d, length d = size) ds →
  ∀ j, drop (j * size) (concat ds) = concat (drop j ds).
Proof.
  induction 1 as [|d ds Hd Hds IH]; intros j.
  - cbn [concat]. by rewrite !drop_nil.
  - destruct j as [|j]; [done|]. cbn [concat drop].
    replace (S j * size)%nat with (length d + j * size)%nat by lia.
    rewrite <- drop_drop, drop_app_length. apply IH.
Qed.

Lemma length_concat_blocks (size : nat) (ds : list buffer) :
  Forall (λ d, length d = size) ds → length (concat ds) = (length ds * size)%nat.
Proof.
  induction 1 as [|d ds Hd Hds IH]; [done|].
  cbn [concat length]. rewrite length_app. lia.
Qed.

Lemma slice_of_block (size : nat) (ds : list buffer) (j : nat) (d : buffer) displ len :
  Forall (λ d, length d = size) ds → ds !! j = Some d →
  0 ≤ displ → 0 ≤ len → displ + len ≤ Z.of_nat size →
  take (Z.to_nat len) (drop (j * size + Z.to_nat displ) (concat ds)) = slice d displ len
  ∧ Z.of_nat (length (slice d displ len)) = len.
Proof.
  intros Hall Hj H0 H1 H2.
  assert (length d = size) as Hld.
  { rewrite Forall_lookup in Hall. by eapply Hall. }
  rewrite <- drop_drop, (drop_concat_blocks size) by done.
  rewrite (drop_S _ _ _ Hj). cbn [concat].
  unfold slice. split.
  - rewrite drop_app_le by lia. rewrite take_app_le; [done|].
    rewrite length_drop. lia.
  - rewrite length_take, length_drop. lia.
Qed.

End BlockFacts.

Section AlltoallFacts.
Context {T : Type} `{Transport T}.
Implicit Types (w : World T) (hd : Handle T).

Variables sendsize datasize n : Z.
Let ch := chunk sendsize datasize n.
Let dp := displacement sendsize datasize n.
Let datacount := sendsize / datasize.
Let sendcount := wrap64 ((datacount / n) * datasize).
Let rcount := datacount mod n.

Hypothesis Hds : 0 < datasize.
Hypothesis Hn : 1 ≤ n.
Hypothesis Hss : 0 ≤ sendsize.
Hypothesis Hfit : (sendsize + datasize) * n ≤ SSIZE_MAX.

Lemma alltoall_sizes :
  sendsize ≤ SSIZE_MAX ∧ n ≤ SSIZE_MAX ∧ sendsize * (n - 1) ≤ SSIZE_MAX
  ∧ ∀ i, 0 ≤ i → 0 ≤ ch i ≤ sendsize ∧ ch i * n ≤ SSIZE_MAX.
Proof.
  assert (sendsize ≤ SSIZE_MAX) by nia.
  assert (n ≤ SSIZE_MAX) by nia.
  split_and!; try done; [nia|]. intros i Hi.
  pose proof (chunk_bound sendsize datasize n ltac:(lia) ltac:(lia) ltac:(lia) i Hi) as Hc.
  fold ch in Hc. split; [done|]. nia.
Qed.

(** the share of rank [i], as the second loop computes it from the
    remainder counter *)
Lemma route_chunk (i : nat) :
  let rc := Z.max 0 (rcount - Z.of_nat i) in
  (if rc >? 0 then (wrap64 (sendcount + datasize), wrap64 (rc - 1))
   else (sendcount, rc))
  = (ch (Z.of_nat i), Z.max 0 (rcount - Z.of_nat (S i))).
Proof.
  intros rc. destruct alltoall_sizes as (B1 & B2 & B3 & _).
  pose proof (base_bound sendsize datasize n) as (H0 & H1 & H2); [lia..|].
  pose proof (remainder_bound sendsize datasize n) as Hr; [lia..|].
  fold datacount rcount in H0, H1, H2, Hr.
  assert (sendcount = (datacount / n) * datasize) as Hsc
    by (unfold sendcount; apply wrap64_small; unfold SIZE_MAX, SSIZE_MAX in *; lia).
  rewrite Hsc. unfold ch, chunk. cbv zeta. fold datacount rcount.
  destruct (Z.gtb_spec rc 0);
    destruct (Z.ltb_spec (Z.of_nat i) rcount); try lia.
  - rewrite !wrap64_small by (unfold SIZE_MAX, SSIZE_MAX in *; lia). f_equal; lia.
  - f_equal; lia.
Qed.

(** The inner loop, on blocks of [sendsize] bytes: from block [j] on, the
    slice at [displ] of every block is laid after the slices already in
    [chunkbuff]. *)
Lemma assemble_loop_spec (ds : list buffer) displ len :
  Forall (λ d, length d = Z.to_nat sendsize) ds →
  0 ≤ displ → 0 ≤ len → displ + len ≤ sendsize →
  Z.of_nat (length ds) = n - 1 →
  len * n ≤ SSIZE_MAX →
  ∀ (k j : nat) (cb : buffer), (j + k = length ds)%nat →
    len * n ≤ Z.of_nat (length cb) →
    AlltoallGeneric.assemble_loop k (Z.of_nat j) ((Z.of_nat j + 1) * len) displ len
                                  sendsize (concat ds) cb
    = take (Z.to_nat ((Z.of_nat j + 1) * len)) cb
      ++ flat_map (λ d, slice d displ len) (drop j ds)
      ++ drop (Z.to_nat (len * n)) cb.
Proof.
  intros Hall Hd0 Hl0 Hdl Hlds Hfitl.
  destruct alltoall_sizes as (B1 & B2 & B3 & _).
  induction k as [|k IH]; intros j cb Hjk Hcb.
  - cbn [AlltoallGeneric.assemble_loop]. rewrite Nat.add_0_r in Hjk. subst j.
    rewrite drop_all. cbn [flat_map app].
    replace ((Z.of_nat (length ds) + 1) * len) with (len * n) by lia.
    by rewrite take_drop.
  - cbn [AlltoallGeneric.assemble_loop]. cbv zeta.
    destruct (lookup_lt_is_Some_2 ds j) as [d Hj]; [lia|].
    assert (Z.of_nat j * sendsize ≤ sendsize * (n - 1)) as Hjs by nia.
    assert ((Z.of_nat j + 2) * len ≤ len * n) as Hjl by nia.
    rewrite (wrap64_small (Z.of_nat j * sendsize))
      by (unfold SIZE_MAX, SSIZE_MAX in *; lia).
    rewrite (wrap64_small (Z.of_nat j * sendsize + displ))
      by (unfold SIZE_MAX, SSIZE_MAX in *; nia).
    rewrite (wrap64_small (Z.of_nat j + 1)) by (unfold SIZE_MAX, SSIZE_MAX in *; lia).
    rewrite (wrap64_small ((Z.of_nat j + 1) * len + len))
      by (unfold SIZE_MAX, SSIZE_MAX in *; nia).
    replace (Z.of_nat j + 1) with (Z.of_nat (S j)) by lia.
    replace (Z.of_nat (S j) * len + len) with ((Z.of_nat (S j) + 1) * len) by lia.
    destruct (slice_of_block (Z.to_nat sendsize) ds j d displ len Hall Hj)
      as [Hsl Hlen]; [lia..|].
    set (cb1 := memcpy_at cb (Z.of_nat (S j) * len)
                  (advance (concat ds) (Z.of_nat j * sendsize + displ)) len).
    assert (cb1 = take (Z.to_nat (Z.of_nat (S j) * len)) cb ++ slice d displ len
                  ++ drop (Z.to_nat ((Z.of_nat (S j) + 1) * len)) cb) as Hcb1.
    { unfold cb1, memcpy_at, advance.
      replace (Z.to_nat (Z.of_nat j * sendsize + displ))
        with (j * Z.to_nat sendsize + Z.to_nat displ)%nat by nia.
      rewrite Hsl. do 3 f_equal. nia. }
    assert (length (take (Z.to_nat (Z.of_nat (S j) * len)) cb)
            = Z.to_nat (Z.of_nat (S j) * len)) as Hlt by (rewrite length_take; nia).
    rewrite IH.
    + rewrite (drop_S _ _ _ Hj). cbn [flat_map].
      replace (Z.of_nat j + 1) with (Z.of_nat (S j)) by lia.
      assert (take (Z.to_nat ((Z.of_nat (S j) + 1) * len)) cb1
              = take (Z.to_nat (Z.of_nat (S j) * len)) cb ++ slice d displ len) as ->.
      { rewrite Hcb1, app_assoc. apply take_app_length'.
        rewrite length_app, Hlt. nia. }
      assert (drop (Z.to_nat (len * n)) cb1 = drop (Z.to_nat (len * n)) cb) as ->.
      { rewrite Hcb1, app_assoc.
        rewrite drop_app_ge by (rewrite length_app, Hlt; nia).
        rewrite drop_drop. f_equal. rewrite length_app, Hlt. nia. }
      by rewrite <- !app_assoc.
    + lia.
    + rewrite Hcb1, !length_app, Hlt, length_drop. nia.
Qed.

(** the size of what a rank is due, as [sendrecv] computes it *)
Lemma alltoall_self (rk : Z) :
  0 ≤ rk → n ≤ INT_MAX →
  wrap64 (wrap64 (sendcount +
                  (if negb (rcount =? 0) && (rk <? to_int rcount)
                   then datasize else 0)) * n)
  = ch rk * n.
Proof.
  intros Hrank Hint. destruct alltoall_sizes as (B1 & B2 & B3 & B4).
  destruct (B4 rk Hrank) as [Hc0 Hc0n].
  pose proof (base_bound sendsize datasize n) as (H0 & H1 & H2); [lia..|].
  pose proof (remainder_bound sendsize datasize n) as Hr; [lia..|].
  fold datacount rcount in H0, H1, H2, Hr.
  assert (sendcount = (datacount / n) * datasize) as Hsc
    by (unfold sendcount; apply wrap64_small; unfold SIZE_MAX, SSIZE_MAX in *; lia).
  rewrite (to_int_small rcount) by (unfold INT_MAX in *; lia).
  assert (sendcount + (if negb (rcount =? 0) && (rk <? rcount) then datasize else 0)
          = ch rk) as ->.
  { rewrite Hsc. unfold ch, chunk. cbv zeta. fold datacount rcount.
    destruct (Z.eqb_spec rcount 0); destruct (Z.ltb_spec rk rcount); cbn; lia. }
  rewrite (wrap64_small (ch rk)) by (unfold SIZE_MAX, SSIZE_MAX in *; lia).
  apply wrap64_small. unfold SIZE_MAX, SSIZE_MAX in *. nia.
Qed.

Variable c : AlltoallGeneric.t.
Hypothesis Hnc : nparticipants (AlltoallGeneric.base c) = n.
Let ps := participants (AlltoallGeneric.base c).
Hypothesis Hps : Z.of_nat (length ps) = n - 1.

(** The first loop of the root when every peer delivers a block of
    [sendsize] bytes: the blocks are laid one after the other. *)
Lemma Alltoall_collect_delivers (k : nat) :
  ∀ (i : nat) w (buf : buffer) (ds : list (list byte)),
  (i + k = length ps)%nat → length ds = k → NoDup ps →
  (∀ j h d, ps !! (i + j)%nat = Some h → ds !! j = Some d →
     ∃ hd, heap w !! h = Some hd ∧ delivers_int hd d
           ∧ Z.of_nat (length d) = sendsize) →
  Z.of_nat (length buf) = sendsize * (n - 1) →
  ∃ w' groups,
    AlltoallGeneric.collect_loop k c (Z.of_nat i) sendsize buf w
      = Some ((None, take (Z.to_nat (Z.of_nat i * sendsize)) buf ++ concat ds
                     ++ drop (Z.to_nat (Z.of_nat (i + k) * sendsize)) buf), w')
    ∧ (∀ h, is_Some (heap w !! h) → is_Some (heap w' !! h))
    ∧ trace w' = trace w ++ concat groups ∧ length groups = k
    ∧ ∀ j g, groups !! j = Some g →
        ∃ h pret size rret, ps !! (i + j)%nat = Some h
          ∧ g = [EvProbe h true pret size; EvReceive h size rret].
Proof.
  destruct alltoall_sizes as (B1 & B2 & B3 & _).
  induction k as [|k IH]; intros i w buf ds Hik Hlds Hnd Hds' Hlen.
  - destruct ds; [|done]. exists w, []. rewrite Nat.add_0_r. cbn [concat app].
    rewrite take_drop. split_and!; try done. by rewrite app_nil_r.
  - destruct ds as [|d ds]; [done|]. injection Hlds as Hlds.
    cbn [AlltoallGeneric.collect_loop].
    destruct (lookup_lt_is_Some_2 ps i) as [h Hh]; [lia|].
    fold ps. unfold bind at 1. rewrite (run_at_ ps (Z.of_nat i) h) by (by rewrite Nat2Z.id).
    destruct (Hds' 0%nat h d) as (hd & Hhd & [Hdel Hint] & Hld);
      [by rewrite Nat.add_0_r|done|].
    destruct (receive_delivered w h hd d Hhd Hdel)
      as (w1 & Hrun & Hrpos & Htr1 & Hother & Hval1).
    cbv zeta in Hrun, Hrpos, Htr1. rewrite Hld in Hrun, Hrpos, Htr1, Hint.
    match type of Htr1 with _ = _ ++ [EvProbe _ _ ?p _; EvReceive _ _ ?r] =>
      set (pret := p) in *; set (rret := r) in * end.
    unfold bind at 1. rewrite Hrun. cbv beta iota zeta.
    rewrite (to_int_small rret) by lia.
    destruct (Z.leb_spec rret 0) as [?|_]; [lia|].
    assert (Z.of_nat i * sendsize + sendsize ≤ sendsize * (n - 1)) as Hin by nia.
    rewrite (wrap64_small (Z.of_nat i + 1)) by (unfold SIZE_MAX, SSIZE_MAX in *; lia).
    rewrite (wrap64_small (Z.of_nat i * sendsize))
      by (unfold SIZE_MAX, SSIZE_MAX in *; nia).
    replace (Z.of_nat i + 1) with (Z.of_nat (S i)) by lia.
    set (buf1 := store_bytes buf (Z.of_nat i * sendsize) d).
    destruct (store_bytes_inside buf (Z.of_nat i * sendsize) d
                (Z.to_nat (Z.of_nat (S i + k) * sendsize)))
      as (Hl1 & Ht1 & Hd1); [nia|nia|nia|]. fold buf1 in Hl1, Ht1, Hd1.
    assert (take (Z.to_nat (Z.of_nat (S i) * sendsize)) buf1
            = take (Z.to_nat (Z.of_nat i * sendsize)) buf ++ d) as Hfront.
    { unfold buf1, store_bytes, memcpy_at. rewrite Nat2Z.id, firstn_all.
      rewrite app_assoc. apply take_app_length'.
      rewrite length_app, length_take. nia. }
    destruct (IH (S i) w1 buf1 ds) as (w' & groups & Hrun' & Hval & Htr & Hlg & Hg).
    { lia. }
    { done. }
    { done. }
    { intros j h' d' Hh' Hd'.
      destruct (Hds' (S j) h' d') as (hd' & Hhd' & Hdel' & Hld').
      { by replace (i + S j)%nat with (S i + j)%nat by lia. }
      { done. }
      exists hd'. split_and!; try done.
      rewrite Hother; [done|]. intros ->.
      pose proof (NoDup_lookup _ _ _ _ Hnd Hh Hh'). lia. }
    { lia. }
    replace (S i + k)%nat with (i + S k)%nat in * by lia.
    rewrite Hrun'. exists w', ([EvProbe h true pret sendsize;
                               EvReceive h sendsize rret] :: groups).
    split_and!.
    + rewrite Hfront, Hd1. cbn [concat]. by rewrite <- !app_assoc.
    + intros h' Hh'. by apply Hval, Hval1.
    + rewrite Htr, Htr1. cbn [concat]. by rewrite <- !app_assoc.
    + cbn [length]. lia.
    + intros [|j] g Hj.
      * injection Hj as <-. exists h, pret, sendsize, rret.
        by rewrite Nat.add_0_r.
      * cbn in Hj. destruct (Hg j g Hj) as (h' & p' & s' & r' & Hl & ->).
        exists h', p', s', r'. split; [|done].
        by replace (i + S j)%nat with (S i + j)%nat by lia.
Qed.

Hypothesis Hdiv : sendsize mod datasize = 0.

Lemma alltoall_dp_step (i : nat) :
  Z.of_nat i < n →
  0 ≤ dp i ∧ 0 ≤ ch (Z.of_nat i) ∧ dp (S i) = dp i + ch (Z.of_nat i)
  ∧ dp i + ch (Z.of_nat i) ≤ sendsize.
Proof.
  intros Hi.
  pose proof (displacement_nonneg sendsize datasize n ltac:(lia) ltac:(lia) ltac:(lia) i).
  pose proof (chunk_bound sendsize datasize n ltac:(lia) ltac:(lia) ltac:(lia)
                (Z.of_nat i) ltac:(lia)).
  pose proof (displacement_mono sendsize datasize n ltac:(lia) ltac:(lia) ltac:(lia)
                (S i) (Z.to_nat n) ltac:(lia)) as Hmono.
  rewrite displacement_total in Hmono by (done || lia).
  unfold dp, ch. split_and!; [done|lia|reflexivity|done].
Qed.

Variables (sb : buffer) (ds : list buffer).
Let share := routed sendsize datasize n (sb :: ds).

Hypothesis Hsb : sendsize ≤ Z.of_nat (length sb).
Hypothesis Hblocks : Forall (λ d : buffer, length d = Z.to_nat sendsize) ds.
Hypothesis Hlds : length ds = length ps.

Lemma length_share (i : nat) :
  Z.of_nat i < n → Z.of_nat (length (share i)) = ch (Z.of_nat i) * n.
Proof.
  intros Hi. destruct (alltoall_dp_step i Hi) as (D0 & C0 & _ & DC).
  unfold share, routed. fold dp ch.
  assert (∀ bs : list buffer, Forall (λ d, sendsize ≤ Z.of_nat (length d)) bs →
            Z.of_nat (length (flat_map (λ B, slice B (dp i) (ch (Z.of_nat i))) bs))
            = ch (Z.of_nat i) * Z.of_nat (length bs)) as Hflat.
  { induction 1 as [|b bs Hb Hbs IH]; [cbn; lia|].
    cbn [flat_map length]. rewrite length_app, Nat2Z.inj_add, IH.
    unfold slice. rewrite length_take, length_drop. lia. }
  rewrite Hflat.
  - f_equal. cbn [length]. unfold buffer in *. lia.
  - apply Forall_cons. split; [done|].
    eapply Forall_impl; [exact Hblocks|]. cbn. intros; lia.
Qed.

(** One turn of the second loop: the buffer sent to rank [i] is its share
    of the block of the root followed by its share of the block of every
    peer, in rank order. *)
Lemma route_block (i : nat) (cb0 : buffer) :
  Z.of_nat i < n → ch (Z.of_nat i) * n ≤ Z.of_nat (length cb0) →
  AlltoallGeneric.assemble_loop (Z.to_nat (wrap64 (n - 1))) 0 (ch (Z.of_nat i)) (dp i)
      (ch (Z.of_nat i)) sendsize (concat ds)
      (memcpy cb0 (advance sb (dp i)) (ch (Z.of_nat i)))
  = share i ++ drop (Z.to_nat (ch (Z.of_nat i) * n)) cb0.
Proof.
  intros Hi Hcb. destruct alltoall_sizes as (B1 & B2 & B3 & B4).
  destruct (B4 (Z.of_nat i) ltac:(lia)) as [Hci Hcin].
  destruct (alltoall_dp_step i Hi) as (D0 & C0 & _ & DC).
  set (len := ch (Z.of_nat i)) in *.
  rewrite (wrap64_small (n - 1)) by (unfold SIZE_MAX, SSIZE_MAX in *; lia).
  replace (Z.to_nat (n - 1)) with (length ds) by lia.
  set (cb1 := memcpy cb0 (advance sb (dp i)) len).
  assert (length (slice sb (dp i) len) = Z.to_nat len) as Hls.
  { unfold slice. rewrite length_take, length_drop. lia. }
  assert (cb1 = slice sb (dp i) len ++ drop (Z.to_nat len) cb0) as Hcb1.
  { unfold cb1, memcpy, memcpy_at, advance, slice.
    change (Z.to_nat 0) with 0%nat. by rewrite take_0. }
  pose proof (assemble_loop_spec ds (dp i) len Hblocks D0 C0 DC ltac:(lia) Hcin
                (length ds) 0 cb1 ltac:(lia)) as Ha.
  change (Z.of_nat 0) with 0 in Ha.
  replace ((0 + 1) * len) with len in Ha by lia.
  rewrite Ha.
  - rewrite drop_0.
    assert (take (Z.to_nat len) cb1 = slice sb (dp i) len) as ->.
    { rewrite Hcb1. by apply take_app_length'. }
    assert (drop (Z.to_nat (len * n)) cb1 = drop (Z.to_nat (len * n)) cb0) as ->.
    { rewrite Hcb1. rewrite drop_app_ge by nia. rewrite Hls, drop_drop. f_equal. nia. }
    unfold share, routed. fold dp ch. fold len. cbn [flat_map].
    by rewrite <- app_assoc.
  - rewrite Hcb1, length_app, Hls, length_drop. nia.
Qed.

(** The second loop of the root from rank [i + 1] on. *)
Lemma Alltoall_route_spec (k : nat) : ∀ (i : nat) w (rbx : buffer),
  (S i + k = Z.to_nat n)%nat →
  (∀ h, h ∈ ps → is_Some (heap w !! h)) →
  ∃ completed w' evs,
    AlltoallGeneric.route_loop k c (Z.of_nat (S i))
        (Z.max 0 (rcount - Z.of_nat (S i))) sendcount datasize (dp (S i))
        sendsize sb (concat ds) rbx w = Some ((completed, rbx), w')
    ∧ trace w' = trace w ++ evs
    ∧ (∀ j ev, evs !! j = Some ev →
         ∃ h ret, ps !! (i + j)%nat = Some h ∧ ev = EvSend h (share (S (i + j))) ret)
    ∧ (if completed then sends_ok evs ∧ length evs = k
       else ¬ sends_ok evs ∧ errno w' = ECONNRESET).
Proof.
  destruct alltoall_sizes as (B1 & B2 & B3 & B4).
  induction k as [|k IH]; intros i w rbx Hik Hvalid.
  - cbn [AlltoallGeneric.route_loop]. exists true, w, []. split_and!; try done.
    + by rewrite app_nil_r.
    + by apply Forall_nil.
  - cbn [AlltoallGeneric.route_loop]. cbv zeta. rewrite Hnc.
    pose proof (route_chunk (S i)) as Hchunk. cbv zeta in Hchunk.
    rewrite Hchunk. clear Hchunk. cbv beta iota.
    destruct (B4 (Z.of_nat (S i)) ltac:(lia)) as [Hci Hcin].
    destruct (alltoall_dp_step (S i) ltac:(lia)) as (D0 & C0 & Dstep & DC).
    set (len := ch (Z.of_nat (S i))) in *.
    destruct (Z.eqb_spec (Z.of_nat (S i)) 0) as [?|_]; [lia|]. cbn [negb].
    rewrite (wrap64_small (len * n)) by (unfold SIZE_MAX, SSIZE_MAX in *; lia).
    rewrite (wrap64_small (dp (S i) + len)) by (unfold SIZE_MAX, SSIZE_MAX in *; lia).
    rewrite (wrap64_small (Z.of_nat (S i) - 1)) by (unfold SIZE_MAX, SSIZE_MAX in *; lia).
    rewrite (wrap64_small (Z.of_nat (S i) + 1)) by (unfold SIZE_MAX, SSIZE_MAX in *; lia).
    rewrite <- Dstep.
    replace (Z.of_nat (S i) - 1) with (Z.of_nat i) by lia.
    replace (Z.of_nat (S i) + 1) with (Z.of_nat (S (S i))) by lia.
    pose proof (route_block (S i) (AlltoallGeneric.new_char (len * n)) ltac:(lia)) as Hrb.
    fold len in Hrb. rewrite Hrb
      by (unfold AlltoallGeneric.new_char; rewrite ?length_replicate; lia).
    clear Hrb.
    assert (take (Z.to_nat (len * n))
                 (share (S i) ++ drop (Z.to_nat (len * n)) (AlltoallGeneric.new_char (len * n)))
            = share (S i)) as ->.
    { apply take_app_length'. pose proof (length_share (S i) ltac:(lia)). fold len in H0. lia. }
    destruct (lookup_lt_is_Some_2 ps i) as [h Hh]; [lia|].
    fold ps. unfold bind at 1. rewrite (run_at_ ps (Z.of_nat i) h) by (by rewrite Nat2Z.id).
    assert (h ∈ ps) as Hin by (by eapply list_elem_of_lookup_2).
    destruct (Hvalid h Hin) as [hd Hhd].
    unfold bind at 1. rewrite (run_Handle_send _ _ _ _ Hhd). cbv zeta.
    remember (share (S i)) as data eqn:Hdata.
    destruct (t_send data (chan hd)) as [sr t'] eqn:Hsend. cbn [fst snd].
    match goal with |- context [?f ?w = Some _] =>
      match w with mkWorld _ _ _ => remember w as w1 eqn:Hw1 end end.
    destruct (sr_ret sr <? 0) eqn:Hneg; [apply Z.ltb_lt in Hneg|apply Z.ltb_ge in Hneg].
    + exists false, (mkWorld (heap w1) ECONNRESET (trace w1)), [EvSend h data (sr_ret sr)].
      split_and!; try done.
      * by rewrite Hw1.
      * intros [|j] ev Hj; [|done]. injection Hj as <-.
        exists h, (sr_ret sr). rewrite Nat.add_0_r. by rewrite <- Hdata.
      * intros Hok. apply Forall_cons in Hok as [Hok _]. lia.
    + assert (∀ h', h' ∈ ps → is_Some (heap w1 !! h')) as Hvalid1.
      { intros h' Hh'. rewrite Hw1; cbn [heap]. apply lookup_insert_is_Some'.
        right. by apply Hvalid. }
      destruct (IH (S i) w1 rbx ltac:(lia) Hvalid1)
        as (completed & w' & evs & Hrun & Htr & Hev & Hfin).
      rewrite Hrun. exists completed, w', (EvSend h data (sr_ret sr) :: evs).
      split_and!; try done.
      * rewrite Htr, Hw1; cbn [trace]. by rewrite <- app_assoc.
      * intros [|j] ev Hj.
        -- injection Hj as <-. exists h, (sr_ret sr). rewrite Nat.add_0_r. by rewrite <- Hdata.
        -- cbn in Hj. destruct (Hev j ev Hj) as (h' & ret' & Hl & ->).
           exists h', ret'. by replace (i + S j)%nat with (S i + j)%nat by lia.
      * destruct completed.
        -- destruct Hfin as [Hok Hlen]. split; [|cbn; lia].
           apply Forall_cons. split; [lia|done].
        -- destruct Hfin as [Hok He]. split; [|done].
           intros Hok'. apply Hok. by apply Forall_cons in Hok' as [_ ?].
Qed.

End AlltoallFacts.

Section AlltoallRoot.
Context {T : Type} `{Transport T}.
Implicit Types (w : World T) (hd : Handle T).

Variable c : AlltoallGeneric.t.
Variables sendsize datasize : Z.
Let n := nparticipants (AlltoallGeneric.base c).
Let ps := participants (AlltoallGeneric.base c).
Let ch := chunk sendsize datasize n.

(** X21.  Alltoall at the root of rank 0, with sizes that fit
    ([(sendsize + datasize) * nparticipants <= SSIZE_MAX]).  When the
    Handles of the peers are distinct and every peer has a block of
    exactly [sendsize] bytes on the way, delivered by a [receive] whose
    result fits an [int], the root receives the blocks in the order of
    [participants], one blocking [probe] and one [receive] for each, and
    then sends to the peer of rank [j + 1] the share of rank [j + 1] of
    its own block followed by that of the block of every peer, in rank
    order: [chunk(j + 1) * nparticipants] bytes.  Its own share of all
    the blocks is written to the front of [recvbuff], the rest of which
    is untouched.  When no send fails the call returns
    [chunk(0) * nparticipants] and every peer was sent to; when a send
    fails the result is -1 with [ECONNRESET]. *)
Theorem Alltoall_root_routes (sb rb : buffer) recvsize w (ds : list buffer) :
  0 < datasize → 1 ≤ n ≤ INT_MAX → 0 ≤ sendsize →
  (sendsize + datasize) * n ≤ SSIZE_MAX →
  Z.of_nat (length ps) = n - 1 →
  AlltoallGeneric.root c = true →
  rank (AlltoallGeneric.base c) = 0 →
  sendsize mod datasize = 0 →
  NoDup ps → length ds = length ps →
  (∀ j h d, ps !! j = Some h → ds !! j = Some d →
     ∃ hd, heap w !! h = Some hd ∧ delivers_int hd d
           ∧ Z.of_nat (length d) = sendsize) →
  sendsize ≤ Z.of_nat (length sb) →
  ch 0 * n ≤ recvsize → ch 0 * n ≤ Z.of_nat (length rb) →
  let share := routed sendsize datasize n (sb :: ds) in
  ∃ r w' recvs sends,
    AlltoallGeneric.sendrecv c (Some sb) sendsize (Some rb) recvsize datasize w
      = Some ((r, Some (share 0%nat ++ drop (Z.to_nat (ch 0 * n)) rb)), w')
    ∧ (∀ i : nat, Z.of_nat i < n → Z.of_nat (length (share i)) = ch (Z.of_nat i) * n)
    ∧ events_since w w' = recvs ++ sends
    ∧ receives_of ps recvs
    ∧ (∀ j ev, sends !! j = Some ev →
         ∃ h ret, ps !! j = Some h ∧ ev = EvSend h (share (S j)) ret)
    ∧ (sends_ok sends → r = ch 0 * n ∧ length sends = length ps)
    ∧ (¬ sends_ok sends → r = -1 ∧ errno w' = ECONNRESET).
Proof.
  intros Hds [Hn Hint] Hss Hfit Hps Hroot Hrank Hdiv Hnd Hlds Hds' Hsb Hrecv Hrb share.
  destruct (alltoall_sizes sendsize datasize n Hds Hn Hss Hfit) as (B1 & B2 & B3 & B4).
  destruct (B4 0 ltac:(lia)) as [Hc0 Hc0n]. fold ch in Hc0, Hc0n.
  assert (Forall (λ d : buffer, length d = Z.to_nat sendsize) ds) as Hblocks.
  { apply Forall_lookup. intros j d Hj.
    destruct (lookup_lt_is_Some_2 ps j) as [h Hh].
    { rewrite <- Hlds. by eapply lookup_lt_Some. }
    destruct (Hds' j h d Hh Hj) as (_ & _ & _ & Hl). lia. }
  assert (∀ h, h ∈ ps → is_Some (heap w !! h)) as Hvalid.
  { intros h Hh. apply list_elem_of_lookup_1 in Hh as [j Hj].
    destruct (lookup_lt_is_Some_2 ds j) as [d Hd].
    { rewrite Hlds. by eapply lookup_lt_Some. }
    destruct (Hds' j h d Hj Hd) as (hd & Hhd & _). by exists hd. }
  unfold AlltoallGeneric.sendrecv.
  destruct (Z.eqb_spec datasize 0); [lia|]. rewrite Hdiv. cbn [Z.eqb negb].
  fold n. destruct (Z.eqb_spec n 0); [lia|]. cbv zeta.
  rewrite (alltoall_self sendsize datasize n Hds Hn Hss Hfit (rank (AlltoallGeneric.base c))
             ltac:(lia) Hint), Hrank.
  fold ch. destruct (Z.ltb_spec recvsize (ch 0 * n)); [lia|]. rewrite Hroot.
  rewrite (wrap64_small (n - 1)) by (unfold SIZE_MAX, SSIZE_MAX in *; lia).
  rewrite (wrap64_small (sendsize * (n - 1))) by (unfold SIZE_MAX, SSIZE_MAX in *; nia).
  replace (Z.to_nat (n - 1)) with (length ps) by lia.
  set (buf := AlltoallGeneric.new_char (sendsize * (n - 1))).
  assert (Z.of_nat (length buf) = sendsize * (n - 1)) as Hbuf.
  { unfold buf, AlltoallGeneric.new_char. rewrite length_replicate. nia. }
  destruct (Alltoall_collect_delivers sendsize datasize n Hds Hn Hss Hfit c Hps
              (length ps) 0%nat w buf ds eq_refl Hlds Hnd Hds' Hbuf)
    as (w1 & groups & Hrun1 & Hval1 & Htr1 & Hlg & Hg).
  change (Z.of_nat 0) with 0 in Hrun1. rewrite Z.mul_0_l in Hrun1.
  change (Z.to_nat 0) with 0%nat in Hrun1. rewrite take_0 in Hrun1.
  rewrite drop_ge in Hrun1 by (cbn [Nat.add]; nia).
  rewrite app_nil_r in Hrun1. cbn [app] in Hrun1.
  unfold bind at 1. rewrite Hrun1. cbv beta iota.
  replace (Z.to_nat n) with (S (length ps)) by lia.
  cbn [AlltoallGeneric.route_loop]. cbv zeta. fold n.
  pose proof (remainder_bound sendsize datasize n) as Hrem; [lia..|].
  pose proof (route_chunk sendsize datasize n Hds Hn Hss Hfit 0) as Hchunk.
  cbv zeta in Hchunk. change (Z.of_nat 0) with 0 in Hchunk.
  rewrite Z.sub_0_r, Z.max_r in Hchunk by lia.
  rewrite Hchunk. clear Hchunk. cbv beta iota. fold ch. cbn [Z.eqb negb].
  pose proof (route_block sendsize datasize n Hds Hn Hss Hfit c Hps Hdiv sb ds Hsb
                Hblocks Hlds 0 rb ltac:(lia) Hrb) as Hblock.
  change (Z.of_nat 0) with 0 in Hblock.
  change (displacement sendsize datasize n 0) with 0 in Hblock.
  fold ch in Hblock. rewrite Hblock. clear Hblock. fold share.
  rewrite (wrap64_small (0 + 1)) by (unfold SIZE_MAX; lia).
  rewrite (wrap64_small (0 + ch 0)) by (unfold SIZE_MAX, SSIZE_MAX in *; lia).
  destruct (Alltoall_route_spec sendsize datasize n Hds Hn Hss Hfit c eq_refl Hps Hdiv
              sb ds Hsb Hblocks Hlds (length ps) 0%nat w1
              (share 0%nat ++ drop (Z.to_nat (ch 0 * n)) rb) ltac:(lia))
    as (completed & w' & evs & Hrun2 & Htr2 & Hev & Hfin).
  { intros h Hh. by apply Hval1, Hvalid. }
  unfold bind at 1.
  match goal with |- context [AlltoallGeneric.route_loop ?a ?b ?i ?rc ?sc ?dz ?dp ?sz ?s ?al ?r ?v] =>
    replace (AlltoallGeneric.route_loop a b i rc sc dz dp sz s al r v)
      with (Some ((completed, share 0%nat ++ drop (Z.to_nat (ch 0 * n)) rb), w'))
      by (symmetry; exact Hrun2) end.
  cbv beta iota. rewrite to_ssize_small by lia.
  exists (if completed then ch 0 * n else -1), w', (concat groups), evs.
  split_and!.
  - by destruct completed.
  - intros i Hi.
    apply (length_share sendsize datasize n Hds Hn Hss c Hps Hdiv sb ds Hsb Hblocks Hlds i Hi).
  - apply events_since_trace. by rewrite Htr2, Htr1, <- app_assoc.
  - by exists groups.
  - intros j ev Hj. destruct (Hev j ev Hj) as (h & retv & Hh & ->). by exists h, retv.
  - intros Hok. destruct completed; [by destruct Hfin|]. by destruct Hfin.
  - intros Hok. destruct completed; [by destruct Hfin|]. by destruct Hfin.
Qed.

(** X22.  The result of a receive goes through an [int] at the root of
    Alltoall.  When the block of the first peer is delivered by a
    [receive] that returns a count between [2^31] and [2^32] (a block of
    2 GiB or more, received in full), the root takes the count for a
    failure: it returns the count less [2^32], a negative value, after
    the probe and the receive on that peer and no other call, and leaves
    [recvbuff] as it was. *)
Theorem Alltoall_root_block_over_int (sb rb : buffer) recvsize w h hd (d : list byte) :
  0 < datasize → 2 ≤ n ≤ INT_MAX → 0 ≤ sendsize →
  (sendsize + datasize) * n ≤ SSIZE_MAX →
  Z.of_nat (length ps) = n - 1 →
  AlltoallGeneric.root c = true →
  rank (AlltoallGeneric.base c) = 0 →
  sendsize mod datasize = 0 →
  ch 0 * n ≤ recvsize →
  ps !! 0%nat = Some h → heap w !! h = Some hd →
  delivers hd d → Z.of_nat (length d) = sendsize →
  let rret := rr_ret (t_receive sendsize (t_probe true (chan hd)).2).1 in
  2 ^ 31 ≤ rret < 2 ^ 32 →
  ∃ pret w',
    AlltoallGeneric.sendrecv c (Some sb) sendsize (Some rb) recvsize datasize w
      = Some ((rret - 2 ^ 32, Some rb), w')
    ∧ rret - 2 ^ 32 < 0
    ∧ events_since w w' = [EvProbe h true pret sendsize; EvReceive h sendsize rret].
Proof.
  intros Hds [Hn Hint] Hss Hfit Hps Hroot Hrank Hdiv Hrecv Hh Hhd Hdel Hld rret Hr.
  destruct (alltoall_sizes sendsize datasize n Hds ltac:(lia) Hss Hfit) as (B1 & B2 & B3 & B4).
  unfold AlltoallGeneric.sendrecv.
  destruct (Z.eqb_spec datasize 0); [lia|]. rewrite Hdiv. cbn [Z.eqb negb].
  fold n. destruct (Z.eqb_spec n 0); [lia|]. cbv zeta.
  rewrite (alltoall_self sendsize datasize n Hds ltac:(lia) Hss Hfit (rank (AlltoallGeneric.base c))
             ltac:(lia) Hint), Hrank.
  fold ch. destruct (Z.ltb_spec recvsize (ch 0 * n)); [lia|]. rewrite Hroot.
  rewrite (wrap64_small (n - 1)) by (unfold SIZE_MAX, SSIZE_MAX in *; lia).
  destruct (Z.to_nat (n - 1)) as [|k] eqn:Hk; [lia|].
  cbn [AlltoallGeneric.collect_loop]. fold ps.
  unfold bind at 1. unfold bind at 1. rewrite (run_at_ ps 0 h) by done.
  destruct (receive_delivered w h hd d Hhd Hdel)
    as (w1 & Hrun & Hrpos & Htr1 & _).
  cbv zeta in Hrun, Hrpos, Htr1. rewrite Hld in Hrun, Hrpos, Htr1. fold rret in Hrun, Htr1.
  unfold bind at 1. rewrite Hrun. cbv beta iota zeta.
  rewrite (to_int_wraps rret Hr).
  destruct (Z.leb_spec (rret - 2 ^ 32) 0) as [_|?]; [|lia].
  eexists _, w1. split; [reflexivity|]. split; [lia|].
  by apply events_since_trace.
Qed.

End AlltoallRoot.

Section AlltoallPeer.
Context {T : Type} `{Transport T}.
Implicit Types (w : World T).

(** X23.  Alltoall on a non-root.  When [recvsize] is less than what the rank
    is due, [chunk(rank) * nparticipants] bytes, the call fails with
    [EINVAL] and calls nothing.  Otherwise it sends the first [sendsize]
    bytes of [sendbuff] to the first participant in one [send]; when that
    fails the result is -1 with [ECONNRESET], and when not, the call does
    what a non-root of Broadcast does to receive the answer into
    [recvbuff] and returns [chunk(rank) * nparticipants], whatever the
    receive part returned. *)
Theorem Alltoall_nonroot_sends_then_receives (b : CollectiveImpl.t)
    (sb rb : buffer) sendsize recvsize datasize w :
  let n := nparticipants b in
  let due := chunk sendsize datasize n (rank b) * n in
  0 < datasize → 1 ≤ n ≤ INT_MAX → 0 ≤ rank b → 0 ≤ sendsize →
  (sendsize + datasize) * n ≤ SSIZE_MAX →
  sendsize mod datasize = 0 →
  AlltoallGeneric.sendrecv (AlltoallGeneric.mk b false) (Some sb) sendsize
                           (Some rb) recvsize datasize w
  = if recvsize <? due then (set_errno EINVAL;; ret (-1, Some rb)) w
    else
      match participants b with
      | [] => None
      | h :: _ =>
        match Handle_send h (take (Z.to_nat sendsize) sb) w with
        | None => None
        | Some (r, w1) =>
          if r <? 0 then (set_errno ECONNRESET;; ret (-1, Some rb)) w1
          else
            match BroadcastGeneric.sendrecv (BroadcastGeneric.mk b false) None 0
                                            (Some rb) recvsize datasize w1 with
            | None => None
            | Some ((_, rb'), w2) => Some ((due, rb'), w2)
            end
        end
      end.
Proof.
  intros n due Hds [Hn Hint] Hrank Hss Hfit Hdiv.
  destruct (alltoall_sizes sendsize datasize n Hds Hn Hss Hfit) as (B1 & B2 & B3 & B4).
  destruct (B4 (rank b) Hrank) as [Hc0 Hc0n].
  unfold AlltoallGeneric.sendrecv, BroadcastGeneric.sendrecv.
  cbn [AlltoallGeneric.root AlltoallGeneric.base BroadcastGeneric.root
       BroadcastGeneric.base].
  destruct (Z.eqb_spec datasize 0); [lia|]. rewrite Hdiv. cbn [Z.eqb negb].
  fold n. destruct (Z.eqb_spec n 0); [lia|]. cbv zeta.
  rewrite (alltoall_self sendsize datasize n Hds Hn Hss Hfit (rank b) Hrank Hint).
  fold due. destruct (recvsize <? due); [reflexivity|].
  rewrite !bind_at. change (Z.to_nat 0) with 0%nat.
  destruct (participants b) as [|h rest]; [done|]. cbn [lookup list_lookup].
  rewrite !(bind_run (Handle_send h _)).
  destruct (Handle_send h _ w) as [[r w1]|]; [|done].
  destruct (r <? 0); [reflexivity|].
  rewrite to_ssize_small by (unfold due; nia).
  rewrite bind_at. change (Z.to_nat 0) with 0%nat. cbn [lookup list_lookup]. unfold bind.
  destruct (receiveFromHandle h recvsize w1) as [[[res data] w2]|]; [|done].
  by destruct (if res =? 0 then Handle_close h true false else ret ()) as [[? w3]|].
Qed.

End AlltoallPeer.

(** ** A collective uses its own Handles only *)

Section Isolation.
Context {T : Type} `{Transport T}.

Ltac confined_ops :=
  repeat first
    [ apply confined_receiveFromHandle; set_solver
    | apply confined_probeHandle; set_solver
    | apply confined_close_loop; set_solver
    | apply confined_Broadcast_send_loop; set_solver
    | apply confined_Scatter_sendrecv_loop; set_solver
    | apply confined_Gather_gather_loop; set_solver
    | apply confined_AllGather_gather_loop; set_solver
    | apply confined_AllGather_reflect_loop; set_solver
    | apply confined_Alltoall_collect_loop; set_solver
    | apply confined_Alltoall_route_loop; set_solver
    | apply confined_FanIn_send_loop; set_solver
    | apply confined_FanIn_probe_loop; set_solver
    | confined_step ].

(** X24.  The five data-parallel collectives.  Whenever [sendrecv] returns, on
    the root or on a non-root, with any arguments, every Handle that is
    not one of [participants] is exactly as it was, no Handle has left
    the heap, and every call made was made on a Handle of
    [participants]. *)
Theorem sendrecv_uses_participants_only sendbuff sendsize recvbuff recvsize datasize :
  (∀ c : BroadcastGeneric.t,
     confined (T:=T) (participants (BroadcastGeneric.base c))
       (BroadcastGeneric.sendrecv c sendbuff sendsize recvbuff recvsize datasize))
  ∧ (∀ c : ScatterGeneric.t,
     confined (T:=T) (participants (ScatterGeneric.base c))
       (ScatterGeneric.sendrecv c sendbuff sendsize recvbuff recvsize datasize))
  ∧ (∀ c : GatherGeneric.t,
     confined (T:=T) (participants (GatherGeneric.base c))
       (GatherGeneric.sendrecv c sendbuff sendsize recvbuff recvsize datasize))
  ∧ (∀ c : AllGatherGeneric.t,
     confined (T:=T) (participants (AllGatherGeneric.base c))
       (AllGatherGeneric.sendrecv c sendbuff sendsize recvbuff recvsize datasize))
  ∧ (∀ c : AlltoallGeneric.t,
     confined (T:=T) (participants (AlltoallGeneric.base c))
       (AlltoallGeneric.sendrecv c sendbuff sendsize recvbuff recvsize datasize)).
Proof.
  split_and!; intros c.
  - unfold BroadcastGeneric.sendrecv. confined_ops.
  - unfold ScatterGeneric.sendrecv. confined_ops.
  - unfold GatherGeneric.sendrecv. confined_ops.
  - unfold AllGatherGeneric.sendrecv. confined_ops.
  - unfold AlltoallGeneric.sendrecv. confined_ops.
Qed.

(** X25.  The two streaming collectives.  Whenever [probe], [send] or
    [receive] of a FanIn or of a FanOut returns, every Handle that is not
    one of the [participants] the call started with is exactly as it was,
    no Handle has left the heap (a Handle that [probe] takes out of
    [participants] is closed, not destroyed), and every call made was
    made on a Handle of [participants]. *)
Theorem streaming_uses_participants_only size blocking fuel (data : list byte) :
  (∀ c : FanInGeneric.t,
     confined (T:=T) (participants (FanInGeneric.base c))
       (FanInGeneric.probe fuel c size blocking)
     ∧ confined (T:=T) (participants (FanInGeneric.base c)) (FanInGeneric.send c data size)
     ∧ confined (T:=T) (participants (FanInGeneric.base c)) (FanInGeneric.receive c size))
  ∧ (∀ c : FanOutGeneric.t,
     confined (T:=T) (participants (FanOutGeneric.base c))
       (FanOutGeneric.probe c size blocking)
     ∧ confined (T:=T) (participants (FanOutGeneric.base c)) (FanOutGeneric.send c data)
     ∧ confined (T:=T) (participants (FanOutGeneric.base c)) (FanOutGeneric.receive c size)).
Proof.
  split; intros c; split_and!.
  - unfold FanInGeneric.probe. confined_ops.
  - unfold FanInGeneric.send. confined_ops.
  - unfold FanInGeneric.receive. confined_ops.
  - unfold FanOutGeneric.probe. confined_ops.
  - unfold FanOutGeneric.send. cbv zeta. confined_ops.
  - unfold FanOutGeneric.receive. confined_ops.
Qed.

End Isolation.

(** ** The theorems on concrete runs *)

Section ConcreteRuns.

(** C5 on a Handle with a probed frame of 5 bytes: three probes in a row
    report 5 and leave the world as it is; a receive then clears the
    probed state. *)
Lemma probed_state_discipline_witness :
  heap framing_world !! 0%nat = Some pending5
  ∧ probeHandle_times 3 0%nat 0 true framing_world
      = Some (replicate 3 (sizeof_size_t, 5), framing_world)
  ∧ match receiveFromHandle 0%nat 5 framing_world with
    | Some (_, w') => ∃ hd', heap w' !! 0%nat = Some hd' ∧ probed hd' = (false, 0)
    | None => False
    end.
Proof.
  split; [reflexivity|].
  destruct (@probed_state_discipline Script Script_transport framing_world 0%nat pending5 eq_refl) as [H1 H2].
  split; [exact (H1 5 eq_refl 3%nat 0 true)|].
  specialize (H2 5).
  destruct (receiveFromHandle 0%nat 5 framing_world) as [[[r d] w']|] eqn:Hrun;
    [|vm_compute in Hrun; discriminate].
  apply (H2 r d w' eq_refl).
  vm_compute in Hrun. injection Hrun as <- <- <-.
  exists 5, 5. vm_compute. apply list_elem_of_here.
Defined.

(** C6 on the same Handle with a capacity of 3, and on an unprobed Handle
    on which a frame of 5 bytes arrives. *)
Lemma receive_buffer_too_small_witness :
  (heap framing_world !! 0%nat = Some pending5 ∧ 0 ≤ 3 < 5
   ∧ probed pending5 = (true, 5) ∧ pending_open pending5)
  ∧ receiveFromHandle 0%nat 3 framing_world
      = Some ((-1, []), mkWorld (heap framing_world) ENOMEM (trace framing_world))
  ∧ (heap framing_world !! 1%nat = Some arriving5 ∧ closed_rd arriving5 = false)
  ∧ ∃ w1, receiveFromHandle 1%nat 3 framing_world = Some ((-1, []), w1)
      ∧ errno w1 = ENOMEM
      ∧ events_since framing_world w1 = [EvProbe 1 true sizeof_size_t 5].
Proof.
  assert (pending_open pending5) as Hopen by (intros _ _; reflexivity).
  split; [split_and!; [reflexivity|lia|lia|reflexivity|exact Hopen]|].
  split.
  - exact (proj1 (proj1 (@receive_buffer_too_small Script Script_transport
                           framing_world 0%nat pending5 5 3 eq_refl ltac:(lia))
                        eq_refl Hopen)).
  - split; [split; reflexivity|].
    destruct (proj2 (@receive_buffer_too_small Script Script_transport
                       framing_world 1%nat arriving5 5 3 eq_refl ltac:(lia))
                    eq_refl eq_refl ltac:(vm_compute; reflexivity) eq_refl)
      as [Hrun _].
    eexists. split; [exact Hrun|]. split; [reflexivity|]. apply events_since_app.
Defined.

(** C7 as amended, on 7 elements in a group of three *)
Lemma getTeamPartitionSize_formula_witness :
  (1 ≤ 3 ∧ 0 ≤ 7 ∧ 0 ≤ 0 < 3 ∧ 7 / 3 + 1 ≤ INT_MAX ∧ 7 mod 3 ≤ INT_MAX)
  ∧ getTeamPartitionSize triple_rank0 7 = Some 3
  ∧ sum_below (λ r, partition_formula 7 3 (Z.of_nat r)) 3 = 7.
Proof.
  split; [split_and!; by vm_compute|].
  apply (getTeamPartitionSize_formula triple_rank0 7); by vm_compute.
Defined.

(** C7 as stated fails on [2^33] elements in a group of two: each share
    is [2^32] elements, and the [int] result is 0. *)
Lemma getTeamPartitionSize_truncates :
  getTeamPartitionSize pair_rank0 (2 ^ 33) = Some 0
  ∧ partition_formula (2 ^ 33) (nparticipants pair_rank0) (rank pair_rank0) = 2 ^ 32
  ∧ getTeamPartitionSize pair_rank0 (2 ^ 33)
      ≠ Some (partition_formula (2 ^ 33) (nparticipants pair_rank0) (rank pair_rank0)).
Proof. split_and!; [reflexivity|reflexivity|discriminate]. Qed.

(** C10 on a FanOut and a FanIn without participants *)
Lemma FanOut_probe_exhausted_witness :
  participants (FanOutGeneric.base fanout_exhausted) = []
  ∧ FanOutGeneric.probe fanout_exhausted 0 true scatter_world
      = Some ((fanout_exhausted, -1, 0),
              mkWorld (heap scatter_world) ECONNRESET (trace scatter_world))
  ∧ FanInGeneric.probe 1 fanin_exhausted 0 true scatter_world
      = Some (Some (fanin_exhausted, sizeof_size_t, 0), scatter_world).
Proof.
  split; [reflexivity|].
  destruct (@FanOut_probe_exhausted Script Script_transport fanout_exhausted 0 true
              scatter_world eq_refl) as [H1 H2].
  split; [exact H1|]. exact (H2 fanin_exhausted 1%nat eq_refl).
Defined.

(** C8 as stated fails when a buffer pointer is null: the root scatters 7
    bytes in a group of three with [recvsize] below its share of 3, once
    with a null [sendbuff] and once with a null [recvbuff]; the call
    returns -1 without any I/O, but with [EFAULT], not [EINVAL]. *)
Lemma Scatter_root_null_buffer :
  ScatterGeneric.root scatter3 = true
  ∧ 2 < chunk 7 1 3 0
  ∧ ScatterGeneric.sendrecv scatter3 None 7 (Some (zeros 2)) 2 1 scatter_world
      = Some ((-1, Some (zeros 2)),
              mkWorld (heap scatter_world) EFAULT (trace scatter_world))
  ∧ ScatterGeneric.sendrecv scatter3 (Some abcdefg) 7 None 2 1 scatter_world
      = Some ((-1, None), mkWorld (heap scatter_world) EFAULT (trace scatter_world))
  ∧ EFAULT ≠ EINVAL.
Proof. split_and!; [reflexivity|reflexivity|reflexivity|reflexivity|discriminate]. Qed.

(** C8 as amended, on scenario S6: the root scatters "abcdefg" in a group
    of three with room for 2 bytes, when its share is 3 *)
Lemma Scatter_root_buffer_too_small_witness :
  (0 < 1 ∧ 1 ≤ 3 ≤ SIZE_MAX ∧ 0 ≤ 7 ≤ SIZE_MAX
   ∧ ScatterGeneric.root scatter3 = true ∧ 2 < chunk 7 1 3 0)
  ∧ ScatterGeneric.sendrecv scatter3 (Some abcdefg) 7 (Some (zeros 2)) 2 1 scatter_world
      = Some ((-1, Some (zeros 2)),
              mkWorld (heap scatter_world) EINVAL (trace scatter_world)).
Proof.
  split; [split_and!; by vm_compute|].
  destruct (@Scatter_root_buffer_too_small Script Script_transport scatter3 7 1
              ltac:(by vm_compute) ltac:(by vm_compute) ltac:(by vm_compute)
              (Some abcdefg) (Some (zeros 2)) 2 scatter_world eq_refl ltac:(by vm_compute))
    as (e & Hrun & He & _).
  rewrite (He ltac:(by eexists) ltac:(by eexists)) in Hrun. exact Hrun.
Defined.

(** C1 as stated fails when a send fails.  The root scatters "abcdefg" in
    a group of three, with every condition of the claim met; the send to
    the first peer returns -1.  The call returns -1 with [ECONNRESET], not
    [chunk(0) = 3], and the second peer is sent nothing. *)
Lemma Scatter_root_send_failure :
  (ScatterGeneric.root scatter3 = true ∧ 7 mod 1 = 0 ∧ chunk 7 1 3 0 = 3 ∧ 3 ≤ 4)
  ∧ ∃ w',
      ScatterGeneric.sendrecv scatter3 (Some abcdefg) 7 (Some (zeros 4)) 4 1
                              scatter_world_reset
        = Some ((-1, Some [x61; x62; x63; x00]), w')
      ∧ events_since scatter_world_reset w' = [EvSend 0 [x64; x65] (-1)]
      ∧ errno w' = ECONNRESET.
Proof.
  split; [split_and!; by vm_compute|].
  eexists. split; [vm_compute; reflexivity|]. split; reflexivity.
Qed.

(** C1 as amended, on scenario S2: the root keeps "abc"; when both sends
    succeed it returns 3 after two sends *)
Lemma Scatter_root_sendrecv_witness :
  (0 < 1 ∧ 1 ≤ 3 ≤ SIZE_MAX ∧ 0 ≤ 7 ≤ SIZE_MAX
   ∧ ScatterGeneric.root scatter3 = true ∧ 7 mod 1 = 0 ∧ 7 ≤ SSIZE_MAX
   ∧ 7 ≤ Z.of_nat (length abcdefg) ∧ chunk 7 1 3 0 ≤ 4)
  ∧ ∃ r rb' w',
      ScatterGeneric.sendrecv scatter3 (Some abcdefg) 7 (Some (zeros 4)) 4 1 scatter_world
        = Some ((r, Some rb'), w')
      ∧ rb' = [x61; x62; x63; x00]
      ∧ displacement 7 1 3 3 = 7
      ∧ (sends_ok (events_since scatter_world w') →
           r = 3 ∧ length (events_since scatter_world w') = 2%nat).
Proof.
  split; [split_and!; by vm_compute|].
  destruct (@Scatter_root_sendrecv Script Script_transport scatter3 7 1
              ltac:(by vm_compute) ltac:(by vm_compute) ltac:(by vm_compute)
              eq_refl abcdefg (zeros 4) 4 scatter_world eq_refl eq_refl
              ltac:(by vm_compute) ltac:(by vm_compute))
    as (r & rb' & w' & Hrun & Hrb & Htot & _ & Hok & _).
  - intros h Hh. apply elem_of_cons in Hh as [->|Hh]; [by eexists|].
    apply elem_of_cons in Hh as [->|Hh]; [by eexists|]. by apply elem_of_nil in Hh.
  - by vm_compute.
  - exists r, rb', w'. split_and!; [exact Hrun|exact Hrb|exact Htot|exact Hok].
Defined.

Lemma both_handles_valid (w : World Script) :
  is_Some (heap w !! 0%nat) → is_Some (heap w !! 1%nat) →
  ∀ h, h ∈ [0%nat; 1%nat] → is_Some (heap w !! h).
Proof.
  intros H0 H1 h Hh. apply elem_of_cons in Hh as [->|Hh]; [done|].
  apply elem_of_cons in Hh as [->|Hh]; [done|]. by apply elem_of_nil in Hh.
Qed.

(** C9 on a blocking probe of two peers that have both closed: both ends
    of stream are absorbed and the call reports the end of the group. *)
Lemma FanIn_probe_eos_absorbed_witness :
  (is_Some (heap fanin_world_eos !! 0%nat) ∧ is_Some (heap fanin_world_eos !! 1%nat))
  ∧ ∃ c' w',
      FanInGeneric.probe 5 fanin3 99 true fanin_world_eos
        = Some (Some (c', sizeof_size_t, 0), w')
      ∧ participants (FanInGeneric.base c') = []
      ∧ eos_closed (events_since fanin_world_eos w')
      ∧ eos_handles (events_since fanin_world_eos w') ≡ₚ [0%nat; 1%nat].
Proof.
  split; [split; by eexists|].
  destruct (@FanIn_probe_eos_absorbed Script Script_transport 5 fanin3 99 true
              fanin_world_eos)
    as (out & w' & Hrun & _ & _ & Hpost).
  - apply both_handles_valid; by eexists.
  - vm_compute in Hrun. injection Hrun as <- <-.
    destruct (Hpost _ _ _ eq_refl) as (Hclosed & Hperm & _ & _).
    eexists _, _. split; [vm_compute; reflexivity|].
    split; [reflexivity|]. split; [exact Hclosed|exact Hperm].
Defined.



(** C4 fails on a FanOut that holds two Handles: when the probe of
    [participants[0]] reports end of stream, that Handle is closed but
    stays in [participants]; the Handle taken out is the last one, which
    was neither probed nor closed. *)
Theorem FanOut_probe_eos_removes_last :
  ∃ c' w',
    FanOutGeneric.probe fanout2 0 true fanout_world
      = Some ((c', sizeof_size_t, 0), w')
    ∧ participants (FanOutGeneric.base fanout2) = [0%nat; 1%nat]
    ∧ participants (FanOutGeneric.base c') = [0%nat]
    ∧ events_since fanout_world w'
        = [EvProbe 0 true sizeof_size_t 0; EvClose 0 true true]
    ∧ closed_rd <$> heap w' !! 0%nat = Some true
    ∧ heap w' !! 1%nat = heap fanout_world !! 1%nat.
Proof.
  eexists _, _. split; [vm_compute; reflexivity|]. split_and!; reflexivity.
Qed.

(** C2 fails on rank 1 of a group of two.  The Handle to the root takes
    the send and then fails the probe of the result with [EIO], so that
    the frame-receive returns -1, and not for a would-block; AllGather
    and Alltoall both return 4, the byte count computed before the
    receive. *)
Theorem nonroot_receive_error_not_returned :
  (∃ w1, receiveFromHandle 0%nat 8 broken_world = Some ((-1, []), w1)
     ∧ errno w1 = EIO ∧ EIO ≠ EWOULDBLOCK)
  ∧ (∃ rb w',
       AllGatherGeneric.sendrecv allgather_rank1 (Some abcdefg) 4 (Some (zeros 8)) 8 1
                                 broken_world = Some ((4, rb), w')
       ∧ events_since broken_world w'
           = [EvSend 0 [x61; x62; x63; x64] 4; EvProbe 0 true (-1) 0]
       ∧ errno w' = EIO)
  ∧ (∃ rb w',
       AlltoallGeneric.sendrecv alltoall_rank1 (Some abcdefg) 4 (Some (zeros 4)) 4 1
                                broken_world = Some ((4, rb), w')
       ∧ events_since broken_world w'
           = [EvSend 0 [x61; x62; x63; x64] 4; EvProbe 0 true (-1) 0]
       ∧ errno w' = EIO).
Proof.
  split_and!.
  - eexists. split; [vm_compute; reflexivity|]. split; [reflexivity|discriminate].
  - eexists _, _. split; [vm_compute; reflexivity|]. split; reflexivity.
  - eexists _, _. split; [vm_compute; reflexivity|]. split; reflexivity.
Qed.

End ConcreteRuns.

(** ** The further theorems on concrete runs *)

Section ConcreteRunsMore.

Lemma first_handle_valid (w : World Script) :
  is_Some (heap w !! 0%nat) → ∀ h, h ∈ [0%nat] → is_Some (heap w !! h).
Proof.
  intros H0 h Hh. apply elem_of_cons in Hh as [->|Hh]; [done|].
  by apply elem_of_nil in Hh.
Qed.

(** the root of a Broadcast, a Scatter or a FanOut of three closes: both
    peers are half-closed, write side only *)
Lemma close_of_root_half_closes_witness :
  (is_Some (heap scatter_world !! 0%nat) ∧ is_Some (heap scatter_world !! 1%nat))
  ∧ ∃ w',
      BroadcastGeneric.close broadcast3 false false scatter_world = Some (tt, w')
      ∧ ScatterGeneric.close scatter3 false false scatter_world = Some (tt, w')
      ∧ FanOutGeneric.close fanout2 false false scatter_world = Some (tt, w')
      ∧ events_since scatter_world w' = [EvClose 0 true false; EvClose 1 true false]
      ∧ errno w' = errno scatter_world.
Proof.
  split; [split; by eexists|].
  destruct (@close_of_root_half_closes Script Script_transport triple_rank0 true 0
              false false scatter_world)
    as (w' & H1 & H2 & H3 & _ & Hev & Herr & _).
  - apply both_handles_valid; by eexists.
  - exists w'. split_and!; [exact H1|exact H2|exact H3|exact (Hev eq_refl)|exact Herr].
Defined.

(** rank 1 of a Gather, an AllGather or an Alltoall of two closes: its
    Handle to the root is half-closed *)
Lemma close_of_any_rank_half_closes_witness :
  is_Some (heap broken_world !! 0%nat)
  ∧ ∃ w',
      GatherGeneric.close gather_rank1 true true broken_world = Some (tt, w')
      ∧ AllGatherGeneric.close allgather_rank1 true true broken_world = Some (tt, w')
      ∧ AlltoallGeneric.close alltoall_rank1 true true broken_world = Some (tt, w')
      ∧ events_since broken_world w' = [EvClose 0 true false].
Proof.
  split; [by eexists|].
  destruct (@close_of_any_rank_half_closes Script Script_transport pair_rank1_first false
              true true broken_world)
    as (w' & H1 & H2 & H3 & Hev & _).
  - apply first_handle_valid; by eexists.
  - exists w'. split_and!; [exact H1|exact H2|exact H3|exact Hev].
Defined.

(** rank 1 of a FanIn of two closes its Handle to the root; the root of a
    FanIn of three closes nothing *)
Lemma FanIn_close_half_closes_first_witness :
  (is_Some (heap broken_world !! 0%nat)
   ∧ is_Some (heap fanin_world !! 0%nat) ∧ is_Some (heap fanin_world !! 1%nat))
  ∧ (∃ w', FanInGeneric.close fanin_rank1 true true broken_world = Some (tt, w')
           ∧ events_since broken_world w' = [EvClose 0 true false])
  ∧ FanInGeneric.close fanin3 true true fanin_world = Some (tt, fanin_world).
Proof.
  split; [split_and!; by eexists|]. split.
  - pose proof (proj2 (@FanIn_close_half_closes_first Script Script_transport fanin_rank1
                          true true broken_world
                          (first_handle_valid broken_world ltac:(by eexists))) eq_refl)
      as Hc.
    cbv [fanin_rank1 pair_rank1_first FanInGeneric.base participants] in Hc.
    destruct Hc as (hd & _ & Hrun).
    eexists. split; [exact Hrun|]. apply events_since_app.
  - apply (proj1 (@FanIn_close_half_closes_first Script Script_transport fanin3
                    true true fanin_world
                    (both_handles_valid fanin_world ltac:(by eexists) ltac:(by eexists)))).
    reflexivity.
Defined.

(** [probeHandle] on a Handle on which a frame of 5 bytes arrives:
    the positive result leaves the frame pending on an open Handle *)
Lemma probeHandle_result_tells_state_witness :
  (heap framing_world !! 1%nat = Some arriving5
   ∧ pending_open arriving5 ∧ eos_marked arriving5)
  ∧ ∃ w' hd',
      probeHandle 1%nat 0 true framing_world = Some ((sizeof_size_t, 5), w')
      ∧ heap w' !! 1%nat = Some hd'
      ∧ probed hd' = (true, 5) ∧ closed_rd hd' = false.
Proof.
  assert (pending_open arriving5) as Hpo by (by intros ? ?).
  assert (eos_marked arriving5) as Hem by (by intros ? ?).
  split; [by split_and!|].
  destruct (@probeHandle_result_tells_state Script Script_transport framing_world 1%nat
              arriving5 0 true eq_refl Hpo Hem)
    as (r & s & w' & hd' & Hrun & Hhd & _ & _ & _ & Hpos & _).
  vm_compute in Hrun. injection Hrun as <- <- <-.
  destruct (Hpos ltac:(by vm_compute)) as (Hp & _ & Hc).
  eexists _, hd'. split; [vm_compute; reflexivity|]. by split_and!.
Defined.

(** a peer that has closed: after the probe that reports it, three more
    probes and a receive return 0 and leave the world as it is *)
Lemma probeHandle_eos_is_final_witness :
  (heap fanin_world_eos !! 0%nat = Some (fresh (mkScript [header 0] [] []))
   ∧ pending_open (fresh (mkScript [header 0] [] []))
   ∧ eos_marked (fresh (mkScript [header 0] [] [])))
  ∧ ∃ w',
      probeHandle 0%nat 9 true fanin_world_eos = Some ((0, 0), w')
      ∧ (∃ s2, probeHandle_times 3 0%nat 9 false w' = Some (replicate 3 (0, s2), w'))
      ∧ receiveFromHandle 0%nat 5 w' = Some ((0, []), w').
Proof.
  assert (pending_open (fresh (mkScript [header 0] [] []))) as Hpo by (by intros ? ?).
  assert (eos_marked (fresh (mkScript [header 0] [] []))) as Hem by (by intros ? ?).
  split; [by split_and!|].
  eexists. split; [vm_compute; reflexivity|].
  destruct (@probeHandle_eos_is_final Script Script_transport fanin_world_eos 0%nat _
              9 true 0 _ eq_refl Hpo Hem ltac:(vm_compute; reflexivity)) as [H1 H2].
  split; [exact (H1 3%nat 9 false)|exact (H2 5)].
Defined.

(** scenario S1: the root broadcasts "hello" to two peers and keeps a
    copy *)
Lemma Broadcast_root_sendrecv_witness :
  (BroadcastGeneric.root broadcast3 = true ∧ 0 ≤ 5 ≤ SSIZE_MAX
   ∧ is_Some (heap scatter_world !! 0%nat) ∧ is_Some (heap scatter_world !! 1%nat))
  ∧ ∃ w',
      BroadcastGeneric.sendrecv broadcast3 (Some hello) 5 (Some (zeros 5)) 5 1 scatter_world
        = Some ((5, Some hello), w')
      ∧ events_since scatter_world w' = [EvSend 0 hello 5; EvSend 1 hello 5].
Proof.
  split; [split_and!; (by vm_compute) || (by eexists)|].
  destruct (@Broadcast_root_sendrecv Script Script_transport broadcast3 hello 5
              (Some (zeros 5)) 5 1 scatter_world eq_refl ltac:(by vm_compute)
              (both_handles_valid scatter_world ltac:(by eexists) ltac:(by eexists)))
    as (r & rb' & w' & Hrun & _).
  vm_compute in Hrun. injection Hrun as <- <- <-.
  eexists. split; [vm_compute; reflexivity|reflexivity].
Defined.

(** a non-root of a Broadcast or of a Scatter on whose Handle "hello" is
    arriving, with room for 8 bytes *)
Lemma nonroot_sendrecv_receives_frame_witness :
  (participants pair_rank1 = [1%nat]
   ∧ heap framing_world !! 1%nat = Some arriving5
   ∧ fst (probed arriving5) = false ∧ closed_rd arriving5 = false ∧ 0 ≤ 8)
  ∧ ∃ rb' w',
      BroadcastGeneric.sendrecv (BroadcastGeneric.mk pair_rank1 false) None 0
                                (Some (zeros 8)) 8 1 framing_world
        = Some ((5, Some rb'), w')
      ∧ ScatterGeneric.sendrecv (ScatterGeneric.mk pair_rank1 false) None 0
                                (Some (zeros 8)) 8 1 framing_world
        = Some ((5, Some rb'), w')
      ∧ rb' = hello ++ zeros 3
      ∧ events_since framing_world w'
          = [EvProbe 1 true sizeof_size_t 5; EvReceive 1 5 5].
Proof.
  split; [split_and!; (reflexivity || lia)|].
  destruct (@nonroot_sendrecv_receives_frame Script Script_transport pair_rank1 None 0
              (zeros 8) 8 1 framing_world 1%nat [] arriving5
              eq_refl eq_refl eq_refl eq_refl ltac:(lia))
    as (r & rb' & w' & hd' & Hb & Hs & _ & Hfit & _).
  destruct (Hfit ltac:(by vm_compute) ltac:(by vm_compute)) as (Hr & Hrb & _ & Hev).
  exists rb', w'. vm_compute in Hr. subst r.
  split_and!; [exact Hb|exact Hs|exact Hrb|exact Hev].
Defined.

(** three messages through a FanOut over two Handles: the Handles are
    used in turn, and the cursor ends on the second *)
Lemma FanOut_send_round_robin_witness :
  (0 ≤ FanOutGeneric.current fanout2 < 2 ∧ 2 ≤ SIZE_MAX
   ∧ is_Some (heap scatter_world !! 0%nat) ∧ is_Some (heap scatter_world !! 1%nat))
  ∧ ∃ c' w',
      FanOut_sends fanout2 [hello; abcdefg; hello] scatter_world = Some ((c', [5; 7; 5]), w')
      ∧ FanOutGeneric.current c' = 1
      ∧ events_since scatter_world w'
          = [EvSend 0 hello 5; EvSend 1 abcdefg 7; EvSend 0 hello 5].
Proof.
  split; [split_and!; (by vm_compute) || (by eexists)|].
  destruct (@FanOut_send_round_robin Script Script_transport fanout2 [hello; abcdefg; hello]
              scatter_world ltac:(by vm_compute) ltac:(by vm_compute)
              (both_handles_valid scatter_world ltac:(by eexists) ltac:(by eexists)))
    as (c' & rs & w' & Hrun & _ & Hcur & _).
  vm_compute in Hrun. injection Hrun as <- <- <-.
  eexists _, _. split; [vm_compute; reflexivity|]. split; [exact Hcur|reflexivity].
Defined.

(** a send of which the Handle reports [2^31] bytes sent comes back as
    [-2^31] *)
Lemma FanOut_send_result_through_int_witness :
  (0 ≤ FanOutGeneric.current fanout2
   ∧ participants (FanOutGeneric.base fanout2) !! 0%nat = Some 0%nat
   ∧ 2 ≤ SIZE_MAX ∧ is_Some (heap huge_world !! 0%nat))
  ∧ (∃ c' w', FanOutGeneric.send fanout2 hello huge_world = Some ((c', - 2 ^ 31), w')
              ∧ events_since huge_world w' = [EvSend 0 hello (2 ^ 31)])
  ∧ FanOutGeneric.send fanout_exhausted hello huge_world = None.
Proof.
  split; [split_and!; (by vm_compute) || (by eexists)|].
  destruct (@FanOut_send_result_through_int Script Script_transport fanout2 hello huge_world)
    as [_ Hsend].
  destruct (Hsend 0%nat _ ltac:(by vm_compute) eq_refl ltac:(by vm_compute) eq_refl)
    as (c' & res & w' & Hrun & Hev & _ & Hwrap).
  destruct (Hwrap ltac:(by vm_compute)) as [Hres _]. subst res.
  split.
  - exists c', w'. split; [exact Hrun|exact Hev].
  - apply (proj1 (@FanOut_send_result_through_int Script Script_transport fanout_exhausted
                    hello huge_world)). reflexivity.
Defined.

(** a FanOut receiver on whose Handle "hello" is arriving: the probe
    announces 5 bytes, the receive with room for 8 delivers them and
    leaves the Handle unprobed *)
Lemma FanOut_probe_then_receive_witness :
  (participants (FanOutGeneric.base fanout_rank1) = [1%nat]
   ∧ heap framing_world !! 1%nat = Some arriving5)
  ∧ ∃ w1 w2,
      FanOutGeneric.probe fanout_rank1 0 true framing_world
        = Some ((fanout_rank1, sizeof_size_t, 5), w1)
      ∧ FanOutGeneric.receive fanout_rank1 8 w1 = Some ((5, hello), w2)
      ∧ probed <$> heap w2 !! 1%nat = Some (false, 0)
      ∧ events_since framing_world w2
          = [EvProbe 1 true sizeof_size_t 5; EvReceive 1 8 5].
Proof.
  split; [split; reflexivity|].
  destruct (@FanOut_probe_then_receive Script Script_transport fanout_rank1 0 true
              framing_world 1%nat [] arriving5 eq_refl eq_refl
              ltac:(by vm_compute) ltac:(by vm_compute))
    as (w1 & Hprobe & _ & Hrecv).
  destruct (Hrecv 8) as (w2 & Hrun & Hhd & Hev).
  exists w1, w2. split_and!; [exact Hprobe|exact Hrun| |exact Hev].
  by rewrite Hhd.
Defined.

(** a FanIn sender with two Handles sends "hello" on both *)
Lemma FanIn_send_multicast_witness :
  (0 ≤ 5 ≤ SSIZE_MAX
   ∧ is_Some (heap scatter_world !! 0%nat) ∧ is_Some (heap scatter_world !! 1%nat))
  ∧ ∃ w',
      FanInGeneric.send fanin3 hello 5 scatter_world = Some (5, w')
      ∧ events_since scatter_world w' = [EvSend 0 hello 5; EvSend 1 hello 5].
Proof.
  split; [split_and!; (by vm_compute) || (by eexists)|].
  destruct (@FanIn_send_multicast Script Script_transport fanin3 hello 5 scatter_world
              ltac:(by vm_compute)
              (both_handles_valid scatter_world ltac:(by eexists) ltac:(by eexists)))
    as (r & w' & Hrun & _).
  vm_compute in Hrun. injection Hrun as <- <-.
  eexists. split; [vm_compute; reflexivity|reflexivity].
Defined.

(** a FanIn as constructed: a receive before any probe throws *)
Lemma FanIn_receive_needs_probe_witness :
  (2 ≤ SIZE_MAX ∧ FanInGeneric.probed_idx fanin3 = -1)
  ∧ FanInGeneric.receive fanin3 5 fanin_world = None.
Proof.
  split; [split; by vm_compute|].
  apply (@FanIn_receive_needs_probe Script Script_transport fanin3 5 fanin_world);
    by vm_compute.
Defined.

(** a FanIn of three whose two peers have frames on the way: the probe
    finds the frame of the first peer, the receive reads it from that
    peer, and a second receive throws *)
Lemma FanIn_probe_then_receive_witness :
  (is_Some (heap fanin_world !! 0%nat) ∧ is_Some (heap fanin_world !! 1%nat)
   ∧ 2 ≤ SIZE_MAX)
  ∧ ∃ c1 w1 c2 w2,
      FanInGeneric.probe 2 fanin3 0 false fanin_world
        = Some (Some (c1, sizeof_size_t, 5), w1)
      ∧ FanInGeneric.probed_idx c1 = 0
      ∧ FanInGeneric.receive c1 5 w1 = Some ((c2, 5, hello), w2)
      ∧ FanInGeneric.probed_idx c2 = -1
      ∧ FanInGeneric.receive c2 5 w2 = None.
Proof.
  split; [split_and!; (by vm_compute) || (by eexists)|].
  assert (∃ c1 w1, FanInGeneric.probe 2 fanin3 0 false fanin_world
                     = Some (Some (c1, sizeof_size_t, 5), w1)) as (c1 & w1 & Hprobe)
    by (eexists _, _; vm_compute; reflexivity).
  destruct (@FanIn_probe_then_receive Script Script_transport 2 fanin3 0 false fanin_world
              c1 sizeof_size_t 5 w1
              (both_handles_valid fanin_world ltac:(by eexists) ltac:(by eexists))
              ltac:(by vm_compute) Hprobe ltac:(by vm_compute) ltac:(lia))
    as (h & hd & evs & _ & Hh & Hhd & _ & _ & Hrecv).
  destruct (Hrecv 5) as (c2 & r & w2 & hd2 & Hrun & _ & _ & Hpos & _).
  assert (0 < rr_ret (t_receive 5 (chan hd)).1
          ∧ take (Z.to_nat 5) (rr_data (t_receive 5 (chan hd)).1) = hello
          ∧ FanInGeneric.probed_idx c1 = 0) as (Hgt & Hdata & Hidx).
  { clear Hrecv Hrun Hpos. vm_compute in Hprobe. injection Hprobe as <- <-.
    vm_compute in Hh. injection Hh as <-.
    vm_compute in Hhd. injection Hhd as <-. by vm_compute. }
  destruct (Hpos Hgt) as (Hr & _ & Hidx2 & Hthrow).
  rewrite Hdata in Hrun.
  assert (r = 5) as ->.
  { rewrite Hr. clear -Hprobe Hh Hhd. vm_compute in Hprobe. injection Hprobe as <- <-.
    vm_compute in Hh. injection Hh as <-.
    vm_compute in Hhd. injection Hhd as <-. by vm_compute. }
  exists c1, w1, c2, w2.
  split_and!; [exact Hprobe|exact Hidx|exact Hrun|exact Hidx2|exact (Hthrow 5)].
Defined.

(** a non-blocking probe on two peers of which the first has closed: the
    second is not looked at *)
Lemma FanIn_probe_skips_after_eos_witness :
  (participants (FanInGeneric.base fanin3) = [0%nat; 1%nat]
   ∧ is_Some (heap fanin_world_eos !! 0%nat) ∧ is_Some (heap fanin_world_eos !! 1%nat))
  ∧ ∃ w',
      FanInGeneric.probe 1 fanin3 0 false fanin_world_eos
        = Some (Some (FanInGeneric.with_participants fanin3 [1%nat], -1, 0), w')
      ∧ events_since fanin_world_eos w'
          = [EvProbe 0 false sizeof_size_t 0; EvClose 0 true true].
Proof.
  split; [split_and!; reflexivity || (by eexists)|].
  apply (proj1 (@FanIn_probe_skips_after_eos Script Script_transport 0 fanin3 0
                  fanin_world_eos 0%nat 1%nat [] _ eq_refl
                  (both_handles_valid fanin_world_eos ltac:(by eexists) ltac:(by eexists))
                  eq_refl ltac:(by vm_compute) ltac:(by vm_compute))).
  reflexivity.
Defined.

(** rank 1 of a Gather of 8 bytes in a group of two sends its share of 4
    bytes, with no receive buffer at all *)
Lemma Gather_nonroot_sendrecv_witness :
  (0 < 1 ∧ 1 ≤ 2 ≤ SIZE_MAX ∧ 0 ≤ 8 ≤ SIZE_MAX
   ∧ GatherGeneric.root gather_rank1 = false
   ∧ heap broken_world !! 0%nat = Some (fresh (mkScript [broken] [] []))
   ∧ 8 mod 1 = 0 ∧ 8 ≤ SSIZE_MAX ∧ 0 ≤ rank (GatherGeneric.base gather_rank1)
   ∧ 2 ≤ INT_MAX ∧ chunk 8 1 2 1 ≤ 4)
  ∧ ∃ w',
      GatherGeneric.sendrecv gather_rank1 (Some abcdefg) 4 None 8 1 broken_world
        = Some ((4, None), w')
      ∧ events_since broken_world w' = [EvSend 0 [x61; x62; x63; x64] 4].
Proof.
  split; [split_and!; (by vm_compute) || reflexivity|].
  destruct (proj2 (@Gather_nonroot_sendrecv Script Script_transport 8 1 2
                     ltac:(by vm_compute) ltac:(by vm_compute) ltac:(by vm_compute)
                     gather_rank1 eq_refl abcdefg 4 None broken_world 0%nat [] _
                     eq_refl eq_refl eq_refl eq_refl ltac:(by vm_compute)
                     ltac:(by vm_compute) ltac:(by vm_compute))
                  ltac:(by vm_compute))
    as (r & w' & Hrun & Hev & Hok & _).
  rewrite (Hok ltac:(by vm_compute)) in Hrun.
  exists w'. split; [exact Hrun|exact Hev].
Defined.

Lemma gather_world_delivers :
  ∀ (j h : nat) (d : list byte),
    [0%nat; 1%nat] !! j = Some h → [de; fg] !! j = Some d →
    ∃ hd, heap gather_world !! h = Some hd ∧ delivers hd d
          ∧ Z.of_nat (length d) = chunk 7 1 3 (Z.of_nat (S j)).
Proof.
  intros [|[|j]] h d Hh Hd; [| |done].
  - injection Hh as <-. injection Hd as <-. exists (sending de).
    split; [reflexivity|]. split; [|reflexivity].
    split_and!; try done; by vm_compute.
  - injection Hh as <-. injection Hd as <-. exists (sending fg).
    split; [reflexivity|]. split; [|reflexivity].
    split_and!; try done; by vm_compute.
Qed.

Lemma zero_one_distinct : NoDup [0%nat; 1%nat].
Proof.
  apply NoDup_cons. split; [|apply NoDup_singleton].
  intros Hin. apply list_elem_of_singleton in Hin. discriminate.
Qed.

(** the root of a Gather of 7 bytes in a group of three, with too small
    a share to send, and with the frames of both peers arriving *)
Lemma Gather_root_sendrecv_witness :
  (0 < 1 ∧ 1 ≤ 3 ≤ SIZE_MAX ∧ 0 ≤ 7 ≤ SIZE_MAX
   ∧ nparticipants (GatherGeneric.base gather3) = 3 ∧ 7 mod 1 = 0
   ∧ GatherGeneric.root gather3 = true ∧ 7 ≤ SSIZE_MAX
   ∧ is_Some (heap gather_world !! 0%nat) ∧ is_Some (heap gather_world !! 1%nat)
   ∧ 2 < chunk 7 1 3 0 ≤ 3)
  ∧ GatherGeneric.sendrecv gather3 (Some abcdefg) 2 None 7 1 gather_world
      = Some ((-1, None), mkWorld (heap gather_world) EINVAL (trace gather_world))
  ∧ GatherGeneric.sendrecv gather3 (Some abcdefg) 3 None 7 1 gather_world
      = Some ((-1, None), mkWorld (heap gather_world) EFAULT (trace gather_world))
  ∧ ∃ rb' w',
      GatherGeneric.sendrecv gather3 (Some abcdefg) 3 (Some (zeros 9)) 7 1 gather_world
        = Some ((3, Some rb'), w')
      ∧ length rb' = 9%nat ∧ take 3 rb' = [x61; x62; x63] ∧ drop 7 rb' = zeros 2.
Proof.
  split; [split_and!; (by vm_compute) || (by eexists)|].
  destruct (@Gather_root_sendrecv Script Script_transport 7 1 3
              ltac:(by vm_compute) ltac:(by vm_compute) ltac:(by vm_compute)
              gather3 eq_refl eq_refl eq_refl abcdefg 2 gather_world eq_refl
              ltac:(by vm_compute)
              (both_handles_valid gather_world ltac:(by eexists) ltac:(by eexists)))
    as (Hsmall & _ & _).
  destruct (@Gather_root_sendrecv Script Script_transport 7 1 3
              ltac:(by vm_compute) ltac:(by vm_compute) ltac:(by vm_compute)
              gather3 eq_refl eq_refl eq_refl abcdefg 3 gather_world eq_refl
              ltac:(by vm_compute)
              (both_handles_valid gather_world ltac:(by eexists) ltac:(by eexists)))
    as (_ & Hnull & Hrun).
  split; [exact (Hsmall ltac:(by vm_compute) None)|].
  split; [exact (Hnull ltac:(by vm_compute))|].
  destruct (Hrun ltac:(by vm_compute) (zeros 9) ltac:(vm_compute; lia) ltac:(vm_compute; lia))
    as (r & rb' & w' & groups & Hr & _ & Hl & Ht & Hd & _).
  assert (r = 3) as -> by (vm_compute in Hr; by injection Hr as <- _ _).
  exists rb', w'. split_and!; [exact Hr|exact Hl|exact Ht|exact Hd].
Defined.

(** scenario S3 on 7 bytes: the root keeps "abc" and receives "de" and
    "fg" *)
Lemma Gather_root_assembles_witness :
  (0 < 1 ∧ 1 ≤ 3 ≤ SIZE_MAX ∧ 0 ≤ 7 ≤ SIZE_MAX
   ∧ nparticipants (GatherGeneric.base gather3) = 3 ∧ 7 mod 1 = 0
   ∧ GatherGeneric.root gather3 = true ∧ 7 ≤ SSIZE_MAX
   ∧ NoDup (participants (GatherGeneric.base gather3)) ∧ chunk 7 1 3 0 ≤ 3)
  ∧ ∃ w',
      GatherGeneric.sendrecv gather3 (Some [x61; x62; x63]) 3 (Some (zeros 9)) 7 1
                             gather_world
        = Some ((3, Some (abcdefg ++ zeros 2)), w')
      ∧ receives_of [0%nat; 1%nat] (events_since gather_world w').
Proof.
  split; [split_and!; (by vm_compute) || (exact zero_one_distinct)|].
  destruct (@Gather_root_assembles Script Script_transport 7 1 3
              ltac:(by vm_compute) ltac:(by vm_compute) ltac:(by vm_compute)
              gather3 eq_refl eq_refl eq_refl [x61; x62; x63] (zeros 9) 3 gather_world
              [de; fg] eq_refl ltac:(by vm_compute) zero_one_distinct eq_refl
              gather_world_delivers ltac:(by vm_compute) ltac:(vm_compute; lia)
              ltac:(vm_compute; lia))
    as (w' & Hrun & _ & Hev).
  exists w'. split; [exact Hrun|exact Hev].
Defined.

(** the same in an AllGather: the two peers are sent "abcdefg" *)
Lemma AllGather_root_agreement_witness :
  (0 < 1 ∧ 1 ≤ 3 ≤ SIZE_MAX ∧ 0 ≤ 7 ≤ SSIZE_MAX ∧ 7 mod 1 = 0
   ∧ AllGatherGeneric.root allgather3 = true
   ∧ NoDup (participants (AllGatherGeneric.base allgather3)) ∧ chunk 7 1 3 0 ≤ 3)
  ∧ ∃ w' recvs sends,
      AllGatherGeneric.sendrecv allgather3 (Some [x61; x62; x63]) 3 (Some (zeros 9)) 7 1
                                gather_world
        = Some ((3, Some (abcdefg ++ zeros 2)), w')
      ∧ events_since gather_world w' = recvs ++ sends
      ∧ receives_of [0%nat; 1%nat] recvs
      ∧ (∀ i ev, sends !! i = Some ev →
           ∃ h ret, [0%nat; 1%nat] !! i = Some h ∧ ev = EvSend h abcdefg ret).
Proof.
  split; [split_and!; (by vm_compute) || (exact zero_one_distinct)|].
  destruct (@AllGather_root_agreement Script Script_transport allgather3 7 1
              ltac:(by vm_compute) ltac:(by vm_compute) ltac:(by vm_compute)
              eq_refl eq_refl [x61; x62; x63] (zeros 9) 3 gather_world
              [de; fg] eq_refl zero_one_distinct eq_refl
              gather_world_delivers ltac:(by vm_compute) ltac:(vm_compute; lia)
              ltac:(vm_compute; lia))
    as (r & w' & recvs & sends & Hrun & _ & Hev & Hrecv & Hsends & _).
  assert (r = 3) as ->.
  { clear -Hrun. vm_compute in Hrun. by injection Hrun as <- _. }
  exists w', recvs, sends. split_and!; [exact Hrun|exact Hev|exact Hrecv|exact Hsends].
Defined.

(** the Scatter of scenario S2 uses the two Handles of the root only *)
Lemma sendrecv_uses_participants_only_witness :
  ∃ r w',
    ScatterGeneric.sendrecv scatter3 (Some abcdefg) 7 (Some (zeros 4)) 4 1 scatter_world
      = Some (r, w')
    ∧ stays [0%nat; 1%nat] scatter_world w'.
Proof.
  eexists _, _. split; [vm_compute; reflexivity|].
  eapply (proj1 (proj2 (@sendrecv_uses_participants_only Script Script_transport
                          (Some abcdefg) 7 (Some (zeros 4)) 4 1))
                scatter3 scatter_world).
  vm_compute; reflexivity.
Defined.

(** a FanIn probe on two peers that have both closed uses their two
    Handles only, and both are still in the heap afterwards *)
Lemma streaming_uses_participants_only_witness :
  ∃ r w',
    FanInGeneric.probe 5 fanin3 99 true fanin_world_eos = Some (r, w')
    ∧ stays [0%nat; 1%nat] fanin_world_eos w'.
Proof.
  eexists _, _. split; [vm_compute; reflexivity|].
  eapply (proj1 (proj1 (@streaming_uses_participants_only Script Script_transport
                          99 true 5%nat hello) fanin3) fanin_world_eos).
  vm_compute; reflexivity.
Defined.

(** rank 1 of an AllGather of 8 bytes in a group of two: its share is
    sent, the probe of the answer fails, and the call still returns 4 *)
Lemma AllGather_nonroot_is_Gather_then_receive_witness :
  0 ≤ 4 ≤ SSIZE_MAX
  ∧ ∃ w',
      AllGatherGeneric.sendrecv (AllGatherGeneric.mk pair_rank1_first false)
                                (Some abcdefg) 4 (Some (zeros 8)) 8 1 broken_world
        = Some ((4, Some (zeros 8)), w').
Proof.
  split; [by vm_compute|].
  eexists. etransitivity.
  - exact (@AllGather_nonroot_is_Gather_then_receive Script Script_transport
             pair_rank1_first abcdefg (zeros 8) 4 8 1 broken_world ltac:(by vm_compute)).
  - vm_compute. reflexivity.
Defined.

(** a non-blocking probe of two peers with fuel for both *)
Lemma FanIn_probe_nonblocking_bounded_witness :
  (is_Some (heap fanin_world !! 0%nat) ∧ is_Some (heap fanin_world !! 1%nat)
   ∧ (length (participants (FanInGeneric.base fanin3)) ≤ 2)%nat)
  ∧ ∃ c' res size' w',
      FanInGeneric.probe 2 fanin3 0 false fanin_world = Some (Some (c', res, size'), w')
      ∧ (probes_in (events_since fanin_world w') ≤ 2)%nat.
Proof.
  split; [split_and!; (by eexists) || (vm_compute; lia)|].
  apply (@FanIn_probe_nonblocking_bounded Script Script_transport 2 fanin3 0 fanin_world
           (both_handles_valid fanin_world ltac:(by eexists) ltac:(by eexists))
           ltac:(vm_compute; lia)).
Defined.

Lemma alltoall_world_delivers :
  ∀ (j h : nat) (d : list byte),
    [0%nat; 1%nat] !! j = Some h → [def; ghi] !! j = Some d →
    ∃ hd, heap alltoall_world !! h = Some hd ∧ delivers_int hd d
          ∧ Z.of_nat (length d) = 3.
Proof.
  intros [|[|j]] h d Hh Hd; [| |done].
  - injection Hh as <-. injection Hd as <-. exists (sending def).
    split; [reflexivity|]. split; [|reflexivity].
    split; [|by vm_compute]. split_and!; try done; by vm_compute.
  - injection Hh as <-. injection Hd as <-. exists (sending ghi).
    split; [reflexivity|]. split; [|reflexivity].
    split; [|by vm_compute]. split_and!; try done; by vm_compute.
Qed.

(** the root of an Alltoall of "abc" with peers that send "def" and
    "ghi": it keeps "adg" and sends "beh" and "cfi" *)
Lemma Alltoall_root_routes_witness :
  (0 < 1 ∧ 1 ≤ nparticipants (AlltoallGeneric.base alltoall3) ≤ INT_MAX ∧ 0 ≤ 3
   ∧ (3 + 1) * nparticipants (AlltoallGeneric.base alltoall3) ≤ SSIZE_MAX
   ∧ AlltoallGeneric.root alltoall3 = true
   ∧ rank (AlltoallGeneric.base alltoall3) = 0 ∧ 3 mod 1 = 0
   ∧ NoDup (participants (AlltoallGeneric.base alltoall3)))
  ∧ routed 3 1 3 [[x61; x62; x63]; def; ghi] 1 = [x62; x65; x68]
  ∧ routed 3 1 3 [[x61; x62; x63]; def; ghi] 2 = [x63; x66; x69]
  ∧ ∃ w' recvs sends,
      AlltoallGeneric.sendrecv alltoall3 (Some [x61; x62; x63]) 3 (Some (zeros 4)) 3 1
                               alltoall_world
        = Some ((3, Some ([x61; x64; x67] ++ zeros 1)), w')
      ∧ events_since alltoall_world w' = recvs ++ sends
      ∧ receives_of [0%nat; 1%nat] recvs
      ∧ ∀ j ev, sends !! j = Some ev →
          ∃ h ret, [0%nat; 1%nat] !! j = Some h
            ∧ ev = EvSend h (routed 3 1 3 [[x61; x62; x63]; def; ghi] (S j)) ret.
Proof.
  split; [split_and!; (by vm_compute) || (exact zero_one_distinct)|].
  split; [reflexivity|]. split; [reflexivity|].
  destruct (@Alltoall_root_routes Script Script_transport alltoall3 3 1
              [x61; x62; x63] (zeros 4) 3 alltoall_world [def; ghi]
              ltac:(by vm_compute) ltac:(by vm_compute) ltac:(by vm_compute)
              ltac:(by vm_compute) eq_refl eq_refl eq_refl eq_refl zero_one_distinct
              eq_refl alltoall_world_delivers ltac:(by vm_compute) ltac:(by vm_compute)
              ltac:(by vm_compute))
    as (r & w' & recvs & sends & Hrun & _ & Hev & Hrecv & Hsends & _).
  assert (r = 3) as -> by (vm_compute in Hrun; by injection Hrun as <- _).
  exists w', recvs, sends. split_and!; [exact Hrun|exact Hev|exact Hrecv|exact Hsends].
Defined.

(** the same root when the receive of the first block reports [2^31]
    bytes: the call returns [-2^31] after that receive *)
Lemma Alltoall_root_block_over_int_witness :
  (0 < 1 ∧ 2 ≤ nparticipants (AlltoallGeneric.base alltoall3) ≤ INT_MAX ∧ 0 ≤ 3
   ∧ (3 + 1) * nparticipants (AlltoallGeneric.base alltoall3) ≤ SSIZE_MAX
   ∧ AlltoallGeneric.root alltoall3 = true
   ∧ rank (AlltoallGeneric.base alltoall3) = 0 ∧ 3 mod 1 = 0
   ∧ 2 ^ 31 ≤ 2 ^ 31 < 2 ^ 32)
  ∧ ∃ pret w',
      AlltoallGeneric.sendrecv alltoall3 (Some [x61; x62; x63]) 3 (Some (zeros 4)) 3 1
                               alltoall_world_huge
        = Some ((- 2 ^ 31, Some (zeros 4)), w')
      ∧ events_since alltoall_world_huge w'
          = [EvProbe 0 true pret 3; EvReceive 0 3 (2 ^ 31)].
Proof.
  split; [split_and!; by vm_compute|].
  destruct (@Alltoall_root_block_over_int Script Script_transport alltoall3 3 1
              [x61; x62; x63] (zeros 4) 3 alltoall_world_huge 0%nat
              (fresh (mkScript [header 3] [ReceiveResult (2 ^ 31) def None] [])) def
              ltac:(by vm_compute) ltac:(by vm_compute) ltac:(by vm_compute)
              ltac:(by vm_compute) eq_refl eq_refl eq_refl eq_refl ltac:(by vm_compute)
              eq_refl eq_refl
              ltac:(split_and!; try done; by vm_compute) eq_refl ltac:(by vm_compute))
    as (pret & w' & Hrun & _ & Hev).
  exists pret, w'. split; [exact Hrun|exact Hev].
Defined.

(** rank 1 of an Alltoall of 4 bytes in a group of two: the block is
    sent, the probe of the answer fails, and the call still returns 4 *)
Lemma Alltoall_nonroot_sends_then_receives_witness :
  (0 < 1 ∧ 1 ≤ nparticipants pair_rank1_first ≤ INT_MAX ∧ 0 ≤ rank pair_rank1_first
   ∧ 0 ≤ 4 ∧ (4 + 1) * nparticipants pair_rank1_first ≤ SSIZE_MAX ∧ 4 mod 1 = 0)
  ∧ ∃ w',
      AlltoallGeneric.sendrecv (AlltoallGeneric.mk pair_rank1_first false)
                               (Some abcdefg) 4 (Some (zeros 8)) 8 1 broken_world
        = Some ((4, Some (zeros 8)), w')
      ∧ events_since broken_world w'
          = [EvSend 0 [x61; x62; x63; x64] 4; EvProbe 0 true (-1) 0].
Proof.
  split; [split_and!; by vm_compute|].
  eexists. split.
  - etransitivity.
    + exact (@Alltoall_nonroot_sends_then_receives Script Script_transport
               pair_rank1_first abcdefg (zeros 8) 4 8 1 broken_world
               ltac:(by vm_compute) ltac:(by vm_compute) ltac:(by vm_compute)
               ltac:(by vm_compute) ltac:(by vm_compute) ltac:(by vm_compute)).
    + vm_compute. reflexivity.
  - vm_compute. reflexivity.
Defined.

End ConcreteRunsMore.
